(** * Service registry, service factory and base-service runtime

    A shallow embedding of the registry ([services/ServiceRegistry.js]),
    the factory ([services/ServiceFactory.js]), the base service runtime
    ([services/BaseService.js]), the broker connector
    ([config/rabbitmq.js]) and the command line entry point ([index.js])
    of the microservice template, with the properties the specification
    states about them: the definitions first, module by module, then
    the lemmas and the theorems C1 to C10. The two service classes
    ([services/api], [services/otp]), the response helpers
    ([utils/response.js]) and the OTP controller are embedded as well;
    the last part of the file, theorems X1 to X29, states what the code
    shows beyond the specification.

    Conventions of the embedding:
    - a JavaScript value that the code only tests for truthiness, compares
      with [===] or interpolates in a template literal is a [JS.value];
      numbers are the integers (a port, a timestamp in milliseconds);
    - [Date.now()] is an explicit argument [now] of every operation that
      reads the clock, [Math.random()] an explicit rational draw;
    - a method that mutates [this] takes the object and returns the new
      object next to its outcome; a [throw] is the [Throw] outcome, and the
      object returned with it is the object as it was when the exception
      left the method. *)

From Stdlib Require Import ZArith QArith Qround Lqa Ascii String.
From stdpp Require Import base decidable option list strings pretty gmap.

Set Warnings "-register-all,-clear-no-such-hyp".
Close Scope Q_scope.
Local Open Scope string_scope.
Local Open Scope Z_scope.

(** ** JavaScript values *)

Module JS.

(** The primitive values the modelled code handles, and [Ref], an opaque
    reference to an object (a connection, a channel, a registry). *)
Inductive value : Type :=
| Undefined
| Null
| Bool (b : bool)
| Num (n : Z)
| Str (s : string)
| Ref (r : nat).

#[global] Instance value_eq_dec : EqDecision value.
Proof. solve_decision. Defined.

(** [ToBoolean]: what [!v], [v || w] and [if (v)] test. *)
Definition truthy (v : value) : bool :=
  match v with
  | Undefined | Null => false
  | Bool b => b
  | Num n => negb (n =? 0)
  | Str s => negb (String.eqb s "")
  | Ref _ => true
  end.

(** [a || b]. *)
Definition or (a b : value) : value := if truthy a then a else b.

(** [ToString], as applied by a template literal [`${v}`]; an integer
    is printed in base ten (the ports and timestamps at hand are far
    below the 10^21 from which the platform switches to an exponent). *)
Definition to_string (v : value) : string :=
  match v with
  | Undefined => "undefined"
  | Null => "null"
  | Bool true => "true"
  | Bool false => "false"
  | Num n => pretty n
  | Str s => s
  | Ref _ => "[object Object]"
  end.

(** [a === b] (no NaN among the modelled numbers). *)
Definition strict_eq (a b : value) : bool := bool_decide (a = b).

(** Outcome of a call: a returned value or a thrown exception. *)
Inductive outcome (E A : Type) : Type :=
| Return (a : A)
| Throw (e : E).
Arguments Return {E A} a.
Arguments Throw {E A} e.

(** The exceptions of the modelled code: [new Error(msg)], and the
    [TypeError] the runtime raises itself. *)
Inductive exn : Type :=
| Error (msg : string)
| TypeError (msg : string).

(** Own property names of [Object.prototype]: what a property read on an
    object literal finds when the literal has no such property itself.
    Every one of them holds a function or an object, hence is truthy. *)
Definition object_prototype_names : list string :=
  [ "constructor"; "__defineGetter__"; "__defineSetter__";
    "hasOwnProperty"; "__lookupGetter__"; "__lookupSetter__";
    "isPrototypeOf"; "propertyIsEnumerable"; "toString"; "valueOf";
    "__proto__"; "toLocaleString" ].

(** Result of reading [literal[k]] on an object literal used as a table. *)
Inductive read (V : Type) : Type :=
| Own (v : V)
| Inherited
| Missing.
Arguments Own {V} v.
Arguments Inherited {V}.
Arguments Missing {V}.

Definition read_literal {V : Type} (literal : gmap string V) (k : string)
  : read V :=
  match literal !! k with
  | Some v => Own v
  | None =>
      if bool_decide (k ∈ object_prototype_names) then Inherited
      else Missing
  end.

End JS.

(** ** Plain objects used as string-keyed tables

    [this.services = {}] is a plain object; its own string-keyed properties
    are kept in insertion order, which is the order [Object.values] and
    [Object.entries] enumerate them in (no key of the registry is an array
    index). *)

Module Obj.
Section Table.
Context {V : Type}.

Definition t := list (string * V).

(** [o[k]] on own properties. *)
Fixpoint get (o : t) (k : string) : option V :=
  match o with
  | [] => None
  | (k', v) :: o' => if String.eqb k' k then Some v else get o' k
  end.

(** [o[k] = v]: an existing property keeps its place, a new one is
    added last. *)
Fixpoint set (o : t) (k : string) (v : V) : t :=
  match o with
  | [] => [(k, v)]
  | (k', v') :: o' =>
      if String.eqb k' k then (k', v) :: o' else (k', v') :: set o' k v
  end.

(** [delete o[k]]. *)
Fixpoint delete (o : t) (k : string) : t :=
  match o with
  | [] => []
  | (k', v') :: o' =>
      if String.eqb k' k then o' else (k', v') :: delete o' k
  end.

Definition keys (o : t) : list string := map fst o.
Definition values (o : t) : list V := map snd o.
Definition entries (o : t) : list (string * V) := o.

(** No property occurs twice: holds of every object the program
    builds, since [set] and [delete] preserve it. *)
Definition wf (o : t) : Prop := NoDup (keys o).
End Table.
Arguments t : clear implicits.
End Obj.

(** ** services/ServiceRegistry.js *)

Module Registry.

Record ServiceEntry : Type := {
  name : JS.value;
  host : JS.value;
  port : JS.value;
  url : string;
  timestamp : Z;
  metadata : gmap string JS.value;
  key : string
}.

Definition set_timestamp (e : ServiceEntry) (ts : Z) : ServiceEntry :=
  {| name := name e; host := host e; port := port e; url := url e;
     timestamp := ts; metadata := metadata e; key := key e |}.

Record ServiceRegistry : Type := {
  services : Obj.t ServiceEntry;
  timeout : Z;
  cleanupInterval : Z
}.

Definition with_services (r : ServiceRegistry) (s : Obj.t ServiceEntry)
  : ServiceRegistry :=
  {| services := s; timeout := timeout r;
     cleanupInterval := cleanupInterval r |}.

(** [options.timeout || 30000] and [options.cleanupInterval || 300000]:
    an absent or zero option gives the default. *)
Definition option_or (o : option Z) (d : Z) : Z :=
  match o with
  | Some z => if z =? 0 then d else z
  | None => d
  end.

(** The constructor. The timer it starts runs [cleanup] every
    [cleanupInterval] milliseconds. *)
Definition new (opt_timeout opt_cleanupInterval : option Z)
  : ServiceRegistry :=
  {| services := [];
     timeout := option_or opt_timeout 30000;
     cleanupInterval := option_or opt_cleanupInterval 300000 |}.

Definition _generateKey (name host port : JS.value) : string :=
  JS.to_string name +:+ ":" +:+ JS.to_string host +:+ ":"
    +:+ JS.to_string port.

(** [new Error('Service registration requires name, host, and port')]:
    the specification's [InvalidArgument]. *)
Definition invalid_registration : JS.exn :=
  JS.Error "Service registration requires name, host, and port".

Definition register (r : ServiceRegistry) (now : Z)
    (name host port : JS.value) (metadata : gmap string JS.value)
  : ServiceRegistry * JS.outcome JS.exn ServiceEntry :=
  if negb (JS.truthy name) || negb (JS.truthy host)
     || negb (JS.truthy port)
  then (r, JS.Throw invalid_registration)
  else
    let key := _generateKey name host port in
    let timestamp := now in
    match Obj.get (services r) key with
    | Some e =>
        let e' := set_timestamp e timestamp in
        (with_services r (Obj.set (services r) key e'), JS.Return e')
    | None =>
        let service :=
          {| name := name; host := host; port := port;
             url := "http://" +:+ JS.to_string host +:+ ":"
                      +:+ JS.to_string port;
             timestamp := timestamp; metadata := metadata; key := key |} in
        (with_services r (Obj.set (services r) key service),
         JS.Return service)
    end.

Definition unregister (r : ServiceRegistry) (name host port : JS.value)
  : ServiceRegistry * bool :=
  let key := _generateKey name host port in
  match Obj.get (services r) key with
  | Some _ => (with_services r (Obj.delete (services r) key), true)
  | None => (r, false)
  end.

(** The filter of [findAll]: an expired entry is dropped, otherwise the
    name decides. *)
Definition live_and_named (r : ServiceRegistry) (now : Z) (n : JS.value)
    (service : ServiceEntry) : bool :=
  if now - timestamp service >? timeout r then false
  else JS.strict_eq (name service) n.

Definition findAll (r : ServiceRegistry) (now : Z) (n : JS.value)
  : list ServiceEntry :=
  List.filter (live_and_named r now n) (Obj.values (services r)).

(** What [find] returns: [null], an entry, or [undefined] for an index
    outside the array. *)
Inductive found : Type :=
| FoundNull
| FoundEntry (e : ServiceEntry)
| FoundUndefined.

(** [Math.floor(random * length)] for a draw [random] of [Math.random()]. *)
Definition random_index (random : Q) (len : nat) : Z :=
  Qfloor (random * inject_Z (Z.of_nat len))%Q.

Definition find (r : ServiceRegistry) (now : Z) (random : Q) (n : JS.value)
  : found :=
  let services := findAll r now n in
  if (length services =? 0)%nat then FoundNull
  else
    let i := random_index random (length services) in
    if i <? 0 then FoundUndefined
    else match nth_error services (Z.to_nat i) with
         | Some e => FoundEntry e
         | None => FoundUndefined
         end.

Definition getAll (r : ServiceRegistry) : list ServiceEntry :=
  Obj.values (services r).

(** One run of the timer callback of [_startCleanupInterval]: the entries
    are enumerated once, then every expired one is deleted by its
    property name and counted. Returns the registry and the count that
    is logged. *)
Definition cleanup_step (tmo now : Z)
    (acc : Obj.t ServiceEntry * nat) (kv : string * ServiceEntry)
  : Obj.t ServiceEntry * nat :=
  if now - timestamp (snd kv) >? tmo
  then (Obj.delete (fst acc) (fst kv), S (snd acc))
  else acc.

Definition cleanup (r : ServiceRegistry) (now : Z)
  : ServiceRegistry * nat :=
  let res :=
    fold_left (cleanup_step (timeout r) now)
              (Obj.entries (services r)) (services r, 0%nat) in
  (with_services r (fst res), snd res).

End Registry.

(** ** services/BaseService.js: construction *)

Module BaseService.

(** An options object: its own properties. A property that is present
    with the value [undefined] is [Some JS.Undefined]; an absent one is
    [None]. Both read as [undefined], but only the first is copied by an
    object spread. *)
Abbreviation options := (gmap string JS.value).

(** [options.k]. *)
Definition prop (o : options) (k : string) : JS.value :=
  default JS.Undefined (o !! k).

(** [{ ...literal, ...o }]: the properties of the literal, then every own
    property of [o] written over them. *)
Definition spread_over (literal o : options) : options := o ∪ literal.

Record t : Type := {
  name : JS.value;
  port : JS.value;
  connection : JS.value;
  channel : JS.value;
  configPath : JS.value;
  env : JS.value;
  registry : JS.value;
  registryInfo : option Registry.ServiceEntry;
  isRunning : bool;
  queues : gmap string JS.value;
  exchanges : gmap string JS.value
}.

(** [this.queues[queueName] = queue]. *)
Definition set_queue (s : t) (queueName : string) (queue : JS.value) : t :=
  {| name := name s; port := port s; connection := connection s;
     channel := channel s; configPath := configPath s; env := env s;
     registry := registry s; registryInfo := registryInfo s;
     isRunning := isRunning s;
     queues := <[queueName := queue]> (queues s);
     exchanges := exchanges s |}.

Definition constructor (o : options) : t :=
  {| name := JS.or (prop o "name") (JS.Str "unknown-service");
     port := JS.or (prop o "port") (JS.Num 3000);
     connection := prop o "connection";
     channel := prop o "channel";
     configPath := prop o "configPath";
     env := JS.or (prop o "env") (JS.Str "development");
     registry := prop o "registry";
     registryInfo := None;
     isRunning := false;
     queues := ∅;
     exchanges := ∅ |}.

End BaseService.

(** ** The concrete service classes *)

Module ServiceClass.

(** The [config] module of a service: [config.service.name] and
    [config.server.port], the latter read from the environment. *)
Record config : Type := {
  service_name : string;
  server_port : JS.value
}.

(** The constructor shared by [services/api/index.js] and
    [services/otp/index.js]:
    [super({ name: config.service.name,
             port: options.port || config.server.port, ...options })]. *)
Definition construct (c : config) (o : BaseService.options)
  : BaseService.t :=
  BaseService.constructor
    (BaseService.spread_over
       {[ "name" := JS.Str (service_name c);
          "port" := JS.or (BaseService.prop o "port") (server_port c) ]}
       o).

(** [services/api/config/index.js] and the configuration of the OTP
    service, with no port in the environment. *)
Definition api_config : config :=
  {| service_name := "api-service"; server_port := JS.Num 3001 |}.
Definition otp_config : config :=
  {| service_name := "otp-service"; server_port := JS.Num 3002 |}.

(** Modelled from the spec: [services/api-gateway/index.js] and its
    configuration are not among the sources. The specification has every
    concrete service wrap the base service runtime, and the gateway's
    default port is 3000; the class is taken to call the base constructor
    the way the two classes at hand do. *)
Definition gateway_config : config :=
  {| service_name := "api-gateway"; server_port := JS.Num 3000 |}.

End ServiceClass.

(** ** config/rabbitmq.js *)

Module RabbitmqConfig.

(** The singleton: [connection] and [channel], [null] until connected. *)
Record t : Type := {
  connection : JS.value;
  channel : JS.value
}.

Definition initial : t := {| connection := JS.Null; channel := JS.Null |}.

(** What [amqp.connect] and [createChannel] do on one attempt. *)
Inductive attempt : Type :=
| ConnectFails
| ChannelFails (conn : JS.value)
| Connected (conn chan : JS.value).

(** [connect()]: returns normally in every case (a failure is logged and
    a reconnection scheduled). *)
Definition connect (argv : list string) (a : attempt) (b : t) : t :=
  if bool_decide ("-s=api-gateway" ∈ argv) then b
  else match a with
       | ConnectFails => b
       | ChannelFails conn => {| connection := conn; channel := channel b |}
       | Connected conn chan => {| connection := conn; channel := chan |}
       end.

End RabbitmqConfig.

(** ** services/ServiceFactory.js *)

Module Factory.

(** [this.serviceTypes], set by the constructor. *)
Definition serviceTypes : gmap string string :=
  {[ "api-gateway" := "./api-gateway"; "api" := "./api"; "otp" := "./otp" ]}.

Definition portMap : gmap string Z :=
  {[ "api-gateway" := 3000; "api" := 3001; "otp" := 3002 ]}.

Record ServiceFactory : Type := {
  services : gmap string BaseService.t;
  registry : Registry.ServiceRegistry
}.

(** [this.registry] as the services see it. *)
Definition registry_ref : JS.value := JS.Ref 0.

(** The constructor, called with no options when the module is loaded. *)
Definition new : ServiceFactory :=
  {| services := ∅; registry := Registry.new (Some 30000) (Some 300000) |}.

(** What the process and its surroundings supply to one call of
    [createService]. *)
Record world : Type := {
  argv : list string;
  cwd : string;
  NODE_ENV : JS.value;
  now : Z;
  (** [require('../config/rabbitmq')] may fail to load *)
  rabbitmq_loads : bool;
  amqp : RabbitmqConfig.attempt
}.

(** [portMap[type] || 3000]; for an inherited name the value read is a
    function. *)
Definition _getDefaultPort (type : string) : JS.value :=
  match JS.read_literal portMap type with
  | JS.Own p => JS.or (JS.Num p) (JS.Num 3000)
  | JS.Inherited => JS.Ref 1
  | JS.Missing => JS.Num 3000
  end.

(** [path.join(process.cwd(), 'config', `${env}-service-config.json`)],
    [env] defaulting to ['development'] when [undefined]. *)
Definition _getConfigPath (w : world) (type : string) (env : JS.value)
  : string :=
  let env := match env with JS.Undefined => JS.Str "development"
                       | _ => env end in
  cwd w +:+ "/config/" +:+ JS.to_string env +:+ "-service-config.json".

(** The broker handed to the service: [null], or the singleton's
    connection and channel after [connect()]. *)
Definition _initializeMessageBroker (w : world) (b : RabbitmqConfig.t)
    (type : string)
  : RabbitmqConfig.t * JS.outcome JS.exn (option RabbitmqConfig.t) :=
  if String.eqb type "api-gateway" then (b, JS.Return None)
  else if negb (rabbitmq_loads w)
  then (b, JS.Throw (JS.Error "Cannot find module 'amqplib'"))
  else
    let b' := RabbitmqConfig.connect (argv w) (amqp w) b in
    (b', JS.Return (Some b')).

(** [messageBroker?.connection] and [messageBroker?.channel]. *)
Definition broker_connection (m : option RabbitmqConfig.t) : JS.value :=
  match m with
  | Some b => RabbitmqConfig.connection b
  | None => JS.Undefined
  end.
Definition broker_channel (m : option RabbitmqConfig.t) : JS.value :=
  match m with
  | Some b => RabbitmqConfig.channel b
  | None => JS.Undefined
  end.

Definition serviceOptions (w : world) (m : option RabbitmqConfig.t)
    (type : string) (o : BaseService.options) : BaseService.options :=
  BaseService.spread_over
    {[ "name" := JS.Str type;
       "port" := JS.or (BaseService.prop o "port") (_getDefaultPort type);
       "connection" := broker_connection m;
       "channel" := broker_channel m;
       "configPath" :=
         JS.or (BaseService.prop o "configPath")
               (JS.Str (_getConfigPath w type (BaseService.prop o "env")));
       "env" := JS.or (BaseService.prop o "env")
                      (JS.or (NODE_ENV w) (JS.Str "development"));
       "registry" := registry_ref ]}
    o.

(** [require(path)] for the three service directories. *)
Definition require (path : string) : option ServiceClass.config :=
  if String.eqb path "./api" then Some ServiceClass.api_config
  else if String.eqb path "./otp" then Some ServiceClass.otp_config
  else if String.eqb path "./api-gateway"
       then Some ServiceClass.gateway_config
  else None.

Definition createService (w : world) (f : ServiceFactory)
    (b : RabbitmqConfig.t) (type : string) (o : BaseService.options)
  : ServiceFactory * RabbitmqConfig.t * JS.outcome JS.exn BaseService.t :=
  if negb (JS.truthy (JS.Str type))
  then (f, b, JS.Throw (JS.Error "Service type is required"))
  else
    match JS.read_literal serviceTypes type with
    | JS.Missing =>
        (f, b, JS.Throw (JS.Error ("Unsupported service type: " +:+ type)))
    | supported =>
        match _initializeMessageBroker w b type with
        | (b', JS.Throw e) => (f, b', JS.Throw e)
        | (b', JS.Return messageBroker) =>
            let serviceId := type +:+ "-" +:+ pretty (now w) in
            let so := serviceOptions w messageBroker type o in
            match supported with
            | JS.Own path =>
                match require path with
                | Some cls =>
                    let service := ServiceClass.construct cls so in
                    ({| services := <[serviceId := service]> (services f);
                        registry := registry f |}, b', JS.Return service)
                | None =>
                    (f, b', JS.Throw
                              (JS.Error ("Cannot find module '" +:+ path
                                         +:+ "'")))
                end
            | _ =>
                (f, b', JS.Throw
                          (JS.TypeError
                             "The id argument must be of type string. Received function"))
            end
        end
    end.

Definition getAllServices (f : ServiceFactory)
  : gmap string BaseService.t := services f.

Definition getRegistry (f : ServiceFactory) : Registry.ServiceRegistry :=
  registry f.

End Factory.

(** ** services/BaseService.js: publishing and consuming *)

(** The values a message can be. *)
Module Payload.
Inductive value : Type :=
| Undefined
| Null
| Bool (b : bool)
| Number (n : Z)
| String (s : string)
| Array (items : list value)
| Object (fields : list (string * value)).
End Payload.

(** The structured encoding is the platform's: [JSON.stringify], whose
    result is a string or [undefined] ([None]), and [JSON.parse], which
    returns a value or throws a [SyntaxError] ([None]). *)
Class JSON : Type := {
  stringify : Payload.value → option string;
  parse : string → option Payload.value
}.

Module Messaging.

(** A [Buffer]: bytes. *)
Abbreviation Buffer := (list ascii).
Definition Buffer_from (s : string) : Buffer := list_ascii_of_string s.
Definition Buffer_toString (b : Buffer) : string := string_of_list_ascii b.

(** A delivery as the broker library hands it to the consumer. *)
Record message : Type := {
  content : Buffer;
  deliveryTag : nat;
  redelivered : bool
}.

(** Calls on the shared channel that took effect. *)
Inductive call : Type :=
| AssertQueue (queue : string) (opts : gmap string JS.value)
| SendToQueue (queue : string) (content : Buffer)
              (opts : gmap string JS.value)
| Consume (queue : string) (opts : gmap string JS.value)
| Ack (m : message)
| Nack (m : message) (allUpTo requeue : bool).

(** What is observed of the runtime: channel calls and invocations of
    the consumer's handler with its two arguments. *)
Inductive event : Type :=
| Chan (c : call)
| Handler (parsedContent : Payload.value) (msg : message).

(** How the awaited handler settles (a handler whose promise never
    settles leaves the delivery without any answer, and is not
    modelled). *)
Inductive settled : Type :=
| Resolves
| Rejects (e : JS.exn).

(** Whether a channel method raises when called (the broker library
    raises on a closed channel). *)
Record channel_world : Type := {
  assertQueue_raises : option JS.exn;
  ack_raises : option JS.exn;
  nack_raises : option JS.exn;
  sendToQueue_returns : bool
}.

(** What [assertQueue] resolves to: the description of the queue. *)
Definition queue_info : JS.value := JS.Ref 2.

Section WithJSON.
Context `{JSON}.

(** [typeof message === 'string' ? message : JSON.stringify(message)];
    [None] when the result is [undefined]. *)
Definition serialize (message : Payload.value) : option string :=
  match message with
  | Payload.String s => Some s
  | _ => stringify message
  end.

(** [try { parsedContent = JSON.parse(content) }
     catch (err) { parsedContent = content }]. *)
Definition decode (content : string) : Payload.value :=
  match parse content with
  | Some v => v
  | None => Payload.String content
  end.

Definition registerQueue (w : channel_world) (s : BaseService.t)
    (queueName : string) (opts : gmap string JS.value)
  : BaseService.t * list event * JS.outcome JS.exn unit :=
  if negb (JS.truthy (BaseService.channel s))
  then (s, [], JS.Throw (JS.Error "Message broker channel not available"))
  else match assertQueue_raises w with
       | Some e => (s, [], JS.Throw e)
       | None =>
           let merged := opts ∪ {[ "durable" := JS.Bool true ]} in
           (BaseService.set_queue s queueName queue_info,
            [Chan (AssertQueue queueName merged)], JS.Return ())
       end.

(** [if (!this.queues[queueName]) await this.registerQueue(queueName)]. *)
Definition ensure_queue (w : channel_world) (s : BaseService.t)
    (queueName : string)
  : BaseService.t * list event * JS.outcome JS.exn unit :=
  match JS.read_literal (BaseService.queues s) queueName with
  | JS.Missing => registerQueue w s queueName ∅
  | _ => (s, [], JS.Return ())
  end.

Definition publishToQueue (w : channel_world) (s : BaseService.t)
    (queueName : string) (message : Payload.value)
    (opts : gmap string JS.value)
  : BaseService.t * list event * JS.outcome JS.exn bool :=
  if negb (JS.truthy (BaseService.channel s))
  then (s, [], JS.Throw (JS.Error "Message broker channel not available"))
  else
    match ensure_queue w s queueName with
    | (s', evs, JS.Throw e) => (s', evs, JS.Throw e)
    | (s', evs, JS.Return _) =>
        match serialize message with
        | None =>
            (s', evs,
             JS.Throw (JS.TypeError
               "The first argument must be of type string. Received undefined"))
        | Some text =>
            let content := Buffer_from text in
            let merged := opts ∪ {[ "persistent" := JS.Bool true ]} in
            (s', (evs ++ [Chan (SendToQueue queueName content merged)])%list,
             JS.Return (sendToQueue_returns w))
        end
    end.

(** The function [consumeFromQueue] installs as the consumer of the
    queue, run on one delivery ([None] is the [null] the library
    passes when the server cancels the consumer). The outcome is how
    the function itself settles. *)
Definition on_message (w : channel_world)
    (callback : Payload.value → message → settled)
    (msg : option message)
  : list event * JS.outcome JS.exn unit :=
  match msg with
  | None => ([], JS.Return ())
  | Some m =>
      let content := Buffer_toString (content m) in
      let parsedContent := decode content in
      let reject :=
        match nack_raises w with
        | Some e => ([], JS.Throw e)
        | None => ([Chan (Nack m false true)], JS.Return ())
        end in
      match callback parsedContent m with
      | Rejects _ => (Handler parsedContent m :: fst reject, snd reject)
      | Resolves =>
          match ack_raises w with
          | None =>
              ([Handler parsedContent m; Chan (Ack m)], JS.Return ())
          | Some _ =>
              (Handler parsedContent m :: fst reject, snd reject)
          end
      end
  end.

Definition consumeFromQueue (w : channel_world) (s : BaseService.t)
    (queueName : string) (opts : gmap string JS.value)
  : BaseService.t * list event * JS.outcome JS.exn unit :=
  if negb (JS.truthy (BaseService.channel s))
  then (s, [], JS.Throw (JS.Error "Message broker channel not available"))
  else
    match ensure_queue w s queueName with
    | (s', evs, JS.Throw e) => (s', evs, JS.Throw e)
    | (s', evs, JS.Return _) =>
        (s', (evs ++ [Chan (Consume queueName opts)])%list, JS.Return ())
    end.

(** *** The queue on the broker's side

    The broker's part of the protocol, as AMQP defines it: a delivery
    moves the message at the head of the queue to the unacknowledged
    ones; [ack] removes it for good; [nack] with [requeue] puts it
    back at the head, flagged as redelivered; [nack] without drops
    it. *)
Record queue_state : Type := {
  ready : list message;
  unacked : list message
}.

Definition without_tag (tag : nat) (l : list message) : list message :=
  List.filter (λ m, negb (deliveryTag m =? tag)%nat) l.

Definition has_tag (tag : nat) (l : list message) : bool :=
  existsb (λ m, (deliveryTag m =? tag)%nat) l.

Definition settle (q : queue_state) (ev : event) : queue_state :=
  match ev with
  | Chan (Ack m) =>
      {| ready := ready q;
         unacked := without_tag (deliveryTag m) (unacked q) |}
  | Chan (Nack m _ requeue) =>
      if has_tag (deliveryTag m) (unacked q) then
        {| ready :=
             if requeue
             then {| content := content m; deliveryTag := deliveryTag m;
                     redelivered := true |} :: ready q
             else ready q;
           unacked := without_tag (deliveryTag m) (unacked q) |}
      else q
  | _ => q
  end.

(** [n] deliveries in a row to the consumer, each settled before the
    next; stops early once the queue is empty. Returns the queue and
    everything observed. *)
Fixpoint deliveries (n : nat) (w : channel_world)
    (callback : Payload.value → message → settled) (q : queue_state)
  : queue_state * list event :=
  match n with
  | O => (q, [])
  | S n' =>
      match ready q with
      | [] => (q, [])
      | m :: rest =>
          let q1 := {| ready := rest; unacked := m :: unacked q |} in
          let evs := fst (on_message w callback (Some m)) in
          let q2 := fold_left settle evs q1 in
          let '(q3, evs') := deliveries n' w callback q2 in
          (q3, (evs ++ evs')%list)
      end
  end.

End WithJSON.
End Messaging.

(** ** index.js *)

Module Cli.

Definition lower_ascii (c : ascii) : ascii :=
  let n := nat_of_ascii c in
  if ((65 <=? n) && (n <=? 90))%nat then ascii_of_nat (n + 32) else c.

(** [s.toLowerCase()] on ASCII letters. *)
Fixpoint toLowerCase (s : string) : string :=
  match s with
  | EmptyString => EmptyString
  | String.String c s' => String.String (lower_ascii c) (toLowerCase s')
  end.

(** [s.substring(3)]. *)
Definition substring3 (s : string) : string :=
  String.substring 3 (String.length s - 3) s.

(** The three variables the argument loop works on. *)
Record vars : Type := {
  serviceName : JS.value;
  port : JS.value;
  env : string
}.

(** [let serviceName; let port; let env = 'development';] *)
Definition initial : vars :=
  {| serviceName := JS.Undefined; port := JS.Undefined;
     env := "development" |}.

(** The body of [args.forEach(arg => ...)]. *)
Definition scan (v : vars) (arg : string) : vars :=
  if String.prefix "-s=" arg
  then {| serviceName := JS.Str (toLowerCase (substring3 arg));
          port := port v; env := env v |}
  else if String.prefix "-e=" arg
  then {| serviceName := serviceName v; port := port v;
          env := toLowerCase (substring3 arg) |}
  else v.

Definition usage : string :=
  "Invalid arguments. Please provide service name (e.g., -s=api-gateway).".

(** What the script does before [main()] settles: leave with a status
    and a line on the error stream, or call the factory. *)
Inductive launch : Type :=
| Exit (status : Z) (stderr : string)
| CreateService (NODE_ENV : string) (type : JS.value)
                (options : BaseService.options).

(** [args] is [process.argv.slice(2)]. *)
Definition run (args : list string) : launch :=
  if (length args <? 1)%nat then Exit 1 usage
  else
    let v := fold_left scan args initial in
    if negb (JS.truthy (serviceName v)) then Exit 1 usage
    else CreateService (env v) (serviceName v)
           {[ "port" := port v; "env" := JS.Str (env v) ]}.

End Cli.

(** ** A structured encoding to run the helpers on

    The platform's text format for the payloads above: what
    [JSON.stringify] prints for them (no spaces, the fields of an object
    in their order) and a reader of that format. Numbers are the
    integers; an escape [\u] is read only below 128. *)

Module JsonText.

Definition quote : ascii := "034".
Definition backslash : ascii := "\".

Definition hex_digit (n : nat) : ascii :=
  nth n ["0"; "1"; "2"; "3"; "4"; "5"; "6"; "7"; "8"; "9";
         "a"; "b"; "c"; "d"; "e"; "f"]%char "0"%char.

Definition escape_char (c : ascii) : string :=
  if Ascii.eqb c quote then String.String backslash (String.String quote "")
  else if Ascii.eqb c backslash
  then String.String backslash (String.String backslash "")
  else if Ascii.eqb c "008" then "\b"
  else if Ascii.eqb c "009" then "\t"
  else if Ascii.eqb c "010" then "\n"
  else if Ascii.eqb c "012" then "\f"
  else if Ascii.eqb c "013" then "\r"
  else if (nat_of_ascii c <? 32)%nat
  then "\u00" +:+ String.String (hex_digit (nat_of_ascii c / 16))
                   (String.String (hex_digit (nat_of_ascii c mod 16)) "")
  else String.String c "".

Fixpoint escape (s : string) : string :=
  match s with
  | EmptyString => ""
  | String.String c s' => escape_char c +:+ escape s'
  end.

Definition print_string (s : string) : string :=
  String.String quote (escape s +:+ String.String quote "").

Fixpoint join (sep : string) (l : list string) : string :=
  match l with
  | [] => ""
  | [x] => x
  | x :: l' => x +:+ sep +:+ join sep l'
  end.

Definition is_defined (v : Payload.value) : bool :=
  match v with
  | Payload.Undefined => false
  | _ => true
  end.

(** The fields of an object, each printed with [pr], those that are
    [undefined] left out. *)
Definition members_with (pr : Payload.value → string)
  : list (string * Payload.value) → list string :=
  fix members l :=
    match l with
    | [] => []
    | (k, x) :: l' =>
        if is_defined x
        then (print_string k +:+ ":" +:+ pr x) :: members l'
        else members l'
    end.

(** The text of a value inside an array or an object ([undefined] in an
    array is printed [null]). *)
Fixpoint print_value (v : Payload.value) : string :=
  match v with
  | Payload.Undefined | Payload.Null => "null"
  | Payload.Bool true => "true"
  | Payload.Bool false => "false"
  | Payload.Number n => pretty n
  | Payload.String s => print_string s
  | Payload.Array items => "[" +:+ join "," (map print_value items) +:+ "]"
  | Payload.Object fields =>
      "{" +:+ join "," (members_with print_value fields) +:+ "}"
  end.

(** No [undefined] in the value, at any depth. *)
Fixpoint defined_throughout (v : Payload.value) : bool :=
  match v with
  | Payload.Undefined => false
  | Payload.Array items => forallb defined_throughout items
  | Payload.Object fields =>
      forallb (λ kv, let '(_, x) := kv in defined_throughout x) fields
  | _ => true
  end.

(** What can follow a value in a text: nothing, or the separator or the
    closing bracket of what the value is in. *)
Definition stops (rest : string) : bool :=
  match rest with
  | EmptyString => true
  | String.String c _ =>
      Ascii.eqb c "," || Ascii.eqb c "]" || Ascii.eqb c "}"
  end.

Definition print (v : Payload.value) : option string :=
  if is_defined v then Some (print_value v) else None.

Definition is_space (c : ascii) : bool :=
  Ascii.eqb c " " || Ascii.eqb c "009" || Ascii.eqb c "010"
  || Ascii.eqb c "013".

Fixpoint skip_space (s : string) : string :=
  match s with
  | String.String c s' => if is_space c then skip_space s' else s
  | EmptyString => ""
  end.

Definition digit_value (c : ascii) : option Z :=
  let n := nat_of_ascii c in
  if ((48 <=? n) && (n <=? 57))%nat then Some (Z.of_nat (n - 48)) else None.

Definition hex_value (c : ascii) : option nat :=
  let n := nat_of_ascii c in
  if ((48 <=? n) && (n <=? 57))%nat then Some (n - 48)%nat
  else if ((97 <=? n) && (n <=? 102))%nat then Some (n - 87)%nat
  else if ((65 <=? n) && (n <=? 70))%nat then Some (n - 55)%nat
  else None.

(** The digits at the head of [s], read in base ten after [acc]. *)
Fixpoint read_digits (s : string) (acc : Z) (seen : nat)
  : Z * nat * string :=
  match s with
  | String.String c s' =>
      match digit_value c with
      | Some d => read_digits s' (10 * acc + d) (S seen)
      | None => (acc, seen, s)
      end
  | EmptyString => (acc, seen, "")
  end.

(** An integer: an optional sign, digits without a leading zero, and no
    fraction or exponent after them. *)
Definition read_number (s : string) : option (Z * string) :=
  let '(neg, body) :=
    match s with
    | String.String "-" s' => (true, s')
    | _ => (false, s)
    end in
  let '(n, seen, rest) := read_digits body 0 0 in
  let leading_zero :=
    match body with
    | String.String "0" _ => (1 <? seen)%nat
    | _ => false
    end in
  let continues :=
    match rest with
    | String.String c _ =>
        Ascii.eqb c "." || Ascii.eqb c "e" || Ascii.eqb c "E"
    | EmptyString => false
    end in
  if (seen =? 0)%nat || leading_zero || continues then None
  else Some (if neg then - n else n, rest).

Definition unescape (c : ascii) : option ascii :=
  if Ascii.eqb c quote then Some quote
  else if Ascii.eqb c backslash then Some backslash
  else if Ascii.eqb c "/" then Some "/"%char
  else if Ascii.eqb c "b" then Some "008"%char
  else if Ascii.eqb c "t" then Some "009"%char
  else if Ascii.eqb c "n" then Some "010"%char
  else if Ascii.eqb c "f" then Some "012"%char
  else if Ascii.eqb c "r" then Some "013"%char
  else None.

(** The characters of a string up to its closing quote; [acc] holds the
    ones read so far, last first. *)
Fixpoint read_chars (s : string) (acc : string) : option (string * string) :=
  match s with
  | EmptyString => None
  | String.String c s' =>
      if Ascii.eqb c quote then Some (String.rev acc, s')
      else if Ascii.eqb c backslash then
        match s' with
        | String.String "u"
            (String.String h1 (String.String h2
               (String.String h3 (String.String h4 s'')))) =>
            match hex_value h1, hex_value h2, hex_value h3, hex_value h4 with
            | Some 0%nat, Some 0%nat, Some a, Some b =>
                if (a <? 8)%nat
                then read_chars s''
                       (String.String (ascii_of_nat (16 * a + b)) acc)
                else None
            | _, _, _, _ => None
            end
        | String.String e s'' =>
            match unescape e with
            | Some c' => read_chars s'' (String.String c' acc)
            | None => None
            end
        | EmptyString => None
        end
      else if (nat_of_ascii c <? 32)%nat then None
      else read_chars s' (String.String c acc)
  end.

(** What the reader is in the middle of. *)
Inductive mode : Type :=
| AValue
| Items (acc : list Payload.value)
| Fields (acc : list (string * Payload.value)).

Fixpoint read (fuel : nat) (m : mode) (s : string)
  : option (Payload.value * string) :=
  match fuel with
  | O => None
  | S fuel' =>
      match m, skip_space s with
      | AValue, String.String "n" (String.String "u"
                  (String.String "l" (String.String "l" rest))) =>
          Some (Payload.Null, rest)
      | AValue, String.String "t" (String.String "r"
                  (String.String "u" (String.String "e" rest))) =>
          Some (Payload.Bool true, rest)
      | AValue, String.String "f" (String.String "a"
                  (String.String "l" (String.String "s"
                     (String.String "e" rest)))) =>
          Some (Payload.Bool false, rest)
      | AValue, String.String "[" rest =>
          match skip_space rest with
          | String.String "]" rest' => Some (Payload.Array [], rest')
          | _ => read fuel' (Items []) rest
          end
      | AValue, String.String "{" rest =>
          match skip_space rest with
          | String.String "}" rest' => Some (Payload.Object [], rest')
          | _ => read fuel' (Fields []) rest
          end
      | AValue, String.String c rest =>
          if Ascii.eqb c quote then
            match read_chars rest "" with
            | Some (str, rest') => Some (Payload.String str, rest')
            | None => None
            end
          else
            match read_number (String.String c rest) with
            | Some (n, rest') => Some (Payload.Number n, rest')
            | None => None
            end
      | AValue, EmptyString => None
      | Items acc, text =>
          match read fuel' AValue text with
          | Some (v, rest) =>
              match skip_space rest with
              | String.String "," rest' => read fuel' (Items (v :: acc)) rest'
              | String.String "]" rest' =>
                  Some (Payload.Array (rev (v :: acc)), rest')
              | _ => None
              end
          | None => None
          end
      | Fields acc, String.String c rest =>
          if Ascii.eqb c quote then
            match read_chars rest "" with
            | Some (k, rest1) =>
                match skip_space rest1 with
                | String.String ":" rest2 =>
                    match read fuel' AValue rest2 with
                    | Some (v, rest3) =>
                        match skip_space rest3 with
                        | String.String "," rest4 =>
                            read fuel' (Fields ((k, v) :: acc)) rest4
                        | String.String "}" rest4 =>
                            Some (Payload.Object (rev ((k, v) :: acc)), rest4)
                        | _ => None
                        end
                    | None => None
                    end
                | _ => None
                end
            | None => None
            end
          else None
      | Fields _, EmptyString => None
      end
  end.

Definition read_text (s : string) : option Payload.value :=
  match read (2 * String.length s + 2) AValue s with
  | Some (v, rest) =>
      match skip_space rest with
      | EmptyString => Some v
      | _ => None
      end
  | None => None
  end.

(** The characters a printed value can start with. *)
Definition value_heads : list ascii :=
  [ "n"; "t"; "f"; quote; "["; "{"; "-";
    "0"; "1"; "2"; "3"; "4"; "5"; "6"; "7"; "8"; "9" ]%char.


(** The text of one field of an object. *)
Definition field_text (kv : string * Payload.value) : string :=
  print_string (fst kv) +:+ ":" +:+ print_value (snd kv).


Definition codec : JSON := {| stringify := print; parse := read_text |}.

(** What reading a printed value gives, for the fuel its text needs. *)
Definition reads_back (v : Payload.value) : Prop :=
  defined_throughout v = true →
  ∀ fuel rest,
    (String.length (print_value v) ≤ fuel)%nat → stops rest = true →
    read fuel AValue (print_value v +:+ rest) = Some (v, rest).

End JsonText.

(** ** Notions used to state the properties *)

Module Props.
Import Registry.

(** Every property of the table is an entry stored under its own key,
    and no key occurs twice. Holds of the registry the constructor
    returns and is kept by every operation. *)
Definition inv (r : ServiceRegistry) : Prop :=
  Obj.wf (services r) ∧ Forall (λ kv, key (snd kv) = fst kv) (services r).

(** A run of [register] calls for one (name, host, port), each at its
    own time and with its own metadata. *)
Definition register_seq (name host port : JS.value)
    (calls : list (Z * gmap string JS.value)) (r : ServiceRegistry)
  : ServiceRegistry :=
  fold_left (λ r c, fst (register r (fst c) name host port (snd c)))
            calls r.

(** The registry after each of two registrations in a row. *)
Definition after_two (r : ServiceRegistry)
    (t1 : Z) (n1 h1 p1 : JS.value) (t2 : Z) (n2 h2 p2 : JS.value)
  : ServiceRegistry * ServiceRegistry :=
  let r1 := fst (register r t1 n1 h1 p1 ∅) in
  (r1, fst (register r1 t2 n2 h2 p2 ∅)).

(** The number of stored entries under a key. *)
Definition stored_under (k : string) (r : ServiceRegistry) : nat :=
  length (List.filter (String.eqb k) (Obj.keys (services r))).

(** A string without the separator of the registry's keys. *)
Fixpoint colon_free (s : string) : bool :=
  match s with
  | EmptyString => true
  | String.String c s' => negb (Ascii.eqb c ":") && colon_free s'
  end.

(** The entries the sweep removes, and the ones it keeps. *)
Definition expired (r : ServiceRegistry) (now : Z) (e : ServiceEntry)
  : Prop := now - timestamp e > timeout r.

#[global] Instance expired_dec r now e : Decision (expired r now e).
Proof. unfold expired. apply _. Defined.

End Props.

Module MessagingProps.
Import Messaging.

(** A message as the broker hands it out again after a requeue. *)
Definition requeued (m : message) : message :=
  {| content := content m; deliveryTag := deliveryTag m;
     redelivered := true |}.

Definition is_ack (ev : event) : bool :=
  match ev with
  | Chan (Ack _) => true
  | _ => false
  end.

Section WithJSON.
Context `{JSON}.

(** A value that the structured encoding gives back: it has an
    encoding, and decoding that yields the value. *)
Definition representable (m : Payload.value) : Prop :=
  ∃ text, stringify m = Some text ∧ parse text = Some m.

(** What is observed of one delivery to a handler that fails. *)
Definition failed_attempt (m : message) : list event :=
  [Handler (decode (Buffer_toString (content m))) m;
   Chan (Nack m false true)].
End WithJSON.

(** A request as the services exchange them. *)
Definition sample_request : Payload.value :=
  Payload.Object [("correlationId", Payload.String "c-42");
                  ("action", Payload.String "generate")].

End MessagingProps.

(** ** services/ServiceFactory.js: looking an instance up *)

Module FactoryQueries.
Import Factory.

(** What [getService] returns: an instance, [null], or, for a name every
    object inherits, the inherited value (a function or an object, truthy,
    so [|| null] lets it through). *)
Inductive looked_up : Type :=
| Instance (s : BaseService.t)
| InheritedValue
| NoService.

(** [return this.services[serviceId] || null]; an instance is an object,
    hence truthy. *)
Definition getService (f : ServiceFactory) (serviceId : string)
  : looked_up :=
  match JS.read_literal (services f) serviceId with
  | JS.Own s => Instance s
  | JS.Inherited => InheritedValue
  | JS.Missing => NoService
  end.

(** The id [createService] stores an instance under:
    [`${type}-${Date.now()}`]. *)
Definition serviceId (w : world) (type : string) : string :=
  type +:+ "-" +:+ pretty (now w).

End FactoryQueries.

(** ** Runs of registry calls *)

Module RegistryOps.
Import Registry.

(** One call on the registry: [register], [unregister], or one run of the
    timer callback at a given time. *)
Inductive op : Type :=
| Register (now : Z) (name host port : JS.value)
           (metadata : gmap string JS.value)
| Unregister (name host port : JS.value)
| Sweep (now : Z).

(** The registry after the call; a [register] that throws leaves it as it
    was. *)
Definition apply (r : ServiceRegistry) (o : op) : ServiceRegistry :=
  match o with
  | Register now n h p md => fst (register r now n h p md)
  | Unregister n h p => fst (unregister r n h p)
  | Sweep now => fst (cleanup r now)
  end.

Definition run (ops : list op) (r : ServiceRegistry) : ServiceRegistry :=
  fold_left apply ops r.

(** An entry as [register] builds it, stored under the key of its own
    name, host and port. *)
Definition entry_ok (kv : string * ServiceEntry) : Prop :=
  let e := snd kv in
  fst kv = key e
  ∧ key e = _generateKey (name e) (host e) (port e)
  ∧ url e = "http://" +:+ JS.to_string (host e) +:+ ":"
              +:+ JS.to_string (port e)
  ∧ JS.truthy (name e) = true ∧ JS.truthy (host e) = true
  ∧ JS.truthy (port e) = true.

Definition consistent (r : ServiceRegistry) : Prop :=
  Obj.wf (services r) ∧ Forall entry_ok (services r).

End RegistryOps.

(** ** What the argument loop of index.js amounts to *)

Module CliProps.

(** The rest of the last argument that starts with [flag], if any. *)
Definition last_flag (flag : string) (args : list string)
  : option string :=
  match List.filter (String.prefix flag) (rev args) with
  | [] => None
  | arg :: _ => Some (Cli.substring3 arg)
  end.

End CliProps.

(** ** services/BaseService.js: start, stop and the registry *)

(** A comparison with a number converts the other operand with the
    platform's [ToNumber]; what that gives for a string and for an
    object is left to the platform. *)
Class ToNumber : Type := {
  string_gt_zero : string → bool;
  object_gt_zero : nat → bool
}.

Module Lifecycle.
Import BaseService.

Definition set_registryInfo (s : t) (info : option Registry.ServiceEntry)
  : t :=
  {| name := name s; port := port s; connection := connection s;
     channel := channel s; configPath := configPath s; env := env s;
     registry := registry s; registryInfo := info;
     isRunning := isRunning s; queues := queues s;
     exchanges := exchanges s |}.

Definition set_isRunning (s : t) (running : bool) : t :=
  {| name := name s; port := port s; connection := connection s;
     channel := channel s; configPath := configPath s; env := env s;
     registry := registry s; registryInfo := registryInfo s;
     isRunning := running; queues := queues s;
     exchanges := exchanges s |}.

(** [v > 0]: [undefined] converts to NaN, [null] to 0, a boolean to 0
    or 1. *)
Definition gt_zero `{ToNumber} (v : JS.value) : bool :=
  match v with
  | JS.Undefined | JS.Null => false
  | JS.Bool b => b
  | JS.Num n => 0 <? n
  | JS.Str s => string_gt_zero s
  | JS.Ref r => object_gt_zero r
  end.

(** [registerWithRegistry(metadata)]. [reg] is the registry object that
    [this.registry] refers to when it is set, [SERVICE_HOST] the variable
    of the environment, [now] the clock at the call of [register]. The
    entry kept in [registryInfo] is the object the registry stores; of
    its fields only the time stamp is ever written again. *)
Definition registerWithRegistry (SERVICE_HOST : JS.value) (now : Z)
    (reg : Registry.ServiceRegistry) (s : t)
    (metadata : gmap string JS.value)
  : Registry.ServiceRegistry * t
    * JS.outcome JS.exn (option Registry.ServiceEntry) :=
  if negb (JS.truthy (registry s)) then (reg, s, JS.Return None)
  else
    let hostname := JS.or SERVICE_HOST (JS.Str "localhost") in
    match Registry.register reg now (name s) hostname (port s)
            (spread_over {[ "env" := env s ]} metadata) with
    | (reg', JS.Return info) =>
        (reg', set_registryInfo s (Some info), JS.Return (Some info))
    | (reg', JS.Throw error) => (reg', s, JS.Throw error)
    end.

(** [unregisterFromRegistry()]. *)
Definition unregisterFromRegistry (reg : Registry.ServiceRegistry) (s : t)
  : Registry.ServiceRegistry * t * bool :=
  if negb (JS.truthy (registry s)) then (reg, s, false)
  else
    match registryInfo s with
    | None => (reg, s, false)
    | Some info =>
        let '(reg', result) :=
          Registry.unregister reg (Registry.name info) (Registry.host info)
                              (Registry.port info) in
        (reg', if result then set_registryInfo s None else s, result)
    end.

(** [start()]. [_initializeBroker] only writes to the log, and
    [_registerProcessEvents] installs the handlers of the process
    signals, which are not part of the instance. *)
Definition start `{ToNumber} (SERVICE_HOST : JS.value) (now : Z)
    (reg : Registry.ServiceRegistry) (s : t)
  : Registry.ServiceRegistry * t * JS.outcome JS.exn unit :=
  if isRunning s then (reg, s, JS.Return ())
  else
    let '(reg1, s1, registered) :=
      if JS.truthy (registry s) && gt_zero (port s)
      then registerWithRegistry SERVICE_HOST now reg s ∅
      else (reg, s, JS.Return None) in
    match registered with
    | JS.Throw error => (reg1, s1, JS.Throw error)
    | JS.Return _ => (reg1, set_isRunning s1 true, JS.Return ())
    end.

(** [stop()]; nothing it calls can throw ([_cleanup] only writes to the
    log). *)
Definition stop (reg : Registry.ServiceRegistry) (s : t)
  : Registry.ServiceRegistry * t :=
  if negb (isRunning s) then (reg, s)
  else
    let '(reg1, s1) :=
      if JS.truthy (registry s) && bool_decide (is_Some (registryInfo s))
      then let '(reg1, s1, _) := unregisterFromRegistry reg s in (reg1, s1)
      else (reg, s) in
    (reg1, set_isRunning s1 false).

End Lifecycle.

(** ** Operations of the language on a parsed payload *)

Module PayloadValue.

(** [ToBoolean]. *)
Definition truthy (v : Payload.value) : bool :=
  match v with
  | Payload.Undefined | Payload.Null => false
  | Payload.Bool b => b
  | Payload.Number n => negb (n =? 0)
  | Payload.String s => negb (String.eqb s "")
  | Payload.Array _ | Payload.Object _ => true
  end.

(** The value of an own property of a parsed object; of several members
    of one name the parser keeps the last. *)
Definition get_field (fields : list (string * Payload.value)) (k : string)
  : Payload.value :=
  match List.find (λ kv, String.eqb (fst kv) k) (rev fields) with
  | Some kv => snd kv
  | None => Payload.Undefined
  end.

(** [null] and [undefined] have no properties: reading one throws a
    [TypeError]. *)
Definition nullish (v : Payload.value) : bool :=
  match v with
  | Payload.Undefined | Payload.Null => true
  | _ => false
  end.

(** [v.k] on a value that is not nullish, for a name [k] that no
    prototype defines (the code reads [action], [correlationId],
    [identifier] and [otp]). *)
Definition read (v : Payload.value) (k : string) : Payload.value :=
  match v with
  | Payload.Object fields => get_field fields k
  | _ => Payload.Undefined
  end.

(** The message of that [TypeError]. *)
Definition cannot_read (v : Payload.value) (k : string) : JS.exn :=
  JS.TypeError
    ("Cannot read properties of "
     +:+ match v with Payload.Null => "null" | _ => "undefined" end
     +:+ " (reading '" +:+ k +:+ "')").

(** [ToString], as a template literal applies it. An array is its
    elements joined by commas, [null] and [undefined] among them giving
    the empty string. A parsed object is ["[object Object]"], unless it
    has a member named [toString]: that member is not a function, the
    inherited [valueOf] returns the object, and the conversion throws a
    [TypeError] ([None]). *)
Fixpoint to_string (v : Payload.value) : option string :=
  match v with
  | Payload.Undefined => Some "undefined"
  | Payload.Null => Some "null"
  | Payload.Bool true => Some "true"
  | Payload.Bool false => Some "false"
  | Payload.Number n => Some (pretty n)
  | Payload.String s => Some s
  | Payload.Array items =>
      (fix join (l : list Payload.value) : option string :=
         match l with
         | [] => Some ""
         | x :: l' =>
             let element :=
               match x with
               | Payload.Undefined | Payload.Null => Some ""
               | _ => to_string x
               end in
             match l' with
             | [] => element
             | _ :: _ =>
                 match element, join l' with
                 | Some a, Some b => Some (a +:+ "," +:+ b)
                 | _, _ => None
                 end
             end
         end) items
  | Payload.Object fields =>
      if existsb (λ kv, String.eqb (fst kv) "toString") fields then None
      else Some "[object Object]"
  end.

Definition not_primitive : JS.exn :=
  JS.TypeError "Cannot convert object to primitive value".

(** [error.message]. *)
Definition message_of (e : JS.exn) : string :=
  match e with
  | JS.Error msg | JS.TypeError msg => msg
  end.

End PayloadValue.

(** ** services/api/index.js and services/otp/index.js

    The two classes extend the base service with an HTTP server; the
    text of their [start] and [stop] is the same but for the log
    lines. *)

Module HttpService.
Import Messaging.

Record t : Type := {
  base : BaseService.t;
  app : JS.value;
  server : JS.value
}.

Definition with_base (s : t) (b : BaseService.t) : t :=
  {| base := b; app := app s; server := server s |}.

(** What a call is seen to do besides changing the instance. *)
Inductive effect : Type :=
| Listen (port : JS.value)
| CloseServer
| Broker (ev : event).

(** What the HTTP library does: [application.listen(port, callback)]
    returns a server or throws; [server.close(callback)] calls back with
    an error or without. *)
Record http_world : Type := {
  listen_result : JS.outcome JS.exn JS.value;
  close_error : option JS.exn
}.

(** [this.app.listen(this.port, ...)]: [Ref] is an application made by
    [express()]; any other value has no method [listen]. *)
Definition listen (hw : http_world) (app : JS.value)
  : JS.outcome JS.exn JS.value :=
  match app with
  | JS.Undefined =>
      JS.Throw (JS.TypeError
                  "Cannot read properties of undefined (reading 'listen')")
  | JS.Null =>
      JS.Throw (JS.TypeError
                  "Cannot read properties of null (reading 'listen')")
  | JS.Ref _ => listen_result hw
  | _ => JS.Throw (JS.TypeError "this.app.listen is not a function")
  end.

Section Start.
Context `{ToNumber}.

(** [start()] of a class whose [_setupQueues] is [setup]. *)
Definition start
    (setup : BaseService.t
             → BaseService.t * list event * JS.outcome JS.exn unit)
    (SERVICE_HOST : JS.value) (now : Z) (hw : http_world)
    (reg : Registry.ServiceRegistry) (s : t)
  : Registry.ServiceRegistry * t * list effect * JS.outcome JS.exn unit :=
  match Lifecycle.start SERVICE_HOST now reg (base s) with
  | (reg1, b1, JS.Throw error) => (reg1, with_base s b1, [], JS.Throw error)
  | (reg1, b1, JS.Return _) =>
      match listen hw (app s) with
      | JS.Throw error => (reg1, with_base s b1, [], JS.Throw error)
      | JS.Return srv =>
          if JS.truthy (BaseService.connection b1)
             && JS.truthy (BaseService.channel b1)
          then
            let '(b2, evs, out) := setup b1 in
            (reg1, {| base := b2; app := app s; server := srv |},
             Listen (BaseService.port b1) :: map Broker evs, out)
          else
            (reg1, {| base := b1; app := app s; server := srv |},
             [Listen (BaseService.port b1)], JS.Return ())
      end
  end.
End Start.

(** [stop()]. *)
Definition stop (hw : http_world) (reg : Registry.ServiceRegistry) (s : t)
  : Registry.ServiceRegistry * t * list effect * JS.outcome JS.exn unit :=
  let stop_base (closing : list effect) :=
    let '(reg1, b1) := Lifecycle.stop reg (base s) in
    (reg1, with_base s b1, closing, JS.Return ()) in
  if JS.truthy (server s) then
    match close_error hw with
    | Some err => (reg, s, [CloseServer], JS.Throw err)
    | None => stop_base [CloseServer]
    end
  else stop_base [].

(** The shape both [_setupQueues] have: the two queues are registered,
    then one of them is consumed. *)
Definition setup_queues (cw : channel_world) (requests responses : string)
    (consumed : string) (s : BaseService.t)
  : BaseService.t * list event * JS.outcome JS.exn unit :=
  match registerQueue cw s requests ∅ with
  | (s1, evs1, JS.Throw error) => (s1, evs1, JS.Throw error)
  | (s1, evs1, JS.Return _) =>
      match registerQueue cw s1 responses ∅ with
      | (s2, evs2, JS.Throw error) =>
          (s2, (evs1 ++ evs2)%list, JS.Throw error)
      | (s2, evs2, JS.Return _) =>
          let '(s3, evs3, out) := consumeFromQueue cw s2 consumed ∅ in
          (s3, (evs1 ++ evs2 ++ evs3)%list, out)
      end
  end.

End HttpService.

Module APIService.
Import Messaging HttpService.

(** [express()]. *)
Definition application : JS.value := JS.Ref 3.

(** The constructor: the base constructor, then [this.app = express()];
    [this.server] is not set before [start]. [_initializeExpress] then
    installs the middleware and the routes on the application, which
    leaves the fields below as they are. *)
Definition constructor (o : BaseService.options) : HttpService.t :=
  {| base := ServiceClass.construct ServiceClass.api_config o;
     app := application; server := JS.Undefined |}.

(** [_setupQueues()]: consumes the responses, with a handler that only
    writes to the log. *)
Definition _setupQueues (cw : channel_world) (s : BaseService.t)
  : BaseService.t * list event * JS.outcome JS.exn unit :=
  setup_queues cw "api.requests" "api.responses" "api.responses" s.

Definition start `{ToNumber} (SERVICE_HOST : JS.value) (now : Z)
    (hw : http_world) (cw : channel_world) :=
  HttpService.start (_setupQueues cw) SERVICE_HOST now hw.

End APIService.

Module OTPService.
Import Messaging HttpService PayloadValue.

(** The constructor: the base constructor, then [this.config = config].
    Neither [this.app] nor [this.server] is set. *)
Definition constructor (o : BaseService.options) : HttpService.t :=
  {| base := ServiceClass.construct ServiceClass.otp_config o;
     app := JS.Undefined; server := JS.Undefined |}.

(** [_setupQueues()]: consumes the requests. *)
Definition _setupQueues (cw : channel_world) (s : BaseService.t)
  : BaseService.t * list event * JS.outcome JS.exn unit :=
  setup_queues cw "otp.requests" "otp.responses" "otp.requests" s.

Definition start `{ToNumber} (SERVICE_HOST : JS.value) (now : Z)
    (hw : http_world) (cw : channel_world) :=
  HttpService.start (_setupQueues cw) SERVICE_HOST now hw.

Section Handler.
Context `{JSON}.

(** [message.action === 'generate' || message.action === 'verify']. *)
Definition known_action (action : Payload.value) : bool :=
  match action with
  | Payload.String a => String.eqb a "generate" || String.eqb a "verify"
  | _ => false
  end.

(** The object published for a request that was processed. *)
Definition processed (correlationId action : Payload.value) (a : string)
  : Payload.value :=
  Payload.Object
    [("correlationId", correlationId); ("success", Payload.Bool true);
     ("action", action); ("result", Payload.String (a +:+ " processed"))].

(** The object published for a request that failed. *)
Definition failed (correlationId : Payload.value) (error : JS.exn)
  : Payload.value :=
  Payload.Object
    [("correlationId", correlationId); ("success", Payload.Bool false);
     ("error", Payload.String (message_of error))].

(** The [try] block of the handler. *)
Definition process (cw : channel_world) (s : BaseService.t)
    (message : Payload.value)
  : BaseService.t * list event * JS.outcome JS.exn unit :=
  if nullish message
  then (s, [], JS.Throw (cannot_read message "action"))
  else
    let action := read message "action" in
    if known_action action then
      match to_string action with
      | Some a =>
          let '(s1, evs, out) :=
            publishToQueue cw s "otp.responses"
              (processed (read message "correlationId") action a) ∅ in
          (s1, evs, match out with
                    | JS.Return _ => JS.Return ()
                    | JS.Throw error => JS.Throw error
                    end)
      | None => (s, [], JS.Throw not_primitive)
      end
    else
      match to_string action with
      | Some a => (s, [], JS.Throw (JS.Error ("Unknown action: " +:+ a)))
      | None => (s, [], JS.Throw not_primitive)
      end.

(** The handler [_setupQueues] installs on the requests: the [try]
    block, and on an exception the [catch] block, which publishes the
    failure; an exception of the [catch] block itself rejects the
    handler. *)
Definition on_request (cw : channel_world) (s : BaseService.t)
    (message : Payload.value)
  : BaseService.t * list event * settled :=
  match process cw s message with
  | (s1, evs1, JS.Return _) => (s1, evs1, Resolves)
  | (s1, evs1, JS.Throw error) =>
      if nullish message
      then (s1, evs1, Rejects (cannot_read message "correlationId"))
      else
        let '(s2, evs2, out) :=
          publishToQueue cw s1 "otp.responses"
            (failed (read message "correlationId") error) ∅ in
        (s2, (evs1 ++ evs2)%list,
         match out with
         | JS.Return _ => Resolves
         | JS.Throw error' => Rejects error'
         end)
  end.

End Handler.
End OTPService.

(** ** utils/response.js

    The helpers that answer with a body; [noContent], [stream], [file],
    [redirect] and [custom] hand their arguments to the HTTP library
    unchanged and are left out. *)

Module Response.

(** [this.res.status(statusCode).json(body)]. *)
Record reply : Type := {
  statusCode : Z;
  body : Payload.value
}.

(** The constants of [http-status-codes] that are used. *)
Definition OK : Z := 200.
Definition CREATED : Z := 201.
Definition BAD_REQUEST : Z := 400.
Definition UNAUTHORIZED : Z := 401.
Definition FORBIDDEN : Z := 403.
Definition NOT_FOUND : Z := 404.
Definition CONFLICT : Z := 409.
Definition TOO_MANY_REQUESTS : Z := 429.
Definition INTERNAL_SERVER_ERROR : Z := 500.

(** A parameter with a default: the default stands in for [undefined]
    only. *)
Definition defaulting (v d : Payload.value) : Payload.value :=
  match v with
  | Payload.Undefined => d
  | _ => v
  end.

(** [send(data, message, statusCode)]; every caller here passes the
    status. *)
Definition send (data message : Payload.value) (statusCode : Z) : reply :=
  {| statusCode := statusCode;
     body := Payload.Object
               [("success", Payload.Bool true);
                ("message", defaulting message (Payload.String "Success"));
                ("data", defaulting data Payload.Null)] |}.

Definition success (data message : Payload.value) : reply :=
  send (defaulting data Payload.Null)
       (defaulting message (Payload.String "Success")) OK.

Definition created (data message : Payload.value) : reply :=
  send (defaulting data Payload.Null)
       (defaulting message (Payload.String "Created successfully")) CREATED.

Definition updated (data message : Payload.value) : reply :=
  send (defaulting data Payload.Null)
       (defaulting message (Payload.String "Updated successfully")) OK.

Definition deleted (message : Payload.value) : reply :=
  send Payload.Null
       (defaulting message (Payload.String "Deleted successfully")) OK.

(** [error(message, statusCode, errors)]: the [errors] are added to the
    body only when they are truthy. *)
Definition error (message : Payload.value) (statusCode : Z)
    (errors : Payload.value) : reply :=
  let errors := defaulting errors Payload.Null in
  let response :=
    [("success", Payload.Bool false);
     ("message", defaulting message (Payload.String "Error"))] in
  {| statusCode := statusCode;
     body := Payload.Object
               (if PayloadValue.truthy errors
                then (response ++ [("errors", errors)])%list
                else response) |}.

Definition badRequest (message errors : Payload.value) : reply :=
  error (defaulting message (Payload.String "Bad request")) BAD_REQUEST
        (defaulting errors Payload.Null).

Definition unauthorized (message errors : Payload.value) : reply :=
  error (defaulting message (Payload.String "Unauthorized")) UNAUTHORIZED
        (defaulting errors Payload.Null).

Definition forbidden (message errors : Payload.value) : reply :=
  error (defaulting message (Payload.String "Forbidden")) FORBIDDEN
        (defaulting errors Payload.Null).

Definition notFound (message errors : Payload.value) : reply :=
  error (defaulting message (Payload.String "Resource not found"))
        NOT_FOUND (defaulting errors Payload.Null).

Definition conflict (message errors : Payload.value) : reply :=
  error (defaulting message (Payload.String "Conflict")) CONFLICT
        (defaulting errors Payload.Null).

Definition tooMany (message errors : Payload.value) : reply :=
  error (defaulting message (Payload.String "Too many requests"))
        TOO_MANY_REQUESTS (defaulting errors Payload.Null).

Definition internalError (message errors : Payload.value) : reply :=
  error (defaulting message (Payload.String "Internal server error"))
        INTERNAL_SERVER_ERROR (defaulting errors Payload.Null).

End Response.

(** ** The OTP controller

    [otpStore] is a [Map] from identifiers to records; the identifier of
    a request is whatever value its body carries. *)

(** [date.setMinutes(date.getMinutes() + minutes)] works on the local
    clock; the time value it leaves is the platform's. *)
Class LocalClock : Type := {
  minutes_later : Z → Z → Z
}.

Module OtpController.
Import PayloadValue.

Record otpData : Type := {
  otp : string;
  expiryTime : Z;
  attempts : Z
}.

(** Whether two keys of the [Map] are the same key. Primitive values are
    compared by value; an array or an object is a key of its own, and
    the one a later request carries is another object. *)
Definition same_key (a b : Payload.value) : bool :=
  match a, b with
  | Payload.Undefined, Payload.Undefined => true
  | Payload.Null, Payload.Null => true
  | Payload.Bool x, Payload.Bool y => Bool.eqb x y
  | Payload.Number x, Payload.Number y => x =? y
  | Payload.String x, Payload.String y => String.eqb x y
  | _, _ => false
  end.

(** The [Map], its entries in the order they were added. *)
Definition store : Type := list (Payload.value * otpData).

Definition get (st : store) (k : Payload.value) : option otpData :=
  match List.find (λ kv, same_key (fst kv) k) st with
  | Some kv => Some (snd kv)
  | None => None
  end.

Fixpoint set (st : store) (k : Payload.value) (d : otpData) : store :=
  match st with
  | [] => [(k, d)]
  | (k', d') :: st' =>
      if same_key k' k then (k', d) :: st' else (k', d') :: set st' k d
  end.

(** [otpStore.delete(k)]: a [Map] holds a key once. *)
Definition delete (st : store) (k : Payload.value) : store :=
  List.filter (λ kv, negb (same_key (fst kv) k)) st.

(** [config]: six digits, ten minutes, numeric. *)
Definition length : Z := 6.
Definition expiryMinutes : Z := 10.

(** [Math.floor(Math.pow(10, length - 1)
               + Math.random() * 9 * Math.pow(10, length - 1)).toString()]
    for a draw [random] of [Math.random()]; [config.type] is
    ['numeric'], so the other branch is never taken. *)
Definition numeric_otp (random : Q) : string :=
  pretty (Qfloor (inject_Z (10 ^ (length - 1))
                  + random * inject_Z 9 * inject_Z (10 ^ (length - 1)))%Q).

(** [otpData.otp === otp]: the stored code is a string. *)
Definition matches (stored : string) (given : Payload.value) : bool :=
  match given with
  | Payload.String g => String.eqb stored g
  | _ => false
  end.

(** A line of the log that interpolates the identifier: the conversion
    to a string can throw, which lands in the [catch] block with
    [thrown]; otherwise the handler goes on with [then_]. *)
Definition logging {A : Type} (identifier : Payload.value)
    (thrown then_ : A) : A :=
  match to_string identifier with
  | Some _ => then_
  | None => thrown
  end.

Section Handlers.
Context `{LocalClock}.

(** [generateOTP(req, res)]; [body] is [req.body]. The [catch] block
    answers with [failure]. *)
Definition generateOTP (body : Payload.value) (random : Q) (now : Z)
    (st : store) : store * Response.reply :=
  let failure :=
    Response.internalError (Payload.String "Failed to generate OTP")
                           Payload.Undefined in
  if nullish body then (st, failure)
  else
    let identifier := read body "identifier" in
    if negb (truthy identifier)
    then (st, Response.badRequest (Payload.String "Missing identifier")
                                  Payload.Undefined)
    else
      let otp := numeric_otp random in
      let expiryTime := minutes_later now expiryMinutes in
      let st' := set st identifier
                     {| otp := otp; expiryTime := expiryTime;
                        attempts := 0 |} in
      logging identifier (st', failure)
        (st',
         Response.success
           (Payload.Object [("expiryMinutes", Payload.Number expiryMinutes)])
           (Payload.String "OTP generated successfully")).

(** [otpData.attempts += 1], on the record the [Map] holds. *)
Definition attempted (d : otpData) : otpData :=
  {| otp := otp d; expiryTime := expiryTime d; attempts := attempts d + 1 |}.

(** [verifyOTP(req, res)]. *)
Definition verifyOTP (body : Payload.value) (now : Z) (st : store)
  : store * Response.reply :=
  let failure :=
    Response.internalError (Payload.String "Failed to verify OTP")
                           Payload.Undefined in
  if nullish body then (st, failure)
  else
    let identifier := read body "identifier" in
    let otp_given := read body "otp" in
    if negb (truthy identifier) || negb (truthy otp_given)
    then (st, Response.badRequest
                (Payload.String "Missing identifier or OTP")
                Payload.Undefined)
    else
      match get st identifier with
      | None =>
          logging identifier (st, failure)
            (st, Response.badRequest
                   (Payload.String "Invalid or expired OTP")
                   Payload.Undefined)
      | Some otpData =>
          if now >? expiryTime otpData then
            logging identifier (st, failure)
              (delete st identifier,
               Response.badRequest (Payload.String "OTP has expired")
                                   Payload.Undefined)
          else
            let otpData := attempted otpData in
            let st1 := set st identifier otpData in
            if matches (otp otpData) otp_given then
              logging identifier (st1, failure)
                (delete st1 identifier,
                 Response.success
                   Payload.Null (Payload.String "OTP verified successfully"))
            else if attempts otpData >=? 3 then
              logging identifier (st1, failure)
                (delete st1 identifier,
                 Response.badRequest
                   (Payload.String "Maximum verification attempts reached")
                   Payload.Undefined)
            else
              logging identifier (st1, failure)
                (st1,
                 Response.badRequest
                   (Payload.String "Invalid OTP")
                   (Payload.Object
                      [("attemptsLeft",
                        Payload.Number (3 - attempts otpData))]))
      end.

End Handlers.
End OtpController.

Module LifecycleProps.

(** A platform on which no string and no object counts as above zero;
    it makes no difference to an instance whose port is a number. *)
Definition numbers_only : ToNumber :=
  {| string_gt_zero := λ _, false; object_gt_zero := λ _, false |}.

(** An instance as the factory configures it for [node index.js -s=api
    -p=3001] would, had the port been read. *)
Definition sample_instance : BaseService.t :=
  BaseService.constructor
    {[ "name" := JS.Str "api"; "port" := JS.Num 3001;
       "registry" := Factory.registry_ref ]}.

End LifecycleProps.

Module ResponseProps.
Import Response.

(** The helpers that answer through [send], and the ones that answer
    through [error], each with the status it answers with. *)
Definition sending
  : list (Z * (Payload.value → Payload.value → reply)) :=
  [(OK, success); (CREATED, created); (OK, updated);
   (OK, λ _ message, deleted message)].

Definition failing
  : list (Z * (Payload.value → Payload.value → reply)) :=
  [(BAD_REQUEST, badRequest); (UNAUTHORIZED, unauthorized);
   (FORBIDDEN, forbidden); (NOT_FOUND, notFound); (CONFLICT, conflict);
   (TOO_MANY_REQUESTS, tooMany);
   (INTERNAL_SERVER_ERROR, internalError)].

End ResponseProps.

Module OtpProps.
Import OtpController.

(** A local clock without daylight saving: ten minutes later is 600000
    milliseconds later. *)
Definition steady : LocalClock :=
  {| minutes_later := λ t m, t + m * 60000 |}.

(** The body of a verification request. *)
Definition request (identifier given : Payload.value) : Payload.value :=
  Payload.Object [("identifier", identifier); ("otp", given)].

(** The answer to a wrong code while attempts are left. *)
Definition invalid (attemptsLeft : Z) : Response.reply :=
  Response.badRequest
    (Payload.String "Invalid OTP")
    (Payload.Object [("attemptsLeft", Payload.Number attemptsLeft)]).

(** A store with one record, as [generateOTP] leaves it. *)
Definition sample_store : store :=
  [(Payload.String "alice",
    {| otp := "493817"; expiryTime := 600000; attempts := 0 |})].

(** The answer to the right code. *)
Definition verified : Response.reply :=
  Response.success Payload.Null
                   (Payload.String "OTP verified successfully").

End OtpProps.

Module RedeliveryProps.
Import Messaging.

(** An invocation of the consumer's handler. *)
Definition is_handler (ev : event) : bool :=
  match ev with
  | Handler _ _ => true
  | Chan _ => false
  end.

End RedeliveryProps.

Module ServiceProps.
Import Messaging.

(** The encoding of the platform gives a text for every object. *)
Definition encodes_objects `{JSON} : Prop :=
  ∀ fields, is_Some (stringify (Payload.Object fields)).

(** A channel on which no call raises. *)
Definition working : channel_world :=
  {| assertQueue_raises := None; ack_raises := None; nack_raises := None;
     sendToQueue_returns := true |}.

(** An HTTP library that listens and closes without error. *)
Definition serving : HttpService.http_world :=
  {| HttpService.listen_result := JS.Return (JS.Ref 4);
     HttpService.close_error := None |}.

(** The options of an instance with a broker at hand. *)
Definition connected_options : BaseService.options :=
  {[ "connection" := JS.Ref 5; "channel" := JS.Ref 6 ]}.

(** What the setup of the API service is seen to do. *)
Definition api_setup_effects (port : JS.value)
  : list HttpService.effect :=
  [ HttpService.Listen port;
    HttpService.Broker
      (Chan (AssertQueue "api.requests" {[ "durable" := JS.Bool true ]}));
    HttpService.Broker
      (Chan (AssertQueue "api.responses" {[ "durable" := JS.Bool true ]}));
    HttpService.Broker (Chan (Consume "api.responses" ∅)) ].

End ServiceProps.

(** * Properties *)

(** ** Tables *)

Section ObjFacts.
Context {V : Type}.
Implicit Types (o : Obj.t V) (k : string) (v : V).

Lemma obj_get_set_eq o k v : Obj.get (Obj.set o k v) k = Some v.
Proof.
  induction o as [|[k' v'] o IH]; simpl.
  - by rewrite String.eqb_refl.
  - destruct (String.eqb_spec k' k) as [->|Hne]; simpl.
    + by rewrite String.eqb_refl.
    + by apply String.eqb_neq in Hne as ->.
Qed.

Lemma obj_get_set_ne o k k' v :
  k ≠ k' → Obj.get (Obj.set o k v) k' = Obj.get o k'.
Proof.
  intros Hne. induction o as [|[k1 v1] o IH]; simpl.
  - by apply String.eqb_neq in Hne as ->.
  - destruct (String.eqb_spec k1 k) as [->|Hne1]; simpl.
    + by apply String.eqb_neq in Hne as ->.
    + by rewrite IH.
Qed.

Lemma obj_set_present o k v v0 :
  Obj.get o k = Some v0 → Obj.keys (Obj.set o k v) = Obj.keys o.
Proof.
  induction o as [|[k1 v1] o IH]; simpl; [done|].
  destruct (String.eqb_spec k1 k) as [->|Hne]; simpl; [done|].
  intros Hget. by rewrite IH.
Qed.

Lemma obj_set_absent o k v :
  Obj.get o k = None → Obj.set o k v = (o ++ [(k, v)])%list.
Proof.
  induction o as [|[k1 v1] o IH]; simpl; [done|].
  destruct (String.eqb_spec k1 k) as [->|Hne]; [done|].
  intros Hget. by rewrite IH.
Qed.

Lemma obj_get_None o k : Obj.get o k = None ↔ k ∉ Obj.keys o.
Proof.
  induction o as [|[k1 v1] o IH]; simpl.
  - split; [intros _; apply not_elem_of_nil | done].
  - rewrite not_elem_of_cons.
    destruct (String.eqb_spec k1 k) as [->|Hne]; [naive_solver|].
    rewrite IH. naive_solver.
Qed.

Lemma obj_get_Some_elem o k v : Obj.get o k = Some v → (k, v) ∈ o.
Proof.
  induction o as [|[k1 v1] o IH]; simpl; [done|].
  destruct (String.eqb_spec k1 k) as [->|Hne].
  - intros [= ->]. apply elem_of_cons; by left.
  - intros Hget. apply elem_of_cons; right; auto.
Qed.

Lemma obj_elem_get o k v : Obj.wf o → (k, v) ∈ o → Obj.get o k = Some v.
Proof.
  unfold Obj.wf.
  induction o as [|[k1 v1] o IH]; simpl; [by intros _ ?%elem_of_nil|].
  intros [Hk1 Hnd]%NoDup_cons [Heq|Hin]%elem_of_cons.
  - injection Heq as -> ->. by rewrite String.eqb_refl.
  - destruct (String.eqb_spec k1 k) as [->|Hne]; [|by apply IH].
    exfalso. apply Hk1. apply (list_elem_of_fmap_2 fst) in Hin. done.
Qed.

Lemma obj_wf_set o k v : Obj.wf o → Obj.wf (Obj.set o k v).
Proof.
  intros Hwf. destruct (Obj.get o k) as [v0|] eqn:Hget.
  - unfold Obj.wf. by rewrite (obj_set_present _ _ _ _ Hget).
  - rewrite (obj_set_absent _ _ _ Hget). unfold Obj.wf, Obj.keys.
    rewrite map_app. simpl. apply NoDup_app. split; [done|]. split.
    + intros k' Hin ->%list_elem_of_singleton.
      by apply obj_get_None in Hget.
    + apply NoDup_singleton.
Qed.

(** Under [wf], [delete] drops exactly the pairs with the key. *)
Lemma obj_delete_filter o k :
  Obj.wf o →
  Obj.delete o k = List.filter (λ kv, negb (String.eqb (fst kv) k)) o.
Proof.
  unfold Obj.wf.
  induction o as [|[k1 v1] o IH]; simpl; [done|].
  intros [Hk1 Hnd]%NoDup_cons.
  destruct (String.eqb_spec k1 k) as [->|Hne]; simpl.
  - clear IH Hnd. induction o as [|[k2 v2] o IH]; simpl; [done|].
    simpl in Hk1. apply not_elem_of_cons in Hk1 as [Hne Hk1].
    destruct (String.eqb_spec k2 k) as [->|_]; [done|]. simpl.
    f_equal. by apply IH.
  - f_equal. by apply IH.
Qed.

Lemma obj_delete_absent o k : Obj.get o k = None → Obj.delete o k = o.
Proof.
  induction o as [|[k1 v1] o IH]; simpl; [done|].
  destruct (String.eqb_spec k1 k) as [->|Hne]; [done|].
  intros Hget. by rewrite IH.
Qed.

Lemma obj_get_delete_ne o k k' :
  k ≠ k' → Obj.get (Obj.delete o k) k' = Obj.get o k'.
Proof.
  intros Hne. induction o as [|[k1 v1] o IH]; simpl; [done|].
  destruct (String.eqb_spec k1 k) as [->|Hne1]; simpl.
  - by apply String.eqb_neq in Hne as ->.
  - by rewrite IH.
Qed.

Lemma obj_keys_delete_sub o k x :
  x ∈ Obj.keys (Obj.delete o k) → x ∈ Obj.keys o.
Proof.
  induction o as [|[k1 v1] o IH]; simpl; [done|].
  destruct (String.eqb_spec k1 k) as [->|Hne]; simpl.
  - intros ?. apply elem_of_cons; by right.
  - intros [->|Hin]%elem_of_cons; apply elem_of_cons; auto.
Qed.

Lemma obj_wf_delete o k : Obj.wf o → Obj.wf (Obj.delete o k).
Proof.
  unfold Obj.wf.
  induction o as [|[k1 v1] o IH]; simpl; [done|].
  intros [Hk1 Hnd]%NoDup_cons.
  destruct (String.eqb_spec k1 k) as [->|Hne]; simpl; [done|].
  apply NoDup_cons. split; [|by apply IH].
  intros Hin. apply Hk1. by apply obj_keys_delete_sub in Hin.
Qed.

Lemma obj_get_delete_eq o k : Obj.wf o → Obj.get (Obj.delete o k) k = None.
Proof.
  unfold Obj.wf.
  induction o as [|[k1 v1] o IH]; simpl; [done|].
  intros [Hk1 Hnd]%NoDup_cons.
  destruct (String.eqb_spec k1 k) as [->|Hne]; simpl.
  - by apply obj_get_None.
  - apply String.eqb_neq in Hne as ->. by apply IH.
Qed.

Lemma obj_delete_elem o k x : x ∈ Obj.delete o k → x ∈ o.
Proof.
  induction o as [|[k1 v1] o IH]; simpl; [done|].
  destruct (String.eqb_spec k1 k) as [->|Hne]; simpl.
  - intros ?. apply elem_of_cons; by right.
  - intros [->|Hin]%elem_of_cons; apply elem_of_cons; auto.
Qed.

Lemma obj_set_elem o k v x : x ∈ Obj.set o k v → x = (k, v) ∨ x ∈ o.
Proof.
  induction o as [|[k1 v1] o IH]; simpl.
  - intros ->%list_elem_of_singleton. by left.
  - destruct (String.eqb_spec k1 k) as [->|Hne].
    + intros [Hx|Hin]%elem_of_cons; [by left|].
      right. apply elem_of_cons; by right.
    + intros [Hx|Hin]%elem_of_cons.
      * right. apply elem_of_cons; by left.
      * destruct (IH Hin) as [Hx|?]; [by left|].
        right. apply elem_of_cons; by right.
Qed.

End ObjFacts.

(** ** The registry *)

Section RegistryFacts.
Import Registry Props.
Implicit Types (r : ServiceRegistry) (n h p : JS.value) (e : ServiceEntry).

Lemma register_invalid r now n h p md :
  JS.truthy n && JS.truthy h && JS.truthy p = false →
  register r now n h p md = (r, JS.Throw invalid_registration).
Proof.
  intros Hf. unfold register.
  destruct (JS.truthy n), (JS.truthy h), (JS.truthy p); done.
Qed.

Lemma register_renew r now n h p md e :
  JS.truthy n && JS.truthy h && JS.truthy p = true →
  Obj.get (services r) (_generateKey n h p) = Some e →
  register r now n h p md =
    (with_services r
       (Obj.set (services r) (_generateKey n h p) (set_timestamp e now)),
     JS.Return (set_timestamp e now)).
Proof.
  intros Ht Hget. unfold register.
  destruct (JS.truthy n), (JS.truthy h), (JS.truthy p); try done.
  simpl. by rewrite Hget.
Qed.

Lemma register_fresh r now n h p md :
  JS.truthy n && JS.truthy h && JS.truthy p = true →
  Obj.get (services r) (_generateKey n h p) = None →
  ∃ e, register r now n h p md =
         (with_services r (Obj.set (services r) (_generateKey n h p) e),
          JS.Return e)
       ∧ name e = n ∧ host e = h ∧ port e = p ∧ timestamp e = now
       ∧ metadata e = md ∧ key e = _generateKey n h p.
Proof.
  intros Ht Hget. unfold register.
  destruct (JS.truthy n), (JS.truthy h), (JS.truthy p); try done.
  simpl. rewrite Hget. eexists. split; [reflexivity|]. done.
Qed.

(** A valid call stores an entry under the key, stamped with the time of
    the call, and returns it. *)
Lemma register_stores r now n h p md :
  JS.truthy n && JS.truthy h && JS.truthy p = true →
  ∃ e, register r now n h p md =
         (with_services r (Obj.set (services r) (_generateKey n h p) e),
          JS.Return e)
       ∧ timestamp e = now ∧ key e = match Obj.get (services r)
                                               (_generateKey n h p) with
                                     | Some e0 => key e0
                                     | None => _generateKey n h p
                                     end.
Proof.
  intros Ht. destruct (Obj.get (services r) (_generateKey n h p)) as [e0|]
    eqn:Hget.
  - eexists. split; [by apply register_renew|]. done.
  - destruct (register_fresh r now n h p md Ht Hget) as (e & -> & He).
    exists e. naive_solver.
Qed.

Lemma inv_new t c : inv (new t c).
Proof. split; [apply NoDup_nil_2 | constructor]. Qed.

Lemma inv_register r now n h p md :
  inv r → inv (fst (register r now n h p md)).
Proof.
  intros [Hwf Hkey].
  destruct (JS.truthy n && JS.truthy h && JS.truthy p) eqn:Ht.
  - destruct (register_stores r now n h p md Ht) as (e & -> & _ & Hk).
    simpl. split; [by apply obj_wf_set|].
    apply Forall_forall. intros [k' e'] Hin. simpl.
    apply obj_set_elem in Hin as [Heq|Hin]; [injection Heq as -> ->|].
    + destruct (Obj.get (services r) (_generateKey n h p)) as [e0|] eqn:Hg;
        [|done].
      apply obj_get_Some_elem in Hg.
      rewrite Forall_forall in Hkey. rewrite Hk. by apply (Hkey _ Hg).
    + rewrite Forall_forall in Hkey. by apply (Hkey _ Hin).
  - by rewrite register_invalid.
Qed.

Lemma inv_unregister r n h p : inv r → inv (fst (unregister r n h p)).
Proof.
  intros [Hwf Hkey]. unfold unregister.
  destruct (Obj.get _ _); [|done]. simpl. split; [by apply obj_wf_delete|].
  apply Forall_forall. intros x Hin%obj_delete_elem.
  rewrite Forall_forall in Hkey. by apply Hkey.
Qed.

Lemma stored_under_wf r k :
  Obj.wf (services r) → (stored_under k r ≤ 1)%nat.
Proof.
  unfold stored_under, Obj.wf. generalize (Obj.keys (services r)) as l.
  induction l as [|k1 l IH]; simpl; [lia|].
  intros [Hk1 Hnd]%NoDup_cons.
  destruct (String.eqb_spec k k1) as [->|Hne]; [|by apply IH].
  simpl. enough (List.filter (String.eqb k1) l = []) as -> by (simpl; lia).
  clear IH Hnd. induction l as [|k2 l IH]; simpl; [done|].
  apply not_elem_of_cons in Hk1 as [Hne Hk1].
  destruct (String.eqb_spec k1 k2) as [->|_]; [done|]. by apply IH.
Qed.

Lemma stored_under_present r k e :
  Obj.get (services r) k = Some e → (1 ≤ stored_under k r)%nat.
Proof.
  unfold stored_under, Obj.keys. generalize (services r) as o.
  induction o as [|[k1 v1] o IH]; simpl; [done|].
  destruct (String.eqb_spec k1 k) as [->|Hne].
  - intros _. rewrite String.eqb_refl. simpl. lia.
  - intros Hg. destruct (String.eqb k k1); simpl; [lia|]. by apply IH.
Qed.

Lemma inv_register_seq n h p calls r :
  inv r → inv (register_seq n h p calls r).
Proof.
  revert r. induction calls as [|c calls IH]; intros r Hinv; [done|].
  simpl. apply IH. by apply inv_register.
Qed.

Lemma register_seq_snoc n h p calls c r :
  register_seq n h p (calls ++ [c]) r =
  fst (register (register_seq n h p calls r) (fst c) n h p (snd c)).
Proof. unfold register_seq. by rewrite fold_left_app. Qed.

End RegistryFacts.

Section RegisterClaim.
Import Registry Props.

(** C1. [register] rejects a call in which the name, the host or the
    port is falsy (an empty string, zero) with the registration error
    and leaves the registry as it was. A valid call on a key that is
    already stored creates no entry: the stored entry gets the time of
    the call as its timestamp, stays where it is, and is what the call
    returns; nothing else in the table changes. So after any run of
    valid [register] calls for one (name, host, port) the table holds at
    most one entry under that key, and after a non-empty run exactly
    one, whose timestamp is the time of the last call. *)
Theorem register_idempotent_renewal :
  (∀ r now n h p md,
     JS.truthy n && JS.truthy h && JS.truthy p = false →
     register r now n h p md = (r, JS.Throw invalid_registration))
  ∧ (∀ r now n h p md e,
       JS.truthy n && JS.truthy h && JS.truthy p = true →
       Obj.get (services r) (_generateKey n h p) = Some e →
       let r' := fst (register r now n h p md) in
       snd (register r now n h p md) = JS.Return (set_timestamp e now)
       ∧ Obj.get (services r') (_generateKey n h p)
         = Some (set_timestamp e now)
       ∧ Obj.keys (services r') = Obj.keys (services r)
       ∧ (∀ k, k ≠ _generateKey n h p →
               Obj.get (services r') k = Obj.get (services r) k))
  ∧ (∀ r n h p calls,
       inv r →
       JS.truthy n && JS.truthy h && JS.truthy p = true →
       let r' := register_seq n h p calls r in
       (stored_under (_generateKey n h p) r' ≤ 1)%nat
       ∧ (∀ now md, last calls = Some (now, md) →
            stored_under (_generateKey n h p) r' = 1%nat
            ∧ ∃ e, Obj.get (services r') (_generateKey n h p) = Some e
                   ∧ timestamp e = now)).
Proof.
  split; [exact register_invalid|]. split.
  - intros r now n h p md e Ht Hget. simpl.
    rewrite (register_renew _ _ _ _ _ _ _ Ht Hget). simpl.
    split; [done|]. split; [apply obj_get_set_eq|].
    split; [by eapply obj_set_present|].
    intros k Hne. by apply obj_get_set_ne.
  - intros r n h p calls Hinv Ht. simpl.
    pose proof (inv_register_seq n h p calls r Hinv) as [Hwf _].
    split; [by apply stored_under_wf|].
    intros now md Hlast.
    destruct calls as [|c0 calls0] using rev_ind; [done|].
    rewrite last_snoc in Hlast. injection Hlast as ->.
    rewrite register_seq_snoc in Hwf |- *. simpl in *.
    destruct (register_stores (register_seq n h p calls0 r) now n h p md Ht)
      as (e & Hreg & Hts & _).
    rewrite Hreg in Hwf |- *. simpl in *.
    assert (Obj.get (Obj.set (services (register_seq n h p calls0 r))
                       (_generateKey n h p) e) (_generateKey n h p)
            = Some e) as Hg by apply obj_get_set_eq.
    split; [|by exists e].
    apply Nat.le_antisymm.
    + by apply (stored_under_wf (with_services _ _)).
    + by apply (stored_under_present (with_services _ _) _ e).
Qed.

Lemma register_idempotent_renewal_witness :
  let r1 := fst (register (new None None) 10 (JS.Str "api")
                          (JS.Str "localhost") (JS.Num 3001) ∅) in
  register (new None None) 7 (JS.Str "") (JS.Str "localhost") (JS.Num 3001) ∅
  = (new None None, JS.Throw invalid_registration)
  ∧ Obj.keys (services (fst (register r1 20 (JS.Str "api")
                               (JS.Str "localhost") (JS.Num 3001) ∅)))
    = Obj.keys (services r1)
  ∧ stored_under "api:localhost:3001"
      (register_seq (JS.Str "api") (JS.Str "localhost") (JS.Num 3001)
         [(10, ∅); (20, ∅)] (new None None)) = 1%nat.
Proof.
  intros r1.
  destruct register_idempotent_renewal as (Ha & Hb & Hc). split; [|split].
  - apply Ha. reflexivity.
  - refine (proj1 (proj2 (proj2 (Hb r1 20 (JS.Str "api") (JS.Str "localhost")
                                    (JS.Num 3001) ∅ _ _ _)))).
    + reflexivity.
    + vm_compute. reflexivity.
  - refine (proj1 (proj2 (Hc (new None None) (JS.Str "api")
                             (JS.Str "localhost") (JS.Num 3001)
                             [(10, ∅); (20, ∅)] (inv_new _ _) _) 20 ∅ _)).
    + reflexivity.
    + reflexivity.
Defined.

End RegisterClaim.

(** ** Keys *)

Section KeyFacts.
Import Registry Props.

Lemma app_cons c s t : String.String c s +:+ t = String.String c (s +:+ t).
Proof. reflexivity. Qed.

Lemma app_empty t : "" +:+ t = t.
Proof. reflexivity. Qed.

(** A string is cut in one way only at its first colon. *)
Lemma cut_at_colon s1 s2 t1 t2 :
  colon_free s1 = true → colon_free s2 = true →
  s1 +:+ ":" +:+ t1 = s2 +:+ ":" +:+ t2 → s1 = s2 ∧ t1 = t2.
Proof.
  revert s2. induction s1 as [|c1 s1 IH]; intros [|c2 s2] H1 H2;
    rewrite ?app_cons, ?app_empty; simpl in H1, H2.
  - by intros [= ->].
  - intros [= <- _]. by rewrite Ascii.eqb_refl in H2.
  - intros [= -> _]. by rewrite Ascii.eqb_refl in H1.
  - apply andb_true_iff in H1 as [_ H1]. apply andb_true_iff in H2 as [_ H2].
    intros [= -> Heq]. destruct (IH s2 H1 H2 Heq) as [-> ->]. done.
Qed.

(** On names and hosts without a colon and numeric ports the key
    determines the triple. *)
Lemma generateKey_inj n1 h1 p1 n2 h2 p2 :
  colon_free n1 = true → colon_free h1 = true →
  colon_free n2 = true → colon_free h2 = true →
  _generateKey (JS.Str n1) (JS.Str h1) (JS.Num p1)
  = _generateKey (JS.Str n2) (JS.Str h2) (JS.Num p2) →
  n1 = n2 ∧ h1 = h2 ∧ p1 = p2.
Proof.
  unfold _generateKey. simpl. intros Hn1 Hh1 Hn2 Hh2 Heq.
  apply cut_at_colon in Heq as [-> Heq]; [|done..].
  apply cut_at_colon in Heq as [-> Heq]; [|done..].
  by apply (inj pretty) in Heq as ->.
Qed.

(** A key is never the name of a property of [Object.prototype], so
    reading [this.services[key]] only ever finds a stored entry. *)
Lemma colon_free_sep s t : colon_free (s +:+ ":" +:+ t) = false.
Proof.
  induction s as [|c s IH]; rewrite ?app_cons, ?app_empty; [done|].
  change (negb (Ascii.eqb c ":") && colon_free (s +:+ ":" +:+ t) = false).
  rewrite IH. apply andb_false_r.
Qed.

(** A key is never the name of a property of [Object.prototype], so
    reading [this.services[key]] only ever finds a stored entry. *)
Lemma generateKey_own n h p :
  _generateKey n h p ∉ JS.object_prototype_names.
Proof.
  intros Hin. unfold _generateKey in Hin.
  assert (Forall (λ s, colon_free s = true) JS.object_prototype_names)
    as Hall by (repeat constructor).
  rewrite Forall_forall in Hall. apply Hall in Hin.
  by rewrite colon_free_sep in Hin.
Qed.

End KeyFacts.

Section DistinctTriplesClaim.
Import Registry Props.

(** C2, as stated, fails: two triples that differ can have one key. With
    a colon in the name, and with a port given once as a number and once
    as a string, the second registration renews the entry of the first
    and the table holds a single entry. *)
Lemma distinct_triples_one_key :
  let '(_, r2) :=
    after_two (new None None) 1000 (JS.Str "a:b") (JS.Str "c") (JS.Num 1)
              2000 (JS.Str "a") (JS.Str "b:c") (JS.Num 1) in
  let '(_, r2') :=
    after_two (new None None) 1000
              (JS.Str "api") (JS.Str "localhost") (JS.Num 3001)
              2000 (JS.Str "api") (JS.Str "localhost") (JS.Str "3001") in
  (JS.Str "a:b", JS.Str "c", JS.Num 1) ≠ (JS.Str "a", JS.Str "b:c", JS.Num 1)
  ∧ map (λ e, (name e, host e, timestamp e)) (getAll r2)
    = [(JS.Str "a:b", JS.Str "c", 2000)]
  ∧ (JS.Str "api", JS.Str "localhost", JS.Num 3001)
    ≠ (JS.Str "api", JS.Str "localhost", JS.Str "3001")
  ∧ map (λ e, (port e, timestamp e)) (getAll r2') = [(JS.Num 3001, 2000)].
Proof. vm_compute. repeat split; congruence. Qed.

(** C2, amended. Two valid registrations whose keys differ leave two
    distinct entries: the second call neither overwrites nor renews the
    entry of the first, which is found under its key exactly as the
    first call left it. Triples of strings without a colon for name and
    host and a number for the port that differ have keys that differ.
    In the scenario of the specification, on a fresh registry with the
    default timeout and queries made within it, [findAll("api")] has
    exactly 2 entries after registering ports 3001 and 3002, and after
    unregistering 3001, which returns [true], exactly one, with port
    3002. *)
Theorem distinct_keys_distinct_entries :
  (∀ r t1 n1 h1 p1 md1 t2 n2 h2 p2 md2,
     inv r →
     JS.truthy n1 && JS.truthy h1 && JS.truthy p1 = true →
     JS.truthy n2 && JS.truthy h2 && JS.truthy p2 = true →
     _generateKey n1 h1 p1 ≠ _generateKey n2 h2 p2 →
     let r1 := fst (register r t1 n1 h1 p1 md1) in
     let r2 := fst (register r1 t2 n2 h2 p2 md2) in
     ∃ e1 e2,
       Obj.get (services r1) (_generateKey n1 h1 p1) = Some e1
       ∧ Obj.get (services r2) (_generateKey n1 h1 p1) = Some e1
       ∧ Obj.get (services r2) (_generateKey n2 h2 p2) = Some e2
       ∧ e1 ≠ e2 ∧ timestamp e1 = t1 ∧ timestamp e2 = t2)
  ∧ (∀ n1 h1 p1 n2 h2 p2,
       colon_free n1 = true → colon_free h1 = true →
       colon_free n2 = true → colon_free h2 = true →
       (n1, h1, p1) ≠ (n2, h2, p2) →
       _generateKey (JS.Str n1) (JS.Str h1) (JS.Num p1)
       ≠ _generateKey (JS.Str n2) (JS.Str h2) (JS.Num p2))
  ∧ (∀ t1 t2 t3 t4,
       t3 - t1 ≤ 30000 → t3 - t2 ≤ 30000 → t4 - t2 ≤ 30000 →
       let '(_, r2) :=
         after_two (new None None)
                   t1 (JS.Str "api") (JS.Str "localhost") (JS.Num 3001)
                   t2 (JS.Str "api") (JS.Str "localhost") (JS.Num 3002) in
       let r3 := unregister r2 (JS.Str "api") (JS.Str "localhost")
                            (JS.Num 3001) in
       length (findAll r2 t3 (JS.Str "api")) = 2%nat
       ∧ snd r3 = true
       ∧ map port (findAll (fst r3) t4 (JS.Str "api")) = [JS.Num 3002]).
Proof.
  split; [|split].
  - intros r t1 n1 h1 p1 md1 t2 n2 h2 p2 md2 Hinv Hv1 Hv2 Hne r1 r2.
    pose proof (inv_register r t1 n1 h1 p1 md1 Hinv) as Hinv1.
    pose proof (inv_register _ t2 n2 h2 p2 md2 Hinv1) as Hinv2.
    fold r1 in Hinv1, Hinv2. fold r2 in Hinv2.
    destruct (register_stores r t1 n1 h1 p1 md1 Hv1) as (e1 & Hr1 & Ht1 & _).
    destruct (register_stores r1 t2 n2 h2 p2 md2 Hv2) as (e2 & Hr2 & Ht2 & _).
    assert (Obj.get (services r1) (_generateKey n1 h1 p1) = Some e1) as Hg1.
    { subst r1. rewrite Hr1. simpl. apply obj_get_set_eq. }
    assert (Obj.get (services r2) (_generateKey n2 h2 p2) = Some e2) as Hg2.
    { subst r2. rewrite Hr2. simpl. apply obj_get_set_eq. }
    assert (Obj.get (services r2) (_generateKey n1 h1 p1) = Some e1) as Hg12.
    { subst r2. rewrite Hr2. simpl. rewrite obj_get_set_ne; [done|].
      intros Heq. by apply Hne. }
    exists e1, e2. repeat split; try done.
    intros ->. destruct Hinv2 as [_ Hkeys]. rewrite Forall_forall in Hkeys.
    apply obj_get_Some_elem in Hg12, Hg2.
    apply Hkeys in Hg12, Hg2. simpl in *. congruence.
  - intros n1 h1 p1 n2 h2 p2 Hn1 Hh1 Hn2 Hh2 Hne Heq. apply Hne.
    by destruct (generateKey_inj _ _ _ _ _ _ Hn1 Hh1 Hn2 Hh2 Heq)
      as (-> & -> & ->).
  - intros t1 t2 t3 t4 H31 H32 H42.
    assert (_generateKey (JS.Str "api") (JS.Str "localhost") (JS.Num 3001)
            = "api:localhost:3001") as K1 by (vm_compute; reflexivity).
    assert (_generateKey (JS.Str "api") (JS.Str "localhost") (JS.Num 3002)
            = "api:localhost:3002") as K2 by (vm_compute; reflexivity).
    unfold after_two, unregister, register, findAll, live_and_named.
    rewrite !K1, !K2. simpl.
    assert ((t3 - t1 >? 30000) = false) as -> by lia.
    assert ((t3 - t2 >? 30000) = false) as -> by lia.
    assert ((t4 - t2 >? 30000) = false) as -> by lia.
    done.
Qed.

Lemma distinct_keys_distinct_entries_witness :
  (let '(r1, r2) :=
     after_two (new None None)
               0 (JS.Str "api") (JS.Str "localhost") (JS.Num 3001)
               10 (JS.Str "api") (JS.Str "localhost") (JS.Num 3002) in
   ∃ e1 e2,
     Obj.get (services r1) "api:localhost:3001" = Some e1
     ∧ Obj.get (services r2) "api:localhost:3001" = Some e1
     ∧ Obj.get (services r2) "api:localhost:3002" = Some e2
     ∧ e1 ≠ e2 ∧ timestamp e1 = 0 ∧ timestamp e2 = 10)
  ∧ _generateKey (JS.Str "api") (JS.Str "localhost") (JS.Num 3001)
    ≠ _generateKey (JS.Str "api") (JS.Str "localhost") (JS.Num 3002)
  ∧ (let '(_, r2) :=
       after_two (new None None)
                 0 (JS.Str "api") (JS.Str "localhost") (JS.Num 3001)
                 10 (JS.Str "api") (JS.Str "localhost") (JS.Num 3002) in
     length (findAll r2 20 (JS.Str "api")) = 2%nat).
Proof.
  destruct distinct_keys_distinct_entries as (Ha & Hb & Hc).
  assert (_generateKey (JS.Str "api") (JS.Str "localhost") (JS.Num 3001)
          ≠ _generateKey (JS.Str "api") (JS.Str "localhost") (JS.Num 3002))
    as Hkeys.
  { apply Hb; try reflexivity. intros [=]. }
  split; [|split].
  - exact (Ha (new None None) 0 (JS.Str "api") (JS.Str "localhost")
              (JS.Num 3001) ∅ 10 (JS.Str "api") (JS.Str "localhost")
              (JS.Num 3002) ∅ (inv_new _ _) eq_refl eq_refl Hkeys).
  - exact Hkeys.
  - refine (proj1 (Hc 0 10 20 30 _ _ _)); lia.
Defined.

End DistinctTriplesClaim.

(** ** Lookup *)

Section FindClaim.
Import Registry Props.

(** The index [find] draws lies within the array. *)
Lemma random_index_range (random : Q) (len : nat) :
  (0 <= random)%Q → (random < 1)%Q → (0 < len)%nat →
  0 ≤ random_index random len < Z.of_nat len.
Proof.
  intros H0 H1 Hlen. unfold random_index.
  assert (0 < inject_Z (Z.of_nat len))%Q as Hpos.
  { rewrite <- (Zlt_Qlt 0). lia. }
  split.
  - change 0 with (Qfloor (inject_Z 0)). apply Qfloor_resp_le.
    apply Qmult_le_0_compat; [done|]. by apply Qlt_le_weak.
  - rewrite Zlt_Qlt. eapply Qle_lt_trans; [apply Qfloor_le|].
    rewrite <- (Qmult_1_l (inject_Z (Z.of_nat len))) at 2.
    by apply Qmult_lt_compat_r.
Qed.

Lemma live_and_named_spec r now n e :
  live_and_named r now n e
  = bool_decide (name e = n ∧ now - timestamp e ≤ timeout r).
Proof.
  unfold live_and_named, JS.strict_eq.
  destruct (Z.gtb_spec (now - timestamp e) (timeout r)).
  - symmetry. apply bool_decide_eq_false. lia.
  - apply bool_decide_ext. intuition lia.
Qed.

(** C3. At any time [now], [findAll(name)] is the list of the stored
    entries, in the order [getAll] has them, whose name is the argument
    and whose age [now - timestamp] is at most the timeout; an entry
    older than that is left out although it is still stored. [find]
    never throws: it returns [null] when [findAll] is empty, and
    otherwise one of the entries of [findAll], whatever [Math.random]
    draws in [0, 1). *)
Theorem findAll_exactly_live_named (r : ServiceRegistry) (now : Z)
    (n : JS.value) :
  findAll r now n
  = List.filter
      (λ e, bool_decide (name e = n ∧ now - timestamp e ≤ timeout r))
      (getAll r)
  ∧ (∀ e, e ∈ findAll r now n
          ↔ e ∈ getAll r ∧ name e = n ∧ now - timestamp e ≤ timeout r)
  ∧ (findAll r now n = [] → ∀ random, find r now random n = FoundNull)
  ∧ (findAll r now n ≠ [] →
     ∀ random, (0 <= random)%Q → (random < 1)%Q →
       ∃ e, find r now random n = FoundEntry e ∧ e ∈ findAll r now n).
Proof.
  assert (findAll r now n
          = List.filter
              (λ e, bool_decide (name e = n
                                 ∧ now - timestamp e ≤ timeout r))
              (getAll r)) as Hfilter.
  { unfold findAll, getAll. apply filter_ext.
    intros e. apply live_and_named_spec. }
  split; [done|]. split; [|split].
  - intros e. rewrite Hfilter, !list_elem_of_In, filter_In.
    by rewrite bool_decide_eq_true.
  - intros Hnil random. unfold find. by rewrite Hnil.
  - intros Hne random H0 H1. unfold find.
    destruct (findAll r now n) as [|e0 l] eqn:Hall; [done|].
    change (length (e0 :: l) =? 0)%nat with false. cbv iota.
    assert (0 < length (e0 :: l))%nat as Hlen by (simpl; lia).
    pose proof (random_index_range random _ H0 H1 Hlen) as [Hlo Hhi].
    assert ((random_index random (length (e0 :: l)) <? 0) = false) as ->
      by lia.
    destruct (nth_error (e0 :: l)
                (Z.to_nat (random_index random (length (e0 :: l)))))
      as [e|] eqn:Hnth.
    + exists e. split; [done|]. apply list_elem_of_In.
      by eapply nth_error_In.
    + apply nth_error_None in Hnth. lia.
Qed.

Lemma findAll_exactly_live_named_witness :
  let r := fst (register (new None None) 0 (JS.Str "api")
                         (JS.Str "localhost") (JS.Num 3001) ∅) in
  find r 40000 (1 # 2)%Q (JS.Str "api") = FoundNull
  ∧ ∃ e, find r 30000 (1 # 2)%Q (JS.Str "api") = FoundEntry e
         ∧ e ∈ findAll r 30000 (JS.Str "api").
Proof.
  intros r. split.
  - refine (proj1 (proj2 (proj2 (findAll_exactly_live_named
                                   r 40000 (JS.Str "api")))) _ (1 # 2)%Q).
    reflexivity.
  - refine (proj2 (proj2 (proj2 (findAll_exactly_live_named
                                   r 30000 (JS.Str "api")))) _ (1 # 2)%Q _ _).
    + vm_compute. discriminate.
    + vm_compute. discriminate.
    + reflexivity.
Defined.

End FindClaim.

(** ** Removal: [unregister] and the sweep *)

Section RemovalFacts.
Context {V : Type}.
Implicit Types (o : Obj.t V) (k : string).

Lemma filter_all {A} (l : list A) : List.filter (λ _, true) l = l.
Proof. induction l as [|x l IH]; simpl; [done|]. by rewrite IH. Qed.

Lemma filter_twice {A} (f g : A → bool) (l : list A) :
  List.filter f (List.filter g l) = List.filter (λ x, g x && f x) l.
Proof.
  induction l as [|x l IH]; simpl; [done|].
  destruct (g x); simpl; [destruct (f x)|]; by rewrite IH.
Qed.

Lemma obj_wf_filter o (f : string * V → bool) :
  Obj.wf o → Obj.wf (List.filter f o).
Proof.
  unfold Obj.wf. induction o as [|kv o IH]; simpl; [done|].
  intros [Hk Hnd]%NoDup_cons. destruct (f kv); simpl; [|by apply IH].
  apply NoDup_cons. split; [|by apply IH].
  intros Hin. apply Hk. apply list_elem_of_fmap in Hin as (kv' & -> & Hin).
  apply list_elem_of_In, filter_In in Hin as [Hin _].
  apply list_elem_of_fmap. exists kv'. by rewrite list_elem_of_In.
Qed.

Lemma obj_get_filter o (f : string * V → bool) k :
  Obj.wf o →
  Obj.get (List.filter f o) k
  = match Obj.get o k with
    | Some v => if f (k, v) then Some v else None
    | None => None
    end.
Proof.
  unfold Obj.wf. induction o as [|[k1 v1] o IH]; simpl; [done|].
  intros [Hk Hnd]%NoDup_cons.
  destruct (String.eqb_spec k1 k) as [->|Hne].
  - destruct (f (k, v1)); simpl; [by rewrite String.eqb_refl|].
    apply obj_get_None. intros Hin. apply Hk.
    apply list_elem_of_fmap in Hin as (kv' & -> & Hin).
    apply list_elem_of_In, filter_In in Hin as [Hin _].
    apply list_elem_of_fmap. exists kv'. by rewrite list_elem_of_In.
  - destruct (f (k1, v1)); simpl; [|by apply IH].
    apply String.eqb_neq in Hne as ->. by apply IH.
Qed.

Lemma obj_delete_length o k v :
  Obj.get o k = Some v → (length (Obj.delete o k) + 1 = length o)%nat.
Proof.
  induction o as [|[k1 v1] o IH]; simpl; [done|].
  destruct (String.eqb_spec k1 k) as [->|Hne]; simpl; [lia|].
  intros Hg. rewrite <- (IH Hg). lia.
Qed.

(** In a table without repeated keys a pair is known by its key. *)
Lemma obj_wf_key_inj o (kv kv' : string * V) :
  Obj.wf o → kv ∈ o → kv' ∈ o → fst kv = fst kv' → kv = kv'.
Proof.
  destruct kv as [k v], kv' as [k' v']. simpl. intros Hwf Hin Hin' <-.
  apply (obj_elem_get _ _ _ Hwf) in Hin, Hin'. congruence.
Qed.

End RemovalFacts.

Section SweepFacts.
Import Registry Props.

(** What the loop of the sweep computes from any table [acc], given the
    entries [l] enumerated at the start. *)
Lemma cleanup_fold tmo now l acc c :
  Obj.wf acc →
  fold_left (cleanup_step tmo now) l (acc, c)
  = (List.filter
       (λ kv, negb (existsb (λ kv', (now - timestamp (snd kv') >? tmo)
                                    && String.eqb (fst kv) (fst kv')) l))
       acc,
     (c + length (List.filter (λ kv', now - timestamp (snd kv') >? tmo) l))%nat).
Proof.
  revert acc c. induction l as [|[k e] l IH]; intros acc c Hwf; simpl.
  - by rewrite filter_all, Nat.add_0_r.
  - unfold cleanup_step at 2. simpl.
    destruct (now - timestamp e >? tmo) eqn:Hexp; simpl.
    + rewrite IH by (by apply obj_wf_delete).
      rewrite obj_delete_filter by done. rewrite filter_twice.
      f_equal; [|lia]. apply filter_ext. intros [k' e']. simpl.
      by rewrite negb_orb.
    + by rewrite IH.
Qed.

Lemma cleanup_services r now :
  Obj.wf (services r) →
  services (fst (cleanup r now))
  = List.filter (λ kv, negb (now - timestamp (snd kv) >? timeout r))
                (services r).
Proof.
  intros Hwf. unfold cleanup, Obj.entries. rewrite cleanup_fold by done.
  simpl. apply filter_ext_in. intros kv Hin. f_equal.
  apply list_elem_of_In in Hin.
  destruct (now - timestamp (snd kv) >? timeout r) eqn:Hexp.
  - apply existsb_exists. exists kv. rewrite <- list_elem_of_In.
    split; [done|]. by rewrite Hexp, String.eqb_refl.
  - apply not_true_is_false. intros (kv' & Hin' & Hb)%existsb_exists.
    apply andb_true_iff in Hb as [Hexp' Heq%String.eqb_eq].
    apply list_elem_of_In in Hin'.
    rewrite (obj_wf_key_inj _ _ _ Hwf Hin Hin' Heq) in Hexp. congruence.
Qed.

Lemma cleanup_count r now :
  Obj.wf (services r) →
  snd (cleanup r now)
  = length (List.filter (λ e, now - timestamp e >? timeout r) (getAll r)).
Proof.
  intros Hwf. unfold cleanup, getAll, Obj.entries, Obj.values.
  rewrite cleanup_fold by done. simpl.
  clear Hwf. generalize (timeout r) as tmo. intros tmo.
  induction (services r) as [|[k e] l IH]; simpl; [done|].
  destruct (now - timestamp e >? tmo); simpl; by rewrite IH.
Qed.

Lemma inv_cleanup r now : inv r → inv (fst (cleanup r now)).
Proof.
  intros [Hwf Hkey]. split.
  - rewrite cleanup_services by done. by apply obj_wf_filter.
  - rewrite cleanup_services by done. apply Forall_forall.
    intros kv [Hin _]%list_elem_of_In%filter_In.
    rewrite Forall_forall in Hkey. apply Hkey. by apply list_elem_of_In.
Qed.

End SweepFacts.

Section SweepClaim.
Import Registry Props.

(** C4. A registry built without options has a timeout of 30 seconds
    and sweeps every 5 minutes. One run of the sweep at time [now]
    keeps, in their order, exactly the entries whose age is at most the
    timeout, unchanged, and deletes the others; it changes nothing else
    in the registry and counts what it deleted. So an entry aged exactly
    the timeout survives, as it passes the filter of [findAll]. Until
    the sweep runs [getAll()] lists every stored entry, stale or not;
    after a sweep an entry older than the timeout is no longer under
    its key nor anywhere in [getAll()]. *)
Theorem cleanup_removes_exactly_expired :
  (timeout (new None None) = 30000
   ∧ cleanupInterval (new None None) = 300000)
  ∧ ∀ r now,
      Obj.wf (services r) →
      let r' := fst (cleanup r now) in
      services r'
      = List.filter (λ kv, bool_decide (now - timestamp (snd kv) ≤ timeout r))
                    (services r)
      ∧ timeout r' = timeout r ∧ cleanupInterval r' = cleanupInterval r
      ∧ snd (cleanup r now)
        = length (List.filter (λ e, bool_decide (expired r now e)) (getAll r))
      ∧ (∀ k e, Obj.get (services r) k = Some e →
           e ∈ getAll r
           ∧ (now - timestamp e ≤ timeout r →
              Obj.get (services r') k = Some e ∧ e ∈ getAll r'
              ∧ e ∈ findAll r now (name e))
           ∧ (expired r now e →
              Obj.get (services r') k = None ∧ (e ∉ getAll r')
              ∧ (e ∉ findAll r now (name e)))).
Proof.
  split; [done|]. intros r now Hwf r'.
  assert (services r'
          = List.filter
              (λ kv, bool_decide (now - timestamp (snd kv) ≤ timeout r))
              (services r)) as Hsrv.
  { subst r'. rewrite cleanup_services by done. apply filter_ext.
    intros kv. destruct (Z.gtb_spec (now - timestamp (snd kv)) (timeout r)).
    - symmetry. apply bool_decide_eq_false. lia.
    - symmetry. by apply bool_decide_eq_true. }
  split; [done|]. split; [done|]. split; [done|]. split.
  { rewrite cleanup_count by done. f_equal. apply filter_ext. intros e.
    unfold expired. destruct (Z.gtb_spec (now - timestamp e) (timeout r)).
    - symmetry. apply bool_decide_eq_true. lia.
    - symmetry. apply bool_decide_eq_false. lia. }
  intros k e Hget.
  assert ((k, e) ∈ services r) as Hin by (by apply obj_get_Some_elem).
  assert (e ∈ getAll r) as Hall.
  { unfold getAll, Obj.values. apply list_elem_of_fmap. by exists (k, e). }
  split; [done|]. split.
  - intros Hlive. rewrite Hsrv. rewrite obj_get_filter, Hget by done.
    simpl. rewrite bool_decide_true by done. split; [done|]. split.
    + unfold getAll, Obj.values. rewrite Hsrv.
      apply list_elem_of_fmap. exists (k, e). split; [done|].
      apply list_elem_of_In, filter_In. rewrite <- list_elem_of_In.
      split; [done|]. simpl. by apply bool_decide_eq_true.
    + by apply findAll_exactly_live_named.
  - unfold expired. intros Hexp. rewrite Hsrv.
    rewrite obj_get_filter, Hget by done. simpl.
    rewrite bool_decide_false by lia. split; [done|]. split.
    + unfold getAll, Obj.values. rewrite Hsrv.
      intros (kv & -> & Hkv)%list_elem_of_fmap.
      apply list_elem_of_In, filter_In in Hkv as [_ Hkv].
      apply bool_decide_eq_true in Hkv. lia.
    + intros Hf. apply findAll_exactly_live_named in Hf. lia.
Qed.

Lemma cleanup_removes_exactly_expired_witness :
  let r := fst (register (new None None) 0 (JS.Str "api")
                         (JS.Str "localhost") (JS.Num 3001) ∅) in
  getAll (fst (cleanup r 30000)) = getAll r
  ∧ getAll (fst (cleanup r 30001)) = [].
Proof.
  intros r.
  assert (Obj.wf (services r)) as Hwf.
  { apply NoDup_singleton. }
  destruct cleanup_removes_exactly_expired as [_ Hsweep]. split.
  - unfold getAll. by rewrite (proj1 (Hsweep r 30000 Hwf)).
  - unfold getAll. by rewrite (proj1 (Hsweep r 30001 Hwf)).
Defined.

End SweepClaim.

Section UnregisterClaim.
Import Registry Props.

(** C5. [unregister(name, host, port)] on a key under which nothing is
    stored returns [false] and leaves the registry as it is, without
    raising. On a key with a stored entry it returns [true] and removes
    that entry and no other: the key is then free, every other key
    holds the entry it held, the remaining entries keep their order,
    and there is exactly one entry less. *)
Theorem unregister_removes_exactly (r : ServiceRegistry)
    (n h p : JS.value) :
  Obj.wf (services r) →
  (Obj.get (services r) (_generateKey n h p) = None →
   unregister r n h p = (r, false))
  ∧ (∀ e, Obj.get (services r) (_generateKey n h p) = Some e →
       let r' := fst (unregister r n h p) in
       snd (unregister r n h p) = true
       ∧ Obj.get (services r') (_generateKey n h p) = None
       ∧ (∀ k, k ≠ _generateKey n h p →
               Obj.get (services r') k = Obj.get (services r) k)
       ∧ services r'
         = List.filter
             (λ kv, negb (String.eqb (fst kv) (_generateKey n h p)))
             (services r)
       ∧ (length (getAll r') + 1 = length (getAll r))%nat
       ∧ timeout r' = timeout r ∧ cleanupInterval r' = cleanupInterval r).
Proof.
  intros Hwf. split.
  - intros Hget. unfold unregister. by rewrite Hget.
  - intros e Hget. unfold unregister. rewrite Hget. simpl.
    split; [done|]. split; [by apply obj_get_delete_eq|].
    split; [intros k Hne; by apply obj_get_delete_ne|].
    split; [by apply obj_delete_filter|]. split; [|done].
    unfold getAll, Obj.values. rewrite !length_map.
    by eapply obj_delete_length.
Qed.

Lemma unregister_removes_exactly_witness :
  let r := fst (register (new None None) 0 (JS.Str "api")
                         (JS.Str "localhost") (JS.Num 3001) ∅) in
  unregister r (JS.Str "api") (JS.Str "localhost") (JS.Num 3002)
  = (r, false)
  ∧ snd (unregister r (JS.Str "api") (JS.Str "localhost") (JS.Num 3001))
    = true.
Proof.
  intros r.
  assert (Obj.wf (services r)) as Hwf.
  { apply NoDup_singleton. }
  split.
  - apply (proj1 (unregister_removes_exactly r _ _ _ Hwf)). reflexivity.
  - eapply (proj2 (unregister_removes_exactly r _ _ _ Hwf)). reflexivity.
Defined.

End UnregisterClaim.

(** ** The factory *)

Section FactoryFacts.
Import Factory.

(** A type that is neither a known one nor the name of a property every
    object inherits is rejected before anything is done. *)
Lemma createService_unsupported w f b type o :
  type ≠ "" →
  serviceTypes !! type = None →
  type ∉ JS.object_prototype_names →
  createService w f b type o
  = (f, b, JS.Throw (JS.Error ("Unsupported service type: " +:+ type))).
Proof.
  intros Hne Hknown Hproto. unfold createService, JS.read_literal.
  apply String.eqb_neq in Hne. simpl. rewrite Hne, Hknown. simpl.
  by rewrite bool_decide_false.
Qed.

Lemma createService_empty w f b o :
  createService w f b "" o
  = (f, b, JS.Throw (JS.Error "Service type is required")).
Proof. reflexivity. Qed.

(** Whatever makes [createService] throw, the instance table is the one
    it was called with. *)
Lemma createService_throw_keeps_table w f b type o f' b' e :
  createService w f b type o = (f', b', JS.Throw e) → f' = f.
Proof.
  unfold createService. destruct (negb _); [by intros [= <- _ _]|].
  destruct (JS.read_literal serviceTypes type) as [path| |];
    [| |by intros [= <- _ _]];
    (destruct (_initializeMessageBroker w b type) as [b1 [m|e1]];
     [|by intros [= <- _ _]]).
  - destruct (require path); [done|by intros [= <- _ _]].
  - by intros [= <- _ _].
Qed.

(** The port of the options handed to the service class: the own
    property of the caller's options when there is one, whatever its
    value, and otherwise the default of the type. *)
Lemma serviceOptions_port w m type o :
  serviceOptions w m type o !! "port"
  = Some match o !! "port" with
         | Some v => v
         | None => _getDefaultPort type
         end.
Proof.
  unfold serviceOptions, BaseService.spread_over, BaseService.prop.
  rewrite lookup_union. destruct (o !! "port") as [v|] eqn:Ho; simpl.
  - by rewrite union_Some_l.
  - rewrite (left_id_L None _).
    unfold JS.or. simpl. by simplify_map_eq.
Qed.

(** The port of an instance built by one of the service classes from
    options that have a ["port"] property. *)
Lemma construct_port c o v :
  o !! "port" = Some v →
  BaseService.port (ServiceClass.construct c o) = JS.or v (JS.Num 3000).
Proof.
  intros Ho. unfold ServiceClass.construct, BaseService.constructor,
    BaseService.spread_over, BaseService.prop. simpl.
  rewrite lookup_union, Ho. by rewrite union_Some_l.
Qed.

(** A successful call for a known type returns an instance whose port
    is: the given port when the options have a truthy one; the default
    of the type when they have no ["port"] property; and 3000 when they
    have the property with a falsy value. *)
Lemma createService_port w f b type o f' b' s :
  createService w f b type o = (f', b', JS.Return s) →
  BaseService.port s
  = match o !! "port" with
    | Some v => JS.or v (JS.Num 3000)
    | None => JS.or (_getDefaultPort type) (JS.Num 3000)
    end
  ∧ f' = {| services := <[type +:+ "-" +:+ pretty (now w) := s]> (services f);
            registry := registry f |}.
Proof.
  unfold createService. destruct (negb _); [done|].
  destruct (JS.read_literal serviceTypes type) as [path| |]; [| |done];
    (destruct (_initializeMessageBroker w b type) as [b1 [m|e1]]; [|done]);
    [|done].
  destruct (require path) as [c|]; [|done].
  intros [= <- <- <-]. split; [|done].
  erewrite construct_port by apply serviceOptions_port.
  by destruct (o !! "port").
Qed.

End FactoryFacts.

Section FactoryEvaluation.
Import Factory.

Lemma read_api : JS.read_literal serviceTypes "api" = JS.Own "./api".
Proof. vm_compute. reflexivity. Qed.

Lemma read_otp : JS.read_literal serviceTypes "otp" = JS.Own "./otp".
Proof. vm_compute. reflexivity. Qed.

Lemma read_constructor :
  JS.read_literal serviceTypes "constructor" = JS.Inherited.
Proof. vm_compute. reflexivity. Qed.

(** The options [index.js] passes when no environment is given. *)
Lemma undefined_port_options :
  ({[ "port" := JS.Undefined; "env" := JS.Str "development" ]}
     : gmap string JS.value) !! "port" = Some JS.Undefined.
Proof. vm_compute. reflexivity. Qed.

(** With a [port] property that is [undefined], the instance of type
    [api] gets port 3000; the call fails only if the broker module
    does not load. *)
Lemma createService_api_undefined_port w f b :
  match createService w f b "api"
          {[ "port" := JS.Undefined; "env" := JS.Str "development" ]} with
  | (_, _, JS.Return s) => BaseService.port s = JS.Num 3000
  | (_, _, JS.Throw _) => rabbitmq_loads w = false
  end.
Proof.
  destruct (createService w f b "api" _) as [[f' b'] [s|e]] eqn:Hc.
  - apply createService_port in Hc as [-> _].
    by rewrite undefined_port_options.
  - revert Hc. unfold createService, _initializeMessageBroker.
    rewrite read_api.
    replace (JS.truthy (JS.Str "api")) with true by reflexivity.
    replace (String.eqb "api" "api-gateway") with false by reflexivity.
    replace (require "./api") with (Some ServiceClass.api_config)
      by reflexivity.
    cbn [negb]. by destruct (rabbitmq_loads w).
Qed.

Lemma createService_otp_undefined_port w f b :
  match createService w f b "otp"
          {[ "port" := JS.Undefined; "env" := JS.Str "development" ]} with
  | (_, _, JS.Return s) => BaseService.port s = JS.Num 3000
  | (_, _, JS.Throw _) => rabbitmq_loads w = false
  end.
Proof.
  destruct (createService w f b "otp" _) as [[f' b'] [s|e]] eqn:Hc.
  - apply createService_port in Hc as [-> _].
    by rewrite undefined_port_options.
  - revert Hc. unfold createService, _initializeMessageBroker.
    rewrite read_otp.
    replace (JS.truthy (JS.Str "otp")) with true by reflexivity.
    replace (String.eqb "otp" "api-gateway") with false by reflexivity.
    replace (require "./otp") with (Some ServiceClass.otp_config)
      by reflexivity.
    cbn [negb]. by destruct (rabbitmq_loads w).
Qed.

End FactoryEvaluation.

Section FactoryClaims.
Import Factory.

(** C6, not met by the code. A type that is the name of a property every
    object inherits, such as ["constructor"], is not among the service
    types, yet the test [this.serviceTypes[type]] finds the inherited
    property and lets it pass. The call then initialises the message
    broker and fails only when the value is given to [require], with a
    [TypeError] and not with the unsupported-type error. The instance
    table is unchanged. *)
Theorem createService_inherited_name (w : world) (f : ServiceFactory)
    (b : RabbitmqConfig.t) (o : BaseService.options) :
  serviceTypes !! "constructor" = None
  ∧ createService w f b "constructor" o
    = (if rabbitmq_loads w
       then (f, RabbitmqConfig.connect (argv w) (amqp w) b,
             JS.Throw (JS.TypeError
               "The id argument must be of type string. Received function"))
       else (f, b, JS.Throw (JS.Error "Cannot find module 'amqplib'")))
  ∧ snd (createService w f b "constructor" o)
    ≠ JS.Throw (JS.Error "Unsupported service type: constructor")
  ∧ getAllServices (fst (fst (createService w f b "constructor" o)))
    = getAllServices f.
Proof.
  split; [vm_compute; reflexivity|].
  assert (createService w f b "constructor" o
          = (if rabbitmq_loads w
             then (f, RabbitmqConfig.connect (argv w) (amqp w) b,
                   JS.Throw (JS.TypeError
                     "The id argument must be of type string. Received function"))
             else (f, b, JS.Throw (JS.Error "Cannot find module 'amqplib'"))))
    as Heq.
  { unfold createService, _initializeMessageBroker.
    rewrite read_constructor.
    replace (JS.truthy (JS.Str "constructor")) with true by reflexivity.
    replace (String.eqb "constructor" "api-gateway") with false
      by reflexivity.
    cbn [negb]. by destruct (rabbitmq_loads w). }
  split; [exact Heq|]. rewrite Heq.
  destruct (rabbitmq_loads w); split; (discriminate || reflexivity).
Qed.

(** C7, not met by the code. When the options have a [port] property
    without a usable value, which is how [index.js] calls the factory
    ([{ port, env }] with [port] undefined), the default of the type is
    computed, but the spread of the options that follows writes the
    unusable value over it, and the base constructor falls back to
    3000. The instance of type [api] gets port 3000 where the table has
    3001, the instance of type [otp] 3000 where the table has 3002. *)
Theorem createService_unusable_port (w : world) (f : ServiceFactory)
    (b : RabbitmqConfig.t) :
  let o : BaseService.options :=
    {[ "port" := JS.Undefined; "env" := JS.Str "development" ]} in
  _getDefaultPort "api" = JS.Num 3001
  ∧ _getDefaultPort "otp" = JS.Num 3002
  ∧ match createService w f b "api" o with
    | (_, _, JS.Return s) => BaseService.port s = JS.Num 3000
    | (_, _, JS.Throw _) => rabbitmq_loads w = false
    end
  ∧ match createService w f b "otp" o with
    | (_, _, JS.Return s) => BaseService.port s = JS.Num 3000
    | (_, _, JS.Throw _) => rabbitmq_loads w = false
    end.
Proof.
  intros o. split; [vm_compute; reflexivity|].
  split; [vm_compute; reflexivity|]. split.
  - apply createService_api_undefined_port.
  - apply createService_otp_undefined_port.
Qed.

End FactoryClaims.

(** ** The command line *)

Section CliFacts.
Import Cli.

Lemma scan_keeps_port v arg : port (scan v arg) = port v.
Proof. unfold scan. by repeat case_match. Qed.

Lemma scan_all_keeps_port args v :
  port (fold_left scan args v) = port v.
Proof.
  revert v. induction args as [|a args IH]; intros v; simpl; [done|].
  by rewrite IH, scan_keeps_port.
Qed.

(** Without an argument that starts with [-s=] the script leaves with
    status 1 and the usage line. *)
Lemma run_without_service args :
  Forall (λ a, String.prefix "-s=" a = false) args →
  run args = Exit 1 usage.
Proof.
  intros Hno. unfold run. destruct (length args <? 1)%nat; [done|].
  enough (serviceName (fold_left scan args initial) = JS.Undefined) as ->
    by done.
  assert (serviceName initial = JS.Undefined) as Hinit by done.
  revert Hinit. generalize initial as v.
  induction Hno as [|a args Ha Hno IH]; intros v Hv; simpl; [done|].
  apply IH. unfold scan. rewrite Ha. by destruct (String.prefix "-e=" a).
Qed.

(** Without an argument that starts with [-e=] the environment is
    [development]. *)
Lemma run_default_env args nodeenv type o :
  Forall (λ a, String.prefix "-e=" a = false) args →
  run args = CreateService nodeenv type o →
  nodeenv = "development" ∧ o !! "env" = Some (JS.Str "development").
Proof.
  intros Hno. unfold run. destruct (length args <? 1)%nat; [done|].
  assert (env (fold_left scan args initial) = "development") as Henv.
  { assert (env initial = "development") as Hinit by done.
    revert Hinit. generalize initial as v.
    induction Hno as [|a args Ha Hno IH]; intros v Hv; simpl; [done|].
    apply IH. unfold scan. rewrite Ha. by destruct (String.prefix "-s=" a). }
  destruct (negb _); [done|]. intros [= <- _ <-]. rewrite Henv.
  split; [done|]. by simplify_map_eq.
Qed.

End CliFacts.

Section CliClaim.
Import Cli.

(** C9, not met by the code on the port flag. The argument loop reads
    [-s=] and [-e=] only, so [port] is still [undefined] when the factory
    is called, whatever [-p=] says. Launched with [-s=api -p=4000] the
    script asks for an [api] service with an undefined port, and the
    instance the factory builds has port 3000. Every launch either
    leaves with status 1 or calls the factory with an undefined port. *)
Theorem run_ignores_port_flag :
  run ["-s=api"; "-p=4000"]
  = CreateService "development" (JS.Str "api")
      {[ "port" := JS.Undefined; "env" := JS.Str "development" ]}
  ∧ (∀ args,
       match run args with
       | CreateService _ _ o => o !! "port" = Some JS.Undefined
       | Exit status _ => status = 1
       end)
  ∧ (∀ w f b,
       match run ["-s=api"; "-p=4000"] with
       | CreateService _ type o =>
           match Factory.createService w f b (JS.to_string type) o with
           | (_, _, JS.Return s) => BaseService.port s = JS.Num 3000
           | (_, _, JS.Throw _) => Factory.rabbitmq_loads w = false
           end
       | Exit _ _ => False
       end).
Proof.
  split; [vm_compute; reflexivity|]. split.
  - intros args. unfold run. destruct (length args <? 1)%nat; [done|].
    destruct (negb _); [done|].
    rewrite scan_all_keeps_port. by simplify_map_eq.
  - intros w f b.
    replace (run ["-s=api"; "-p=4000"])
      with (CreateService "development" (JS.Str "api")
              ({[ "port" := JS.Undefined; "env" := JS.Str "development" ]}))
      by (vm_compute; reflexivity).
    apply createService_api_undefined_port.
Qed.

End CliClaim.

(** ** The text of a payload and its reader *)

Section JsonTextFacts.
Import JsonText.

(** Case analysis on a decimal digit [d < 10]. *)
Ltac each_digit d :=
  let H := fresh "Hdigit" in
  assert (d = 0 ∨ d = 1 ∨ d = 2 ∨ d = 3 ∨ d = 4 ∨ d = 5 ∨ d = 6 ∨ d = 7
          ∨ d = 8 ∨ d = 9)%N as H by lia;
  repeat destruct H as [->|H]; subst.

(** Case analysis on the character that a text which [stops] starts
    with. *)
Ltac stop_cases H :=
  apply orb_true_iff in H as [H|H%Ascii.eqb_eq];
  [apply orb_true_iff in H as [H%Ascii.eqb_eq|H%Ascii.eqb_eq]|]; subst.

Lemma digit_value_pretty (d : N) :
  (d < 10)%N → digit_value (pretty_N_char d) = Some (Z.of_N d).
Proof.
  intros Hd. each_digit d; reflexivity.
Qed.

(** Reading the digits [pretty_N_go] has put before [s] multiplies what
    was read so far by a power of ten and adds the number. *)
Lemma read_digits_go (x : N) :
  ∃ k : nat,
    ((0 < x)%N → (0 < k)%nat)
    ∧ ∀ s acc seen,
        read_digits (pretty_N_go x s) acc seen
        = read_digits s (acc * 10 ^ Z.of_nat k + Z.of_N x) (seen + k).
Proof.
  induction (N.lt_wf_0 x) as [x _ IH].
  destruct (decide (x = 0)%N) as [->|Hx].
  - exists 0%nat. split; [lia|]. intros s acc seen.
    rewrite pretty_N_go_0. f_equal; [lia|lia].
  - destruct (IH (x `div` 10)%N) as (k & Hk & Hread).
    { apply N.div_lt; lia. }
    exists (S k). split; [lia|]. intros s acc seen.
    rewrite pretty_N_go_step by lia. rewrite Hread. simpl read_digits.
    rewrite digit_value_pretty by (apply N.mod_lt; lia).
    f_equal; [|lia].
    rewrite Nat2Z.inj_succ, Z.pow_succ_r by lia.
    rewrite N2Z.inj_mod, N2Z.inj_div.
    pose proof (Z.div_mod (Z.of_N x) 10). lia.
Qed.

Lemma pretty_N_go_app (x : N) s t :
  pretty_N_go x s +:+ t = pretty_N_go x (s +:+ t).
Proof.
  revert s. induction (N.lt_wf_0 x) as [x _ IH]. intros s.
  destruct (decide (x = 0)%N) as [->|Hx].
  - by rewrite !pretty_N_go_0.
  - rewrite (pretty_N_go_step x s), (pretty_N_go_step x (s +:+ t)) by lia.
    rewrite IH by (apply N.div_lt; lia). reflexivity.
Qed.

(** The text of a positive number starts with a digit other than zero. *)
Lemma pretty_N_go_head (x : N) s :
  (0 < x)%N →
  ∃ d s', (0 < d < 10)%N ∧ pretty_N_go x s = String.String (pretty_N_char d) s'.
Proof.
  revert s. induction (N.lt_wf_0 x) as [x _ IH]. intros s Hx.
  rewrite pretty_N_go_step by done.
  destruct (decide (x `div` 10 = 0)%N) as [Hq|Hq].
  - rewrite Hq, pretty_N_go_0. exists (x `mod` 10)%N, s. split; [|done].
    pose proof (N.div_mod x 10 ltac:(lia)).
    pose proof (N.mod_lt x 10 ltac:(lia)). lia.
  - apply IH; [apply N.div_lt; lia | by apply N.neq_0_lt_0].
Qed.

Lemma read_digits_stops rest acc seen :
  stops rest = true → read_digits rest acc seen = (acc, seen, rest).
Proof.
  destruct rest as [|c rest]; [done|]. simpl. intros Hc.
  enough (digit_value c = None) as -> by done.
  by stop_cases Hc.
Qed.

(** A number that starts with a digit other than zero. *)
Lemma read_number_digits (d : N) body :
  (0 < d < 10)%N →
  read_number (String.String (pretty_N_char d) body)
  = (let '(n, seen, rest) :=
       read_digits (String.String (pretty_N_char d) body) 0 0 in
     if (seen =? 0)%nat
        || match rest with
           | String.String c _ =>
               Ascii.eqb c "." || Ascii.eqb c "e" || Ascii.eqb c "E"
           | EmptyString => false
           end
     then None else Some (n, rest)).
Proof.
  intros Hd. each_digit d; try lia; unfold read_number;
    cbv beta iota zeta delta [pretty_N_char];
    destruct (read_digits _ 0 0) as [[n seen] rest];
    by rewrite orb_false_r.
Qed.

Lemma read_number_N (x : N) rest :
  (0 < x)%N → stops rest = true →
  read_number (pretty_N_go x rest) = Some (Z.of_N x, rest).
Proof.
  intros Hx Hrest.
  destruct (pretty_N_go_head x rest Hx) as (d & body & Hd & Heq).
  destruct (read_digits_go x) as (k & Hk & Hread).
  rewrite Heq, read_number_digits, <- Heq by done.
  rewrite Hread, read_digits_stops by done.
  replace (0 + k =? 0)%nat with false by (symmetry; apply Nat.eqb_neq; lia).
  simpl. destruct rest as [|c rest]; [f_equal; f_equal; lia|].
  simpl in Hrest. stop_cases Hrest; simpl; f_equal; f_equal; lia.
Qed.

Lemma read_number_neg (d : N) body :
  (0 < d < 10)%N →
  read_number (String.String "-" (String.String (pretty_N_char d) body))
  = match read_number (String.String (pretty_N_char d) body) with
    | Some (n, rest) => Some (- n, rest)
    | None => None
    end.
Proof.
  intros Hd. each_digit d; try lia; unfold read_number;
    cbv beta iota zeta delta [pretty_N_char];
    destruct (read_digits _ 0 0) as [[n seen] rest];
    rewrite ?orb_false_r; by destruct (_ || _).
Qed.

Lemma read_number_pretty (n : Z) rest :
  stops rest = true →
  read_number (pretty n +:+ rest) = Some (n, rest).
Proof.
  intros Hrest. destruct n as [|p|p]; unfold pretty, pretty_Z.
  - change ("0" +:+ rest) with (String.String "0" rest).
    unfold read_number. simpl read_digits. rewrite read_digits_stops by done.
    simpl. destruct rest as [|c rest]; [done|]. simpl in Hrest.
    by stop_cases Hrest.
  - unfold pretty, pretty_positive, pretty, pretty_N.
    destruct (decide (N.pos p = 0%N)) as [?|_]; [done|].
    rewrite pretty_N_go_app. by rewrite read_number_N.
  - unfold pretty, pretty_positive, pretty, pretty_N.
    destruct (decide (N.pos p = 0%N)) as [?|_]; [done|].
    change (read_number
              (String.String "-" (pretty_N_go (N.pos p) "" +:+ rest))
            = Some (Z.neg p, rest)).
    rewrite pretty_N_go_app. change ("" +:+ rest) with rest.
    destruct (pretty_N_go_head (N.pos p) rest ltac:(lia))
      as (d & body & Hd & Heq).
    rewrite Heq, read_number_neg, <- Heq by done.
    by rewrite read_number_N.
Qed.

(** Reading the escape of a character adds the character to what was
    read. *)
Lemma read_chars_escape_char (c : ascii) s acc :
  read_chars (escape_char c +:+ s) acc = read_chars s (String.String c acc).
Proof.
  destruct c as [[] [] [] [] [] [] [] []]; reflexivity.
Qed.

Lemma string_app_assoc (a b c : string) : (a +:+ b) +:+ c = a +:+ (b +:+ c).
Proof.
  induction a as [|x a IH]; [done|].
  change (String.String x ((a +:+ b) +:+ c) = String.String x (a +:+ (b +:+ c))).
  by rewrite IH.
Qed.

Lemma read_chars_escape s rest acc :
  read_chars (escape s +:+ String.String quote rest) acc
  = Some (String.rev (String.rev_app s acc), rest).
Proof.
  revert acc. induction s as [|c s IH]; intros acc.
  - reflexivity.
  - change (escape (String.String c s)) with (escape_char c +:+ escape s).
    rewrite string_app_assoc, read_chars_escape_char, IH. reflexivity.
Qed.

Lemma rev_app_rev_app s a b :
  String.rev_app (String.rev_app s a) b = String.rev_app a (s +:+ b).
Proof.
  revert a. induction s as [|c s IH]; intros a; [done|].
  simpl String.rev_app at 2. by rewrite IH.
Qed.

Lemma string_app_empty_r (s : string) : s +:+ "" = s.
Proof.
  induction s as [|c s IH]; [done|].
  change (String.String c (s +:+ "") = String.String c s). by rewrite IH.
Qed.

Lemma string_rev_rev s : String.rev (String.rev_app s "") = s.
Proof. unfold String.rev. by rewrite rev_app_rev_app, string_app_empty_r. Qed.

Lemma read_chars_print_string s rest :
  read_chars (escape s +:+ String.String quote rest) "" = Some (s, rest).
Proof. by rewrite read_chars_escape, string_rev_rev. Qed.

Lemma pretty_N_char_head (d : N) :
  (d < 10)%N → pretty_N_char d ∈ value_heads.
Proof.
  intros Hd. unfold value_heads. each_digit d; set_solver.
Qed.

Lemma pretty_head (n : Z) :
  ∃ c s, pretty n = String.String c s ∧ c ∈ value_heads
         ∧ (c = "-"%char ∨ ∃ d, (d < 10)%N ∧ c = pretty_N_char d).
Proof.
  destruct n as [|p|p]; unfold pretty, pretty_Z.
  - exists "0"%char, "". split; [done|]. split; [set_solver|].
    right. by exists 0%N.
  - unfold pretty, pretty_positive, pretty, pretty_N.
    destruct (decide (N.pos p = 0%N)) as [?|_]; [done|].
    destruct (pretty_N_go_head (N.pos p) "" ltac:(lia)) as (d & s & Hd & ->).
    exists (pretty_N_char d), s. split; [done|].
    split; [apply pretty_N_char_head; lia|]. right. exists d. split; [lia|done].
  - exists "-"%char, (pretty p). split; [done|]. split; [set_solver|].
    by left.
Qed.

Lemma print_value_head v :
  ∃ c s, print_value v = String.String c s ∧ c ∈ value_heads.
Proof.
  destruct v as [| |[]|n|s|items|fields]; try (eexists _, _; split; [reflexivity|set_solver]).
  destruct (pretty_head n) as (c & s & Heq & Hc & _). by exists c, s.
Qed.

Lemma skip_space_head c s :
  c ∈ value_heads → skip_space (String.String c s) = String.String c s.
Proof.
  unfold value_heads. intros Hc.
  repeat (apply elem_of_cons in Hc as [->|Hc]; [reflexivity|]).
  by apply elem_of_nil in Hc.
Qed.

Lemma skip_space_value v t :
  skip_space (print_value v +:+ t) = print_value v +:+ t.
Proof.
  destruct (print_value_head v) as (c & s & -> & Hc).
  by apply skip_space_head.
Qed.

Lemma string_length_app (a b : string) :
  String.length (a +:+ b) = (String.length a + String.length b)%nat.
Proof.
  induction a as [|x a IH]; [done|].
  change (S (String.length (a +:+ b)) = S (String.length a + String.length b)).
  by rewrite IH.
Qed.

Lemma read_items_unfold f acc s :
  read (S f) (Items acc) s
  = match read f AValue (skip_space s) with
    | Some (v, rest) =>
        match skip_space rest with
        | String.String "," rest' => read f (Items (v :: acc)) rest'
        | String.String "]" rest' =>
            Some (Payload.Array (rev (v :: acc)), rest')
        | _ => None
        end
    | None => None
    end.
Proof. reflexivity. Qed.

Lemma read_fields_unfold f acc s :
  read (S f) (Fields acc) (String.String quote s)
  = match read_chars s "" with
    | Some (k, rest1) =>
        match skip_space rest1 with
        | String.String ":" rest2 =>
            match read f AValue rest2 with
            | Some (v, rest3) =>
                match skip_space rest3 with
                | String.String "," rest4 =>
                    read f (Fields ((k, v) :: acc)) rest4
                | String.String "}" rest4 =>
                    Some (Payload.Object (rev ((k, v) :: acc)), rest4)
                | _ => None
                end
            | None => None
            end
        | _ => None
        end
    | None => None
    end.
Proof. reflexivity. Qed.

Lemma read_array_unfold f c s :
  c ∈ value_heads →
  read (S f) AValue (String.String "[" (String.String c s))
  = read f (Items []) (String.String c s).
Proof.
  unfold value_heads. intros Hc.
  repeat (apply elem_of_cons in Hc as [->|Hc]; [reflexivity|]).
  by apply elem_of_nil in Hc.
Qed.

Lemma read_object_unfold f s :
  read (S f) AValue (String.String "{" (String.String quote s))
  = read f (Fields []) (String.String quote s).
Proof. reflexivity. Qed.

Lemma read_string_unfold f s :
  read (S f) AValue (String.String quote s)
  = match read_chars s "" with
    | Some (str, rest') => Some (Payload.String str, rest')
    | None => None
    end.
Proof. reflexivity. Qed.

Lemma read_number_unfold f c s :
  (c = "-"%char ∨ ∃ d, (d < 10)%N ∧ c = pretty_N_char d) →
  read (S f) AValue (String.String c s)
  = match read_number (String.String c s) with
    | Some (n, rest') => Some (Payload.Number n, rest')
    | None => None
    end.
Proof.
  intros [->|(d & Hd & ->)]; [reflexivity|]. each_digit d; reflexivity.
Qed.

(** Induction on a payload, with the property in hand for the items of
    an array and the values of the fields of an object. *)
Lemma payload_ind (P : Payload.value → Prop) :
  P Payload.Undefined → P Payload.Null →
  (∀ b, P (Payload.Bool b)) → (∀ n, P (Payload.Number n)) →
  (∀ s, P (Payload.String s)) →
  (∀ items, Forall P items → P (Payload.Array items)) →
  (∀ fields, Forall (λ kv, P (snd kv)) fields → P (Payload.Object fields)) →
  ∀ v, P v.
Proof.
  intros HU HN HB HNum HS HA HO.
  fix IH 1. intros [| |b|n|s|items|fields].
  - exact HU.
  - exact HN.
  - apply HB.
  - apply HNum.
  - apply HS.
  - apply HA.
    exact ((fix all (l : list Payload.value) : Forall P l :=
              match l with
              | [] => ltac:(constructor)
              | x :: l' => ltac:(constructor; [exact (IH x) | exact (all l')])
              end) items).
  - apply HO.
    exact ((fix all (l : list (string * Payload.value))
              : Forall (λ kv, P (snd kv)) l :=
              match l with
              | [] => ltac:(constructor)
              | (k, x) :: l' =>
                  ltac:(constructor; [exact (IH x) | exact (all l')])
              end) fields).
Qed.

Lemma print_value_length v : (1 ≤ String.length (print_value v))%nat.
Proof.
  destruct (print_value_head v) as (c & s & -> & _). simpl. lia.
Qed.

Lemma read_items items :
  Forall reads_back items → forallb defined_throughout items = true →
  items ≠ [] →
  ∀ acc fuel rest,
    (String.length (join "," (map print_value items)) < fuel)%nat →
    read fuel (Items acc) (join "," (map print_value items) +:+ "]" +:+ rest)
    = Some (Payload.Array (rev acc ++ items), rest).
Proof.
  induction 1 as [|v items Hv Hitems IH]; [done|].
  intros Hdef _ acc fuel rest Hfuel. simpl in Hdef.
  apply andb_true_iff in Hdef as [Hdv Hdef].
  destruct fuel as [|f]; [lia|]. rewrite read_items_unfold.
  destruct items as [|w items].
  - simpl map in *. simpl join in *.
    rewrite skip_space_value, (Hv Hdv) by (done || lia).
    change (skip_space ("]" +:+ rest)) with (String.String "]" rest).
    reflexivity.
  - change (join "," (map print_value (v :: w :: items)))
      with (print_value v +:+ "," +:+ join "," (map print_value (w :: items)))
      in *.
    rewrite !string_length_app in Hfuel.
    change (String.length ",") with 1%nat in Hfuel.
    rewrite !string_app_assoc.
    rewrite skip_space_value, (Hv Hdv) by (done || lia).
    change (skip_space ("," +:+ ?x)) with (String.String "," x).
    cbv beta iota. 
    change (skip_space ("," +:+ join "," (map print_value (w :: items))
                        +:+ "]" +:+ rest))
      with (String.String ","
              (join "," (map print_value (w :: items)) +:+ "]" +:+ rest)).
    cbv beta iota.
    rewrite IH by (done || lia). simpl. by rewrite <- app_assoc.
Qed.

Lemma members_defined fields :
  forallb (λ kv, let '(_, x) := kv in defined_throughout x) fields = true →
  members_with print_value fields
  = map (λ kv, print_string (fst kv) +:+ ":" +:+ print_value (snd kv)) fields.
Proof.
  induction fields as [|[k x] fields IH]; [done|]. simpl.
  intros [Hx Hrest]%andb_true_iff.
  assert (is_defined x = true) as -> by (by destruct x).
  by rewrite IH.
Qed.

Lemma field_text_shape k x t :
  field_text (k, x) +:+ t
  = String.String quote
      (escape k +:+ String.String quote (":" +:+ print_value x +:+ t)).
Proof.
  unfold field_text, print_string. simpl fst. simpl snd.
  change (String.String quote (escape k +:+ String.String quote "")
          +:+ ":" +:+ print_value x)
    with (String.String quote
            ((escape k +:+ String.String quote "")
             +:+ ":" +:+ print_value x)).
  change (String.String quote ?a +:+ t) with (String.String quote (a +:+ t)).
  rewrite !string_app_assoc. reflexivity.
Qed.

Lemma field_text_length k x :
  (String.length (print_value x) < String.length (field_text (k, x)))%nat.
Proof.
  unfold field_text, print_string. simpl fst. simpl snd.
  rewrite !string_length_app. simpl String.length. lia.
Qed.

Lemma read_fields fields :
  Forall (λ kv, reads_back (snd kv)) fields →
  forallb (λ kv, let '(_, x) := kv in defined_throughout x) fields = true →
  fields ≠ [] →
  ∀ acc fuel rest,
    (String.length (join "," (map field_text fields)) < fuel)%nat →
    read fuel (Fields acc) (join "," (map field_text fields) +:+ "}" +:+ rest)
    = Some (Payload.Object (rev acc ++ fields), rest).
Proof.
  induction 1 as [|[k x] fields Hx Hfields IH]; [done|].
  intros Hdef _ acc fuel rest Hfuel. simpl in Hdef, Hx.
  apply andb_true_iff in Hdef as [Hdx Hdef].
  destruct fuel as [|f]; [lia|].
  pose proof (field_text_length k x) as Hlen.
  destruct fields as [|kv fields].
  - change (join "," (map field_text [(k, x)])) with (field_text (k, x)) in *.
    rewrite field_text_shape, read_fields_unfold, read_chars_print_string.
    change (skip_space (":" +:+ ?y)) with (String.String ":" y).
    cbv beta iota.
    rewrite (Hx Hdx) by (done || lia).
    change (skip_space ("}" +:+ rest)) with (String.String "}" rest).
    simpl. done.
  - change (join "," (map field_text ((k, x) :: kv :: fields)))
      with (field_text (k, x) +:+ ","
            +:+ join "," (map field_text (kv :: fields))) in *.
    rewrite !string_length_app in Hfuel.
    change (String.length ",") with 1%nat in Hfuel.
    rewrite !string_app_assoc.
    rewrite field_text_shape, read_fields_unfold, read_chars_print_string.
    change (skip_space (":" +:+ ?y)) with (String.String ":" y).
    cbv beta iota.
    rewrite (Hx Hdx) by (done || lia).
    change (skip_space ("," +:+ ?y)) with (String.String "," y).
    cbv beta iota.
    rewrite IH by (done || lia). simpl. by rewrite <- app_assoc.
Qed.

Lemma reads_back_all v : reads_back v.
Proof.
  induction v as [| |b|n|s|items IH|fields IH] using payload_ind;
    intros Hdef fuel rest Hfuel Hrest.
  - done.
  - destruct fuel as [|f]; [simpl in Hfuel; lia|]. reflexivity.
  - destruct fuel as [|f]; [destruct b; simpl in Hfuel; lia|].
    by destruct b.
  - pose proof (print_value_length (Payload.Number n)).
    destruct fuel as [|f]; [lia|]. simpl print_value in *.
    destruct (pretty_head n) as (c & s & Heq & _ & Hc).
    rewrite Heq.
    change (String.String c s +:+ rest) with (String.String c (s +:+ rest)).
    rewrite read_number_unfold by done.
    change (String.String c (s +:+ rest)) with (String.String c s +:+ rest).
    rewrite <- Heq. by rewrite read_number_pretty.
  - destruct fuel as [|f]; [simpl in Hfuel; lia|].
    simpl print_value. unfold print_string.
    change (String.String quote (escape s +:+ String.String quote "") +:+ rest)
      with (String.String quote
              ((escape s +:+ String.String quote "") +:+ rest)).
    rewrite string_app_assoc.
    change (String.String quote "" +:+ rest) with (String.String quote rest).
    by rewrite read_string_unfold, read_chars_print_string.
  - simpl in Hdef.
    destruct fuel as [|f]; [simpl in Hfuel; lia|].
    destruct items as [|x items]; [reflexivity|].
    change (print_value (Payload.Array (x :: items)))
      with ("[" +:+ join "," (map print_value (x :: items)) +:+ "]") in *.
    rewrite !string_length_app in Hfuel.
    change (String.length "[") with 1%nat in Hfuel.
    change (String.length "]") with 1%nat in Hfuel.
    rewrite !string_app_assoc.
    change ("[" +:+ ?y) with (String.String "[" y).
    assert (∃ c s, join "," (map print_value (x :: items)) +:+ "]" +:+ rest
                   = String.String c s ∧ c ∈ value_heads)
      as (c & s & Heq & Hc).
    { destruct (print_value_head x) as (c & s & Hx & Hc).
      destruct items as [|y items].
      - change (join "," (map print_value [x])) with (print_value x).
        rewrite Hx. exists c. eexists. split; [reflexivity|done].
      - change (join "," (map print_value (x :: y :: items)))
          with (print_value x +:+ ","
                +:+ join "," (map print_value (y :: items))).
        rewrite Hx. exists c. eexists. split; [reflexivity|done]. }
    rewrite Heq, read_array_unfold, <- Heq by done.
    by rewrite read_items by (done || lia).
  - simpl in Hdef.
    destruct fuel as [|f]; [simpl in Hfuel; lia|].
    destruct fields as [|[k x] fields]; [reflexivity|].
    change (print_value (Payload.Object ((k, x) :: fields)))
      with ("{" +:+ join ","
                      (members_with print_value ((k, x) :: fields)) +:+ "}")
      in *.
    rewrite members_defined in * by done.
    fold field_text in *.
    rewrite !string_length_app in Hfuel.
    change (String.length "{") with 1%nat in Hfuel.
    change (String.length "}") with 1%nat in Hfuel.
    rewrite !string_app_assoc.
    change ("{" +:+ ?y) with (String.String "{" y).
    assert (∃ s, join "," (map field_text ((k, x) :: fields)) +:+ "}" +:+ rest
                 = String.String quote s) as (s & Heq).
    { destruct fields as [|kv fields].
      - change (join "," (map field_text [(k, x)])) with (field_text (k, x)).
        rewrite field_text_shape. eexists. reflexivity.
      - change (join "," (map field_text ((k, x) :: kv :: fields)))
          with (field_text (k, x) +:+ ","
                +:+ join "," (map field_text (kv :: fields))).
        rewrite !string_app_assoc, field_text_shape. eexists. reflexivity. }
    rewrite Heq, read_object_unfold, <- Heq.
    by rewrite read_fields by (done || lia).
Qed.

(** Every payload without [undefined] is read back from its text. *)
Lemma read_text_print v :
  defined_throughout v = true → read_text (print_value v) = Some v.
Proof.
  intros Hdef. unfold read_text.
  rewrite <- (string_app_empty_r (print_value v)) at 2.
  rewrite (reads_back_all v Hdef) by (done || lia). done.
Qed.

End JsonTextFacts.

(** ** Consuming and publishing *)

Section MessagingFacts.
Import Messaging MessagingProps.
Context {json : JSON}.

Lemma on_message_resolves w callback m :
  callback (decode (Buffer_toString (content m))) m = Resolves →
  ack_raises w = None →
  on_message w callback (Some m)
  = ([Handler (decode (Buffer_toString (content m))) m; Chan (Ack m)],
     JS.Return ()).
Proof. intros Hcb Hack. unfold on_message. by rewrite Hcb, Hack. Qed.

Lemma on_message_rejects w callback m e :
  callback (decode (Buffer_toString (content m))) m = Rejects e →
  nack_raises w = None →
  on_message w callback (Some m) = (failed_attempt m, JS.Return ()).
Proof. intros Hcb Hnack. unfold on_message. by rewrite Hcb, Hnack. Qed.

Lemma without_tag_idemp tag l :
  without_tag tag (without_tag tag l) = without_tag tag l.
Proof.
  unfold without_tag. rewrite filter_twice. apply filter_ext.
  intros m. by destruct (negb _).
Qed.

(** One delivery to a failing handler puts the message back at the head
    of the queue. *)
Lemma deliveries_failing_step n w callback m rest held :
  (∀ arg msg, ∃ e, callback arg msg = Rejects e) →
  nack_raises w = None →
  deliveries (S n) w callback {| ready := m :: rest; unacked := held |}
  = (let '(q, evs) :=
       deliveries n w callback
         {| ready := requeued m :: rest;
            unacked := without_tag (deliveryTag m) held |} in
     (q, (failed_attempt m ++ evs)%list)).
Proof.
  intros Hfail Hnack. cbn [deliveries ready unacked].
  destruct (Hfail (decode (Buffer_toString (content m))) m) as [e He].
  rewrite (on_message_rejects _ _ _ _ He Hnack). simpl.
  unfold has_tag, without_tag. simpl. rewrite Nat.eqb_refl. simpl.
  fold (requeued m). by destruct (deliveries n w callback _).
Qed.

Lemma deliveries_failing n w callback m rest held :
  (∀ arg msg, ∃ e, callback arg msg = Rejects e) →
  nack_raises w = None →
  deliveries (S n) w callback {| ready := m :: rest; unacked := held |}
  = ({| ready := requeued m :: rest;
        unacked := without_tag (deliveryTag m) held |},
     (failed_attempt m
        ++ concat (replicate n (failed_attempt (requeued m))))%list).
Proof.
  intros Hfail Hnack. revert m held.
  induction n as [|n IH]; intros m held.
  - by rewrite deliveries_failing_step.
  - rewrite deliveries_failing_step by done. rewrite IH. simpl.
    by rewrite without_tag_idemp.
Qed.

Lemma failed_attempt_no_ack m : existsb is_ack (failed_attempt m) = false.
Proof. reflexivity. Qed.

End MessagingFacts.

Section ConsumerClaim.
Import Messaging MessagingProps.

(** C8. The consumer that [consumeFromQueue] installs, on each message:
    when the handler resolves (and the channel takes the call), the
    message is acknowledged, once, and not rejected; when the handler
    throws, the message is rejected with requeue, and not
    acknowledged. With a handler that always throws, however many
    deliveries are made, the message is back at the head of the queue
    after each one, the consumer has answered every delivery with a
    requeueing rejection, and no acknowledgement has occurred. *)
Theorem consumer_acks_or_requeues {json : JSON} (w : channel_world)
    (callback : Payload.value → message → settled) :
  (∀ m,
     callback (decode (Buffer_toString (content m))) m = Resolves →
     ack_raises w = None →
     on_message w callback (Some m)
     = ([Handler (decode (Buffer_toString (content m))) m; Chan (Ack m)],
        JS.Return ()))
  ∧ (∀ m e,
       callback (decode (Buffer_toString (content m))) m = Rejects e →
       nack_raises w = None →
       on_message w callback (Some m)
       = ([Handler (decode (Buffer_toString (content m))) m;
           Chan (Nack m false true)], JS.Return ())
       ∧ existsb is_ack (fst (on_message w callback (Some m))) = false)
  ∧ ((∀ arg msg, ∃ e, callback arg msg = Rejects e) →
     nack_raises w = None →
     ∀ n m rest held,
       let '(q, evs) :=
         deliveries (S n) w callback
                    {| ready := m :: rest; unacked := held |} in
       ready q = requeued m :: rest
       ∧ evs = (failed_attempt m
                 ++ concat (replicate n (failed_attempt (requeued m))))%list
       ∧ existsb is_ack evs = false).
Proof.
  split; [intros; by apply on_message_resolves|]. split.
  - intros m e Hcb Hnack. by rewrite (on_message_rejects _ _ _ _ Hcb Hnack).
  - intros Hfail Hnack n m rest held.
    rewrite deliveries_failing by done. split; [done|]. split; [done|].
    rewrite existsb_app, failed_attempt_no_ack. simpl.
    induction n as [|n IH]; [done|]. simpl. done.
Qed.

Lemma consumer_acks_or_requeues_witness :
  let w := {| assertQueue_raises := None; ack_raises := None;
              nack_raises := None; sendToQueue_returns := true |} in
  let m := {| content := Buffer_from "{}"; deliveryTag := 1;
              redelivered := false |} in
  let failing := λ (_ : Payload.value) (_ : message),
                   Rejects (JS.Error "handler failed") in
  fst (@on_message JsonText.codec w (λ _ _, Resolves) (Some m))
  = [Handler (Payload.Object []) m; Chan (Ack m)]
  ∧ fst (@on_message JsonText.codec w failing (Some m))
    = [Handler (Payload.Object []) m; Chan (Nack m false true)]
  ∧ existsb is_ack
      (snd (@deliveries JsonText.codec 3 w failing
              {| ready := [m]; unacked := [] |})) = false.
Proof.
  intros w m failing.
  destruct (@consumer_acks_or_requeues JsonText.codec w (λ _ _, Resolves))
    as (Hack & _).
  destruct (@consumer_acks_or_requeues JsonText.codec w failing)
    as (_ & Hnack & Hloop).
  split; [|split].
  - rewrite (Hack m); reflexivity.
  - rewrite (proj1 (Hnack m (JS.Error "handler failed") eq_refl eq_refl)).
    reflexivity.
  - pose proof (Hloop (λ _ _, ex_intro _ (JS.Error "handler failed") eq_refl)
                  eq_refl 2%nat m [] []) as Hrun.
    destruct (@deliveries JsonText.codec 3 w _ _) as [q evs].
    exact (proj2 (proj2 Hrun)).
Defined.

End ConsumerClaim.

Section RoundTripClaim.
Import Messaging MessagingProps.

Lemma buffer_round_trip (s : string) : Buffer_toString (Buffer_from s) = s.
Proof. apply string_of_list_ascii_of_string. Qed.

(** The handler is the first thing the consumer calls, with the decoded
    content and the delivery. *)
Lemma on_message_calls_handler {json : JSON} w callback m :
  head (fst (on_message w callback (Some m)))
  = Some (Handler (decode (Buffer_toString (content m))) m).
Proof.
  unfold on_message.
  destruct (callback _ m); [destruct (ack_raises w)|]; done.
Qed.

(** With a channel and no failure in asserting the queue,
    [publishToQueue] ends by sending the serialized message. *)
Lemma publishToQueue_sends {json : JSON} w s q m opts text :
  JS.truthy (BaseService.channel s) = true →
  assertQueue_raises w = None →
  serialize m = Some text →
  ∃ s' evs,
    publishToQueue w s q m opts
    = (s',
       (evs ++ [Chan (SendToQueue q (Buffer_from text)
                        (opts ∪ {[ "persistent" := JS.Bool true ]}))])%list,
       JS.Return (sendToQueue_returns w)).
Proof.
  intros Hch Hassert Hser. unfold publishToQueue, ensure_queue, registerQueue.
  rewrite Hch, Hassert, Hser. cbn [negb].
  destruct (JS.read_literal (BaseService.queues s) q); eauto.
Qed.

(** Whatever the platform's encoding is: a message that is not a string
    and that the encoding gives back is published as its encoding and
    handed to the handler as a value equal to it; a string is published
    as it is; a content that does not decode is handed over as the raw
    string. *)
Lemma round_trip_through_queue {json : JSON} :
  (∀ m, (∀ s, m ≠ Payload.String s) → representable m →
     ∃ text,
       serialize m = Some text
       ∧ decode (Buffer_toString (Buffer_from text)) = m
       ∧ (∀ w s q opts,
            JS.truthy (BaseService.channel s) = true → assertQueue_raises w = None →
            ∃ s' evs,
              publishToQueue w s q m opts
              = (s',
                 (evs ++ [Chan (SendToQueue q (Buffer_from text)
                            (opts ∪ {[ "persistent" := JS.Bool true ]}))])%list,
                 JS.Return (sendToQueue_returns w)))
       ∧ (∀ w callback tag again,
            let msg := {| content := Buffer_from text; deliveryTag := tag;
                          redelivered := again |} in
            head (fst (on_message w callback (Some msg)))
            = Some (Handler m msg)))
  ∧ (∀ s, serialize (Payload.String s) = Some s
          ∧ ∀ w sv q opts,
              JS.truthy (BaseService.channel sv) = true → assertQueue_raises w = None →
              ∃ s' evs,
                publishToQueue w sv q (Payload.String s) opts
                = (s',
                   (evs ++ [Chan (SendToQueue q (Buffer_from s)
                              (opts ∪ {[ "persistent" := JS.Bool true ]}))])%list,
                   JS.Return (sendToQueue_returns w)))
  ∧ (∀ text, parse text = None →
       decode text = Payload.String text
       ∧ ∀ w callback tag again,
           let msg := {| content := Buffer_from text; deliveryTag := tag;
                         redelivered := again |} in
           head (fst (on_message w callback (Some msg)))
           = Some (Handler (Payload.String text) msg)).
Proof.
  split; [|split].
  - intros m Hnostr (text & Hs & Hp). exists text.
    assert (serialize m = Some text) as Hser.
    { destruct m; try done. by destruct (Hnostr s). }
    assert (decode (Buffer_toString (Buffer_from text)) = m) as Hdec.
    { rewrite buffer_round_trip. unfold decode. by rewrite Hp. }
    split; [done|]. split; [done|]. split.
    + intros w s q opts Hch Hassert. by apply publishToQueue_sends.
    + intros w callback tag again msg.
      rewrite on_message_calls_handler. subst msg. simpl. by rewrite Hdec.
  - intros s. split; [done|].
    intros w sv q opts Hch Hassert. by apply publishToQueue_sends.
  - intros text Hp.
    assert (decode text = Payload.String text) as Hdec.
    { unfold decode. by rewrite Hp. }
    split; [done|]. intros w callback tag again msg.
    rewrite on_message_calls_handler. subst msg. simpl.
    by rewrite buffer_round_trip, Hdec.
Qed.

(** With the text of the payloads as the encoding, every payload without
    [undefined] in it is given back. *)
Lemma text_representable (m : Payload.value) :
  JsonText.defined_throughout m = true → @representable JsonText.codec m.
Proof.
  intros Hdef. exists (JsonText.print_value m). split.
  - simpl. unfold JsonText.print. by destruct m.
  - by apply read_text_print.
Qed.

(** C10. A message that is not a string and that the structured
    encoding gives back is published as its encoding, and a consumer
    that receives those bytes calls its handler with a value equal to
    the message. A string is published as it is. A content that does
    not decode reaches the handler as the raw string, and nothing is
    raised by the decoding. This holds whatever the platform's encoding
    is; with the text format of the payloads as the encoding, the
    messages given back are all those in which nothing is
    [undefined]. *)
Theorem publish_consume_round_trip :
  (∀ json : JSON,
     (∀ m, (∀ s, m ≠ Payload.String s) → representable m →
        ∃ text,
          serialize m = Some text
          ∧ decode (Buffer_toString (Buffer_from text)) = m
          ∧ (∀ w s q opts,
               JS.truthy (BaseService.channel s) = true →
               assertQueue_raises w = None →
               ∃ s' evs,
                 publishToQueue w s q m opts
                 = (s',
                    (evs ++ [Chan (SendToQueue q (Buffer_from text)
                               (opts ∪ {[ "persistent" := JS.Bool true ]}))])%list,
                    JS.Return (sendToQueue_returns w)))
          ∧ (∀ w callback tag again,
               let msg := {| content := Buffer_from text; deliveryTag := tag;
                             redelivered := again |} in
               head (fst (on_message w callback (Some msg)))
               = Some (Handler m msg)))
     ∧ (∀ s, serialize (Payload.String s) = Some s
             ∧ ∀ w sv q opts,
                 JS.truthy (BaseService.channel sv) = true →
                 assertQueue_raises w = None →
                 ∃ s' evs,
                   publishToQueue w sv q (Payload.String s) opts
                   = (s',
                      (evs ++ [Chan (SendToQueue q (Buffer_from s)
                                 (opts ∪ {[ "persistent" := JS.Bool true ]}))])%list,
                      JS.Return (sendToQueue_returns w)))
     ∧ (∀ text, parse text = None →
          decode text = Payload.String text
          ∧ ∀ w callback tag again,
              let msg := {| content := Buffer_from text; deliveryTag := tag;
                            redelivered := again |} in
              head (fst (on_message w callback (Some msg)))
              = Some (Handler (Payload.String text) msg)))
  ∧ (∀ m, JsonText.defined_throughout m = true →
          (∀ s, m ≠ Payload.String s) →
          @serialize JsonText.codec m = Some (JsonText.print_value m)
          ∧ @decode JsonText.codec
              (Buffer_toString (Buffer_from (JsonText.print_value m))) = m).
Proof.
  split; [intros json; apply round_trip_through_queue|].
  intros m Hdef Hnostr.
  destruct (text_representable m Hdef) as (text & Hs & Hp).
  simpl in Hs. unfold JsonText.print in Hs.
  assert (text = JsonText.print_value m) as ->.
  { destruct (JsonText.is_defined m); congruence. }
  split.
  - destruct m; try done. by destruct (Hnostr s).
  - rewrite buffer_round_trip. unfold decode. by rewrite Hp.
Qed.

Lemma publish_consume_round_trip_witness :
  (∃ text,
     @serialize JsonText.codec sample_request = Some text
     ∧ @decode JsonText.codec (Buffer_toString (Buffer_from text))
       = sample_request)
  ∧ @decode JsonText.codec
      (Buffer_toString (Buffer_from (JsonText.print_value sample_request)))
    = sample_request
  ∧ @decode JsonText.codec "{oops" = Payload.String "{oops".
Proof.
  destruct publish_consume_round_trip as (Hany & Htext).
  destruct (Hany JsonText.codec) as (Hrt & _ & Hraw). split; [|split].
  - destruct (Hrt sample_request) as (text & Hser & Hdec & _).
    + intros s. discriminate.
    + eexists. split; [vm_compute; reflexivity|]. vm_compute; reflexivity.
    + exists text. split; assumption.
  - apply Htext; [reflexivity|]. intros s. discriminate.
  - apply Hraw. vm_compute. reflexivity.
Defined.

(** A string that happens to be the text of another value does not come
    back as a string: published as it is, the consumer decodes it. *)
Lemma string_message_decoded :
  @serialize JsonText.codec (Payload.String "42") = Some "42"
  ∧ @decode JsonText.codec "42" = Payload.Number 42.
Proof. split; vm_compute; reflexivity. Qed.

End RoundTripClaim.

(** * Further properties of the code *)

(** ** The registry under runs of calls *)

Section RegistryRuns.
Import Registry Props RegistryOps.

Lemma entry_ok_renewed k e now :
  entry_ok (k, e) → entry_ok (k, set_timestamp e now).
Proof. by intros (?&?&?&?&?&?). Qed.

Lemma consistent_register r now n h p md :
  consistent r → consistent (fst (register r now n h p md)).
Proof.
  intros [Hwf Hok]. unfold register.
  destruct (JS.truthy n) eqn:Hn; [|done].
  destruct (JS.truthy h) eqn:Hh; [|done].
  destruct (JS.truthy p) eqn:Hp; [|done]. cbn [negb orb].
  rewrite Forall_forall in Hok.
  destruct (Obj.get (services r) (_generateKey n h p)) as [e|] eqn:Hget;
    (split; [by apply obj_wf_set|]); apply Forall_forall; intros kv Hin;
    apply obj_set_elem in Hin as [->|Hin]; try by apply Hok.
  - apply entry_ok_renewed, Hok. by apply obj_get_Some_elem.
  - by repeat split.
Qed.

Lemma consistent_unregister r n h p :
  consistent r → consistent (fst (unregister r n h p)).
Proof.
  intros [Hwf Hok]. unfold unregister.
  destruct (Obj.get (services r) (_generateKey n h p)); [|done].
  split; [by apply obj_wf_delete|]. rewrite Forall_forall in Hok.
  apply Forall_forall. intros kv Hin%obj_delete_elem. by apply Hok.
Qed.

Lemma consistent_cleanup r now :
  consistent r → consistent (fst (cleanup r now)).
Proof.
  intros [Hwf Hok]. unfold consistent.
  rewrite cleanup_services by done. split; [by apply obj_wf_filter|].
  rewrite Forall_forall in Hok. apply Forall_forall.
  intros kv [Hin _]%list_elem_of_In%filter_In.
  by apply Hok, list_elem_of_In.
Qed.

Lemma consistent_apply r o : consistent r → consistent (apply r o).
Proof.
  destruct o; simpl.
  - apply consistent_register.
  - apply consistent_unregister.
  - apply consistent_cleanup.
Qed.

Lemma settings_apply r o :
  timeout (apply r o) = timeout r
  ∧ cleanupInterval (apply r o) = cleanupInterval r.
Proof.
  destruct o as [now n h p md|n h p|now]; simpl.
  - unfold register. destruct (_ || _); [done|]. by destruct (Obj.get _ _).
  - unfold unregister. by destruct (Obj.get _ _).
  - done.
Qed.

(** X1. Whatever calls are made on a registry, in whatever order, it
    stays consistent: no key is stored twice, and every stored entry
    sits under its own key, which is the key of its own name, host and
    port, has the url made of its host and port, and has a truthy name,
    host and port. The timeout and the sweep interval never change. *)
Theorem run_keeps_registry_consistent (ops : list op)
    (opt_timeout opt_cleanupInterval : option Z) :
  let r := run ops (new opt_timeout opt_cleanupInterval) in
  consistent r
  ∧ timeout r = timeout (new opt_timeout opt_cleanupInterval)
  ∧ cleanupInterval r
    = cleanupInterval (new opt_timeout opt_cleanupInterval).
Proof.
  cbv zeta.
  assert (consistent (new opt_timeout opt_cleanupInterval)) as Hnew
    by (split; [apply NoDup_nil_2 | constructor]).
  revert Hnew. generalize (new opt_timeout opt_cleanupInterval) as r.
  unfold run. induction ops as [|o ops IH]; intros r Hr; simpl; [done|].
  destruct (IH (apply r o) (consistent_apply r o Hr)) as (Hc & Ht & Hi).
  destruct (settings_apply r o) as [Ht' Hi'].
  split; [done|]. split; congruence.
Qed.

Lemma obj_delete_set_absent {V} (o : Obj.t V) k v :
  Obj.get o k = None → Obj.delete (Obj.set o k v) k = o.
Proof.
  induction o as [|[k' v'] o IH]; simpl.
  - by rewrite String.eqb_refl.
  - destruct (String.eqb k' k) eqn:Heq; [done|]. intros Hget. simpl.
    by rewrite Heq, IH.
Qed.

Lemma with_services_same r : with_services r (services r) = r.
Proof. by destruct r. Qed.

Lemma with_services_same_settings r x :
  with_services (with_services r x) (services r) = r.
Proof. by destruct r. Qed.

(** X2. Registering under a key that is free and then unregistering the
    same name, host and port gives back the registry exactly as it was:
    the same entries in the same order, the same settings; and
    [unregister] reports [true]. *)
Theorem register_then_unregister_restores (r : ServiceRegistry) (now : Z)
    (n h p : JS.value) (md : gmap string JS.value) :
  JS.truthy n && JS.truthy h && JS.truthy p = true →
  Obj.get (services r) (_generateKey n h p) = None →
  unregister (fst (register r now n h p md)) n h p = (r, true).
Proof.
  intros Hvalid Hfree.
  destruct (register_fresh r now n h p md Hvalid Hfree) as (e & -> & _).
  unfold unregister. simpl. rewrite obj_get_set_eq.
  rewrite obj_delete_set_absent by done.
  by destruct r.
Qed.

Lemma register_then_unregister_restores_witness :
  unregister
    (fst (register (new None None) 5 (JS.Str "api") (JS.Str "localhost")
                   (JS.Num 3001) ∅))
    (JS.Str "api") (JS.Str "localhost") (JS.Num 3001)
  = (new None None, true).
Proof.
  apply (register_then_unregister_restores (new None None) 5
           (JS.Str "api") (JS.Str "localhost") (JS.Num 3001) ∅);
    reflexivity.
Defined.

End RegistryRuns.

(** ** Lookup after registration and after the sweep *)

Section LookupFacts.
Import Registry Props.

Lemma findAll_elem r now n e :
  e ∈ findAll r now n
  ↔ e ∈ getAll r ∧ name e = n ∧ now - timestamp e ≤ timeout r.
Proof.
  unfold findAll, getAll.
  rewrite !list_elem_of_In, filter_In, live_and_named_spec.
  by rewrite bool_decide_eq_true.
Qed.

Lemma find_not_null r now random n e :
  e ∈ findAll r now n → find r now random n ≠ FoundNull.
Proof.
  intros Hin. unfold find.
  destruct (findAll r now n) as [|e0 l]; [by apply elem_of_nil in Hin|].
  simpl. destruct (_ <? 0); [done|]. by destruct (nth_error _ _).
Qed.

Lemma obj_get_values {V} (o : Obj.t V) k v :
  Obj.get o k = Some v → v ∈ Obj.values o.
Proof.
  intros Hin%obj_get_Some_elem. unfold Obj.values.
  apply list_elem_of_fmap. by exists (k, v).
Qed.


(** X3. A registration is visible for the length of the timeout and no
    longer: the entry [register] returns at time [t] is listed by
    [findAll] under its name at a time [now] exactly when
    [now - t] is at most the timeout, and as long as it is, [find] does
    not answer [null] for that name. On a key that was free the entry
    carries the name, host and port that were given. Nothing in the
    registry renews it but another [register] of the same key. *)
Theorem registration_visible_for_timeout (r r' : ServiceRegistry)
    (t now : Z) (n h p : JS.value) (md : gmap string JS.value)
    (e : ServiceEntry) :
  register r t n h p md = (r', JS.Return e) →
  (e ∈ findAll r' now (name e) ↔ now - t ≤ timeout r)
  ∧ (now - t ≤ timeout r →
     ∀ random, find r' now random (name e) ≠ FoundNull)
  ∧ (Obj.get (services r) (_generateKey n h p) = None →
     name e = n ∧ host e = h ∧ port e = p ∧ metadata e = md).
Proof.
  intros Hreg.
  assert (JS.truthy n && JS.truthy h && JS.truthy p = true) as Hvalid.
  { destruct (JS.truthy n && JS.truthy h && JS.truthy p) eqn:Hv; [done|].
    rewrite register_invalid in Hreg by done. by inversion Hreg. }
  destruct (register_stores r t n h p md Hvalid) as (e' & Heq & Hts & _).
  rewrite Heq in Hreg. injection Hreg as <- <-.
  assert (e' ∈ findAll (with_services r
                          (Obj.set (services r) (_generateKey n h p) e'))
                       now (name e')
          ↔ now - t ≤ timeout r) as Hiff.
  { rewrite findAll_elem, Hts. simpl. split; [by intros (_ & _ & ?)|].
    intros Hlive. split; [|done]. unfold getAll. simpl.
    eapply obj_get_values, obj_get_set_eq. }
  split; [done|]. split.
  - intros Hlive random. eapply find_not_null. by apply Hiff.
  - intros Hfree.
    destruct (register_fresh r t n h p md Hvalid Hfree)
      as (e2 & Heq2 & Hn & Hh & Hp & _ & Hmd & _).
    rewrite Heq in Heq2. by injection Heq2 as _ <-.
Qed.

Lemma registration_visible_for_timeout_witness :
  let reg := register (new None None) 1000 (JS.Str "otp")
                      (JS.Str "localhost") (JS.Num 3002) ∅ in
  match snd reg with
  | JS.Return e =>
      (e ∈ findAll (fst reg) 31000 (name e)
       ↔ 31000 - 1000 ≤ timeout (new None None))
  | JS.Throw _ => False
  end.
Proof.
  cbv zeta.
  destruct (register (new None None) 1000 (JS.Str "otp")
                     (JS.Str "localhost") (JS.Num 3002) ∅)
    as [r' [e|x]] eqn:Hreg; simpl.
  - exact (proj1 (registration_visible_for_timeout
                    (new None None) r' 1000 31000 (JS.Str "otp")
                    (JS.Str "localhost") (JS.Num 3002) ∅ e Hreg)).
  - vm_compute in Hreg. discriminate Hreg.
Defined.

Lemma filter_map_filter {A B} (f : B → bool) (g : A → bool) (m : A → B)
    (l : list A) :
  (∀ x, f (m x) = true → g x = true) →
  List.filter f (map m (List.filter g l)) = List.filter f (map m l).
Proof.
  intros Himp. induction l as [|x l IH]; simpl; [done|].
  destruct (g x) eqn:Hg; simpl.
  - by rewrite IH.
  - destruct (f (m x)) eqn:Hf; [|done].
    apply Himp in Hf. congruence.
Qed.

(** X4. The sweep is invisible to lookups: after the timer callback has
    run at time [now], [findAll] and [find] answer at [now] and at
    every later time what they would have answered without it, since
    what the sweep deletes is what the lookup already leaves out. *)
Theorem sweep_invisible_to_lookup (r : ServiceRegistry) (now now' : Z)
    (n : JS.value) (random : Q) :
  Obj.wf (services r) → now ≤ now' →
  findAll (fst (cleanup r now)) now' n = findAll r now' n
  ∧ find (fst (cleanup r now)) now' random n = find r now' random n.
Proof.
  intros Hwf Hle.
  assert (findAll (fst (cleanup r now)) now' n = findAll r now' n) as Heq.
  { unfold findAll, Obj.values. rewrite cleanup_services by done.
    unfold live_and_named at 1. simpl timeout.
    change (λ service : ServiceEntry,
              if now' - timestamp service >? timeout r then false
              else JS.strict_eq (name service) n)
      with (live_and_named r now' n).
    apply filter_map_filter. intros [k e]. simpl.
    unfold live_and_named.
    destruct (Z.gtb_spec (now' - timestamp e) (timeout r)); [done|].
    intros _. apply negb_true_iff.
    destruct (Z.gtb_spec (now - timestamp e) (timeout r)); [lia|done]. }
  split; [done|]. unfold find. by rewrite Heq.
Qed.

Lemma sweep_invisible_to_lookup_witness :
  let r := fst (register (new None None) 0 (JS.Str "api")
                         (JS.Str "localhost") (JS.Num 3001) ∅) in
  findAll (fst (cleanup r 20000)) 25000 (JS.Str "api")
  = findAll r 25000 (JS.Str "api")
  ∧ find (fst (cleanup r 20000)) 25000 (1 # 3)%Q (JS.Str "api")
    = find r 25000 (1 # 3)%Q (JS.Str "api").
Proof.
  cbv zeta. apply sweep_invisible_to_lookup.
  - vm_compute. repeat constructor. intros Hin. inversion Hin.
  - lia.
Defined.

(** X5. Running the sweep again at the same time removes nothing: the
    second run returns the registry of the first and counts zero. And
    the entries a run removes are exactly the ones that are gone: the
    number stored before is the number stored after plus the number it
    reports. *)
Theorem sweep_twice_removes_nothing (r : ServiceRegistry) (now : Z) :
  Obj.wf (services r) →
  cleanup (fst (cleanup r now)) now = (fst (cleanup r now), 0%nat)
  ∧ (length (getAll r)
     = length (getAll (fst (cleanup r now))) + snd (cleanup r now))%nat.
Proof.
  intros Hwf.
  assert (Obj.wf (services (fst (cleanup r now)))) as Hwf'.
  { rewrite cleanup_services by done. by apply obj_wf_filter. }
  split.
  - apply injective_projections.
    + change (fst (cleanup (fst (cleanup r now)) now))
        with (with_services (fst (cleanup r now))
                (services (fst (cleanup (fst (cleanup r now)) now)))).
      rewrite (cleanup_services (fst (cleanup r now))) by done.
      rewrite (cleanup_services r) by done.
      change (timeout (fst (cleanup r now))) with (timeout r).
      rewrite filter_twice.
      rewrite (filter_ext _
                 (λ kv, negb (now - timestamp (snd kv) >? timeout r)))
        by (intros kv; by destruct (negb _)).
      rewrite <- (cleanup_services r) by done.
      apply with_services_same.
    + rewrite cleanup_count by done. unfold getAll, Obj.values.
      rewrite (cleanup_services r) by done.
      change (timeout (fst (cleanup r now))) with (timeout r).
      clear Hwf Hwf'. generalize (timeout r) as tmo. intros tmo.
      induction (services r) as [|[k e] l IH]; simpl; [done|].
      destruct (now - timestamp e >? tmo) eqn:Hexp; simpl.
      * apply IH.
      * rewrite Hexp. apply IH.
  - rewrite cleanup_count by done. unfold getAll, Obj.values.
    rewrite cleanup_services by done.
    clear Hwf Hwf'. generalize (timeout r) as tmo. intros tmo.
    induction (services r) as [|[k e] l IH]; simpl; [done|].
    destruct (now - timestamp e >? tmo); simpl; lia.
Qed.

Lemma sweep_twice_removes_nothing_witness :
  let r := fst (register (new None None) 0 (JS.Str "api")
                         (JS.Str "localhost") (JS.Num 3001) ∅) in
  cleanup (fst (cleanup r 40000)) 40000 = (fst (cleanup r 40000), 0%nat)
  ∧ (length (getAll r)
     = length (getAll (fst (cleanup r 40000))) + snd (cleanup r 40000))%nat.
Proof.
  cbv zeta. apply sweep_twice_removes_nothing.
  vm_compute. repeat constructor. intros Hin. inversion Hin.
Defined.

End LookupFacts.

(** ** The factory: outcome of a creation and lookup of an instance *)

Section FactoryOutcome.
Import Factory FactoryQueries.

Lemma read_gateway :
  JS.read_literal serviceTypes "api-gateway" = JS.Own "./api-gateway".
Proof. vm_compute. reflexivity. Qed.

Lemma serviceTypes_known type path :
  serviceTypes !! type = Some path →
  (type = "api-gateway" ∧ path = "./api-gateway")
  ∨ (type = "api" ∧ path = "./api") ∨ (type = "otp" ∧ path = "./otp").
Proof.
  unfold serviceTypes.
  rewrite !lookup_insert_Some, lookup_singleton_Some. naive_solver.
Qed.

(** What a call returns with is the instance the class of the type
    builds from the options of the factory. *)
Lemma createService_returned w f b type o f' b' s :
  createService w f b type o = (f', b', JS.Return s) →
  type ≠ ""
  ∧ ∃ path cls m,
      serviceTypes !! type = Some path ∧ require path = Some cls
      ∧ _initializeMessageBroker w b type = (b', JS.Return m)
      ∧ s = ServiceClass.construct cls (serviceOptions w m type o)
      ∧ f' = {| services := <[serviceId w type := s]> (services f);
                registry := registry f |}.
Proof.
  unfold createService, JS.read_literal.
  destruct type as [|c type]; [done|]. cbn [JS.truthy String.eqb negb].
  destruct (serviceTypes !! String.String c type) as [path|] eqn:Hpath;
    [|by destruct (bool_decide _);
        [destruct (_initializeMessageBroker _ _ _) as [? [?|?]]|]].
  destruct (_initializeMessageBroker w b (String.String c type))
    as [b1 [m|e]] eqn:Hm; [|done].
  destruct (require path) as [cls|] eqn:Hreq; [|done].
  intros [= <- <- <-]. split; [done|]. by exists path, cls, m.
Qed.

Lemma createService_succeeds w f b type path cls o :
  JS.read_literal serviceTypes type = JS.Own path →
  require path = Some cls → type ≠ "" →
  (String.eqb type "api-gateway" = true ∨ rabbitmq_loads w = true) →
  ∃ f' b' s, createService w f b type o = (f', b', JS.Return s).
Proof.
  intros Hread Hreq Hne Hbroker. unfold createService.
  rewrite Hread, Hreq. apply String.eqb_neq in Hne.
  cbn [JS.truthy]. rewrite Hne. cbn [negb].
  unfold _initializeMessageBroker.
  destruct (String.eqb type "api-gateway"); [by eexists _, _, _|].
  destruct Hbroker as [? | ->]; [done|]. by eexists _, _, _.
Qed.

(** X6. [createService] returns an instance exactly when the type is one
    of [api-gateway], [api] and [otp] and, for the two that use the
    broker, the broker module loads; a broker that cannot be reached
    does not make it fail. (The class of the gateway is not among the
    sources; its module is taken to load, as [require] above has it.)
    When it throws, the factory (instance table
    and registry) is what it was. When it returns, the table has the
    returned instance under the id made of the type and the time, every
    other id is untouched, and the registry is the same. *)
Theorem createService_returns_iff_known (w : world) (f : ServiceFactory)
    (b : RabbitmqConfig.t) (type : string) (o : BaseService.options) :
  ((∃ f' b' s, createService w f b type o = (f', b', JS.Return s))
   ↔ (type = "api-gateway"
      ∨ (type = "api" ∨ type = "otp") ∧ rabbitmq_loads w = true))
  ∧ (∀ f' b' e, createService w f b type o = (f', b', JS.Throw e) → f' = f)
  ∧ (∀ f' b' s, createService w f b type o = (f', b', JS.Return s) →
       getAllServices f' = <[serviceId w type := s]> (getAllServices f)
       ∧ getRegistry f' = getRegistry f).
Proof.
  split; [split|split].
  - intros (f' & b' & s & Hc).
    apply createService_returned in Hc
      as (_ & path & cls & m & Hpath & _ & Hm & _).
    apply serviceTypes_known in Hpath as [[-> _]|Hpath]; [by left|].
    right. split; [naive_solver|]. revert Hm.
    unfold _initializeMessageBroker.
    destruct Hpath as [[-> _]|[-> _]];
      [replace (String.eqb "api" "api-gateway") with false by reflexivity
      |replace (String.eqb "otp" "api-gateway") with false by reflexivity];
      by destruct (rabbitmq_loads w).
  - intros [-> | [[-> | ->] Hloads]].
    + eapply createService_succeeds; [apply read_gateway|done..|by left].
    + eapply createService_succeeds; [apply read_api|done..|by right].
    + eapply createService_succeeds; [apply read_otp|done..|by right].
  - intros f' b' e. apply createService_throw_keeps_table.
  - intros f' b' s Hc.
    apply createService_returned in Hc as (_ & _ & _ & _ & _ & _ & _ & _ & ->).
    done.
Qed.

(** X7. Storing and looking up an instance: after a successful
    [createService], [getService] finds the returned instance under its
    id and answers for every other id what it answered before. It
    answers [null] exactly for an id that is neither stored nor the name
    of a property every object inherits; for such a name (for instance
    [constructor]) it returns the inherited value, not [null]. *)
Theorem getService_finds_created (w : world) (f : ServiceFactory)
    (b : RabbitmqConfig.t) (type : string) (o : BaseService.options) :
  (∀ f' b' s, createService w f b type o = (f', b', JS.Return s) →
     getService f' (serviceId w type) = Instance s
     ∧ ∀ id, id ≠ serviceId w type → getService f' id = getService f id)
  ∧ (∀ id, getService f id = NoService
           ↔ getAllServices f !! id = None
             ∧ id ∉ JS.object_prototype_names)
  ∧ (∀ id, id ∈ JS.object_prototype_names →
           getService new id = InheritedValue).
Proof.
  split; [|split].
  - intros f' b' s Hc.
    apply createService_returned in Hc as (_ & _ & _ & _ & _ & _ & _ & _ & ->).
    unfold getService, JS.read_literal. simpl. split.
    + by rewrite lookup_insert_eq.
    + intros id Hid. by rewrite lookup_insert_ne.
  - intros id. unfold getService, JS.read_literal, getAllServices.
    destruct (services f !! id); [naive_solver|].
    destruct (bool_decide_reflect (id ∈ JS.object_prototype_names));
      naive_solver.
  - intros id Hid. unfold getService, JS.read_literal, new. simpl.
    rewrite lookup_empty. by rewrite bool_decide_true.
Qed.

(** X8. Ids are made of the type and the clock only: two instances of
    one type created in the same millisecond get the same id, and the
    table then holds the second one alone under it; the first is no
    longer found. *)
Theorem createService_same_millisecond (w : world) (f f1 f2 : ServiceFactory)
    (b b1 b2 : RabbitmqConfig.t) (type : string)
    (o1 o2 : BaseService.options) (s1 s2 : BaseService.t) :
  createService w f b type o1 = (f1, b1, JS.Return s1) →
  createService w f1 b1 type o2 = (f2, b2, JS.Return s2) →
  getAllServices f2 = <[serviceId w type := s2]> (getAllServices f)
  ∧ getService f2 (serviceId w type) = Instance s2.
Proof.
  intros H1 H2.
  apply createService_returned in H1 as (_ & _ & _ & _ & _ & _ & _ & _ & ->).
  apply createService_returned in H2 as (_ & _ & _ & _ & _ & _ & _ & _ & ->).
  unfold getAllServices, getService, JS.read_literal. simpl.
  rewrite insert_insert_eq. split; [done|]. by rewrite lookup_insert_eq.
Qed.

End FactoryOutcome.

Section FactoryOutcomeWitness.
Import Factory FactoryQueries.

Lemma createService_same_millisecond_witness :
  let w := {| argv := ["-s=api"]; cwd := "/srv"; NODE_ENV := JS.Undefined;
              now := 1700000000000; rabbitmq_loads := true;
              amqp := RabbitmqConfig.ConnectFails |} in
  match createService w new RabbitmqConfig.initial "api" ∅ with
  | (f1, b1, JS.Return _) =>
      match createService w f1 b1 "api" {[ "port" := JS.Num 4000 ]} with
      | (f2, _, JS.Return s2) =>
          getAllServices f2
          = <[serviceId w "api" := s2]> (getAllServices new)
          ∧ getService f2 (serviceId w "api") = Instance s2
      | (_, _, JS.Throw _) => False
      end
  | (_, _, JS.Throw _) => False
  end.
Proof.
  cbv zeta.
  destruct (createService _ new RabbitmqConfig.initial "api" ∅)
    as [[f1 b1] [s1|e1]] eqn:H1.
  - destruct (createService _ f1 b1 "api" {[ "port" := JS.Num 4000 ]})
      as [[f2 b2] [s2|e2]] eqn:H2.
    + exact (createService_same_millisecond _ _ _ _ _ _ _ _ _ _ _ _ H1 H2).
    + vm_compute in H2. discriminate H2.
  - vm_compute in H1. discriminate H1.
Defined.

End FactoryOutcomeWitness.

(** ** The factory: what the instance is made of *)

Section FactoryInstance.
Import Factory.

(** A property the factory sets is, in the options handed to the class,
    the caller's own property of that name when there is one. *)
Lemma spread_over_lookup (literal o : BaseService.options) k v :
  literal !! k = Some v →
  BaseService.spread_over literal o !! k = Some (default v (o !! k)).
Proof.
  intros Hlit. unfold BaseService.spread_over. rewrite lookup_union.
  destruct (o !! k) as [u|]; simpl; [by rewrite union_Some_l|].
  by rewrite (left_id_L None _).
Qed.



Lemma serviceOptions_channel w m type o :
  serviceOptions w m type o !! "channel"
  = Some (default (broker_channel m) (o !! "channel")).
Proof.
  unfold serviceOptions. apply spread_over_lookup. by simplify_map_eq.
Qed.

(** The class spreads the options it is given over its own two
    properties: whatever the options hold is what the base constructor
    reads. *)
Lemma construct_prop c so k v :
  so !! k = Some v →
  BaseService.prop
    (BaseService.spread_over
       {[ "name" := JS.Str (ServiceClass.service_name c);
          "port" := JS.or (BaseService.prop so "port")
                          (ServiceClass.server_port c) ]} so) k = v.
Proof.
  intros Hso. unfold BaseService.prop, BaseService.spread_over.
  rewrite lookup_union, Hso. by rewrite union_Some_l.
Qed.




End FactoryInstance.

Section FactoryBroker.
Import Factory Messaging.

Lemma connect_keeps_channel argv a b :
  "-s=api-gateway" ∈ argv ∨ (∀ conn chan, a ≠ RabbitmqConfig.Connected conn chan) →
  RabbitmqConfig.channel (RabbitmqConfig.connect argv a b)
  = RabbitmqConfig.channel b.
Proof.
  intros Hno. unfold RabbitmqConfig.connect.
  destruct (bool_decide_reflect ("-s=api-gateway" ∈ argv)); [done|].
  destruct Hno as [?|Hno]; [done|].
  destruct a as [|conn|conn chan]; [done..|]. by destruct (Hno conn chan).
Qed.

(** X10. A broker that cannot be reached neither fails the creation nor
    shows at the instance: when the connection or the channel cannot be
    opened (or the process runs the gateway, which skips the broker),
    and the caller's options carry no channel, the instance comes
    without a usable channel; each of its queue helpers then throws
    ['Message broker channel not available'], calls nothing on a
    channel and leaves the instance as it is. *)
Theorem createService_without_broker {json : JSON} (w : world)
    (f f' : ServiceFactory) (b b' : RabbitmqConfig.t) (type : string)
    (o : BaseService.options) (s : BaseService.t) :
  createService w f b type o = (f', b', JS.Return s) →
  o !! "channel" = None →
  JS.truthy (RabbitmqConfig.channel b) = false →
  type = "api-gateway" ∨ "-s=api-gateway" ∈ argv w
  ∨ (∀ conn chan, amqp w ≠ RabbitmqConfig.Connected conn chan) →
  JS.truthy (BaseService.channel s) = false
  ∧ ∀ cw q m opts,
      let unavailable := JS.Error "Message broker channel not available" in
      registerQueue cw s q opts = (s, [], JS.Throw unavailable)
      ∧ publishToQueue cw s q m opts = (s, [], JS.Throw unavailable)
      ∧ consumeFromQueue cw s q opts = (s, [], JS.Throw unavailable).
Proof.
  intros Hc Ho Hb Hdown.
  assert (JS.truthy (BaseService.channel s) = false) as Hchan.
  { apply createService_returned in Hc
      as (_ & path & cls & m & _ & _ & Hm & -> & _).
    unfold ServiceClass.construct, BaseService.constructor. simpl.
    rewrite (construct_prop _ _ _ _ (serviceOptions_channel w m type o)).
    rewrite Ho. simpl. revert Hm. unfold _initializeMessageBroker.
    destruct (String.eqb type "api-gateway") eqn:Hgw.
    { by intros [= _ <-]. }
    destruct (rabbitmq_loads w); [|done]. intros [= _ <-]. simpl.
    rewrite connect_keeps_channel; [done|].
    destruct Hdown as [->|Hdown]; [done|exact Hdown]. }
  split; [done|]. intros cw q m opts. cbv zeta.
  unfold registerQueue, publishToQueue, consumeFromQueue.
  by rewrite Hchan.
Qed.

Lemma createService_without_broker_witness :
  let w := {| argv := ["-s=otp"]; cwd := "/srv"; NODE_ENV := JS.Undefined;
              now := 1700000000000; rabbitmq_loads := true;
              amqp := RabbitmqConfig.ConnectFails |} in
  let cw := {| assertQueue_raises := None; ack_raises := None;
               nack_raises := None; sendToQueue_returns := true |} in
  match createService w new RabbitmqConfig.initial "otp" ∅ with
  | (_, _, JS.Return s) =>
      @publishToQueue JsonText.codec cw s "otp.responses"
        (Payload.String "ready") ∅
      = (s, [], JS.Throw (JS.Error "Message broker channel not available"))
  | (_, _, JS.Throw _) => False
  end.
Proof.
  cbv zeta.
  destruct (createService _ new RabbitmqConfig.initial "otp" ∅)
    as [[f1 b1] [s1|e1]] eqn:H1.
  - refine (proj1 (proj2 (proj2 (createService_without_broker
                                   _ _ _ _ _ _ _ _ H1 _ _ _) _ _ _ _))).
    + reflexivity.
    + reflexivity.
    + right. right. intros conn chan. discriminate.
  - vm_compute in H1. discriminate H1.
Defined.

End FactoryBroker.

(** ** The command line: which flag counts *)

Section CliFlags.
Import Cli CliProps.

Lemma last_flag_snoc flag args a :
  last_flag flag (args ++ [a])
  = if String.prefix flag a then Some (substring3 a)
    else last_flag flag args.
Proof.
  unfold last_flag. rewrite rev_app_distr. simpl.
  by destruct (String.prefix flag a).
Qed.

Lemma service_flag_not_env a :
  String.prefix "-s=" a = true → String.prefix "-e=" a = false.
Proof.
  destruct a as [|c1 [|c2 a]]; cbn [String.prefix]; [done| |].
  - by destruct (ascii_dec "-" c1).
  - destruct (ascii_dec "-" c1); [|done].
    destruct (ascii_dec "s" c2) as [<-|]; [|done].
    by destruct (ascii_dec "e" "s").
Qed.

(** The variables after the loop, by the last flag of each kind. *)
Lemma scan_all_last_flag args :
  serviceName (fold_left scan args initial)
  = match last_flag "-s=" args with
    | Some x => JS.Str (toLowerCase x)
    | None => JS.Undefined
    end
  ∧ env (fold_left scan args initial)
    = match last_flag "-e=" args with
      | Some x => toLowerCase x
      | None => "development"
      end.
Proof.
  induction args as [|a args [IHs IHe]] using rev_ind; [done|].
  rewrite fold_left_app, !last_flag_snoc. simpl. unfold scan.
  destruct (String.prefix "-s=" a) eqn:Hs.
  - rewrite (service_flag_not_env a Hs). by simpl.
  - by destruct (String.prefix "-e=" a).
Qed.

(** X11. Of the arguments of the script only the last one that starts
    with [-s=] and the last one that starts with [-e=] count, each in
    lower case. Without a [-s=] argument, or when the last one names
    nothing, the script leaves with status 1 and the usage line;
    otherwise it asks the factory for that type, with the environment of
    the last [-e=] argument, [development] when there is none, and with
    a port that is [undefined]. *)
Theorem run_last_flag_counts (args : list string) :
  run args
  = match last_flag "-s=" args with
    | None => Exit 1 usage
    | Some x =>
        if String.eqb x "" then Exit 1 usage
        else
          let env := match last_flag "-e=" args with
                     | Some e => toLowerCase e
                     | None => "development"
                     end in
          CreateService env (JS.Str (toLowerCase x))
            {[ "port" := JS.Undefined; "env" := JS.Str env ]}
    end.
Proof.
  unfold run. destruct args as [|a args]; [done|].
  replace (length (a :: args) <? 1)%nat with false by reflexivity.
  destruct (scan_all_last_flag (a :: args)) as [-> ->].
  rewrite scan_all_keeps_port.
  destruct (last_flag "-s=" (a :: args)) as [x|]; [|done].
  cbn [JS.truthy]. destruct x as [|c x]; [done|]. reflexivity.
Qed.

End CliFlags.

(** ** The life cycle of a service and the registry *)

Section LifecycleFacts.
Import Registry RegistryOps Lifecycle.
Context `{ToNumber}.

Lemma or_truthy a b : JS.truthy b = true → JS.truthy (JS.or a b) = true.
Proof. intros Hb. unfold JS.or. by destruct (JS.truthy a) eqn:Ha. Qed.

Lemma constructor_valid o host :
  let s := BaseService.constructor o in
  JS.truthy (BaseService.name s)
  && JS.truthy (JS.or host (JS.Str "localhost"))
  && JS.truthy (BaseService.port s) = true.
Proof. simpl. by rewrite !or_truthy. Qed.

Lemma metadata_of_start (s : BaseService.t) :
  BaseService.spread_over {[ "env" := BaseService.env s ]} ∅
  = {[ "env" := BaseService.env s ]}.
Proof. unfold BaseService.spread_over. by rewrite (left_id_L ∅ _). Qed.


Lemma stopped_again (s : BaseService.t) :
  BaseService.isRunning s = false →
  set_isRunning (set_isRunning s true) false = s.
Proof. destruct s. simpl. by intros ->. Qed.

Lemma unregistered_again (s : BaseService.t) info :
  BaseService.isRunning s = false → BaseService.registryInfo s = None →
  set_isRunning
    (set_registryInfo (set_isRunning (set_registryInfo s (Some info)) true)
                      None) false = s.
Proof. destruct s. simpl. by intros -> ->. Qed.

(** The round trip of the base class, for the classes built on it. *)
Lemma start_then_stop_base (SERVICE_HOST : JS.value) (now : Z)
    (reg : ServiceRegistry) (s : BaseService.t) :
  BaseService.isRunning s = false →
  BaseService.registryInfo s = None →
  JS.truthy (BaseService.name s) = true →
  JS.truthy (BaseService.port s) = true →
  Obj.get (services reg)
          (_generateKey (BaseService.name s)
                        (JS.or SERVICE_HOST (JS.Str "localhost"))
                        (BaseService.port s)) = None →
  let '(reg1, s1, out) := start SERVICE_HOST now reg s in
  out = JS.Return () ∧ stop reg1 s1 = (reg, s).
Proof.
  intros Hrun Hinfo Hname Hport Hfree. unfold start. rewrite Hrun.
  destruct (JS.truthy (BaseService.registry s)) eqn:Hreg; cbn [andb].
  - destruct (gt_zero (BaseService.port s)).
    + unfold registerWithRegistry. rewrite Hreg. cbn [negb].
      assert (JS.truthy (BaseService.name s)
              && JS.truthy (JS.or SERVICE_HOST (JS.Str "localhost"))
              && JS.truthy (BaseService.port s) = true) as Hvalid
        by (by rewrite Hname, Hport, or_truthy).
      destruct (register_fresh reg now _ _ _
                  (BaseService.spread_over
                     {[ "env" := BaseService.env s ]} ∅) Hvalid Hfree)
        as (e & Hregister & Hn & Hh & Hp & _).
      rewrite Hregister. split; [done|].
      unfold stop, unregisterFromRegistry. simpl. rewrite Hreg. simpl.
      rewrite Hn, Hh, Hp. unfold unregister. simpl.
      rewrite obj_get_set_eq, obj_delete_set_absent by done.
      rewrite with_services_same_settings.
      by rewrite unregistered_again.
    + split; [done|]. unfold stop. simpl. rewrite Hreg, Hinfo. simpl.
      by rewrite stopped_again.
  - split; [done|]. unfold stop. simpl. rewrite Hreg. simpl.
    by rewrite stopped_again.
Qed.

(** X13. Starting a stopped, unregistered instance and stopping it again
    gives back both the registry and the instance exactly as they were,
    whenever the key of the instance is free in the registry at the
    start. *)
Theorem start_then_stop_restores (SERVICE_HOST : JS.value) (now : Z)
    (reg : ServiceRegistry) (s : BaseService.t) :
  BaseService.isRunning s = false →
  BaseService.registryInfo s = None →
  JS.truthy (BaseService.name s) = true →
  JS.truthy (BaseService.port s) = true →
  Obj.get (services reg)
          (_generateKey (BaseService.name s)
                        (JS.or SERVICE_HOST (JS.Str "localhost"))
                        (BaseService.port s)) = None →
  let '(reg1, s1, out) := start SERVICE_HOST now reg s in
  out = JS.Return () ∧ stop reg1 s1 = (reg, s).
Proof.
  intros Hrun Hinfo Hname Hport Hfree. unfold start. rewrite Hrun.
  destruct (JS.truthy (BaseService.registry s)) eqn:Hreg; cbn [andb].
  - destruct (gt_zero (BaseService.port s)).
    + unfold registerWithRegistry. rewrite Hreg. cbn [negb].
      assert (JS.truthy (BaseService.name s)
              && JS.truthy (JS.or SERVICE_HOST (JS.Str "localhost"))
              && JS.truthy (BaseService.port s) = true) as Hvalid
        by (by rewrite Hname, Hport, or_truthy).
      destruct (register_fresh reg now _ _ _
                  (BaseService.spread_over
                     {[ "env" := BaseService.env s ]} ∅) Hvalid Hfree)
        as (e & Hregister & Hn & Hh & Hp & _).
      rewrite Hregister. split; [done|].
      unfold stop, unregisterFromRegistry. simpl. rewrite Hreg. simpl.
      rewrite Hn, Hh, Hp. unfold unregister. simpl.
      rewrite obj_get_set_eq, obj_delete_set_absent by done.
      rewrite with_services_same_settings.
      by rewrite unregistered_again.
    + split; [done|]. unfold stop. simpl. rewrite Hreg, Hinfo. simpl.
      by rewrite stopped_again.
  - split; [done|]. unfold stop. simpl. rewrite Hreg. simpl.
    by rewrite stopped_again.
Qed.

Lemma registered_entry_listed r t n h p md r' e now :
  register r t n h p md = (r', JS.Return e) →
  e ∈ findAll r' now (name e) ↔ now - t ≤ timeout r.
Proof.
  intros Hreg.
  assert (JS.truthy n && JS.truthy h && JS.truthy p = true) as Hvalid.
  { destruct (JS.truthy n && JS.truthy h && JS.truthy p) eqn:Hv; [done|].
    rewrite register_invalid in Hreg by done. by inversion Hreg. }
  destruct (register_stores r t n h p md Hvalid) as (e' & Heq & Hts & _).
  rewrite Heq in Hreg. injection Hreg as <- <-.
  rewrite findAll_elem, Hts. simpl. split; [by intros (_ & _ & ?)|].
  intros Hlive. split; [|done]. unfold getAll. simpl.
  eapply obj_get_values, obj_get_set_eq.
Qed.

(** X14. Nothing keeps a running instance registered. After a start at
    time [t0] that registered it, the instance is running and its entry
    is listed by [findAll] at a time [now] exactly when [now - t0] is at
    most the timeout of the registry; and calling [start] again, at any
    time, changes neither the registry nor the instance, so it does not
    renew the entry either. *)
Theorem running_instance_expires (SERVICE_HOST : JS.value) (t0 : Z)
    (reg reg1 : ServiceRegistry) (s s1 : BaseService.t) :
  BaseService.isRunning s = false →
  JS.truthy (BaseService.registry s) && gt_zero (BaseService.port s)
  = true →
  start SERVICE_HOST t0 reg s = (reg1, s1, JS.Return ()) →
  BaseService.isRunning s1 = true
  ∧ (∃ e, BaseService.registryInfo s1 = Some e
          ∧ ∀ now, e ∈ findAll reg1 now (name e)
                   ↔ now - t0 ≤ timeout reg)
  ∧ (∀ host now, start host now reg1 s1 = (reg1, s1, JS.Return ())).
Proof.
  intros Hrun Hcond. unfold start at 1. rewrite Hrun, Hcond.
  unfold registerWithRegistry.
  apply andb_true_iff in Hcond as [Hreg _]. rewrite Hreg. cbn [negb].
  destruct (register reg t0 _ _ _ _) as [reg' [e|x]] eqn:Hregister; [|done].
  intros [= <- <-]. split; [done|]. split.
  - exists e. split; [done|]. intros now.
    by apply (registered_entry_listed _ _ _ _ _ _ _ _ now) in Hregister.
  - done.
Qed.

End LifecycleFacts.

Section LifecycleWitnesses.
Import Registry Lifecycle.

Lemma start_then_stop_restores_witness :
  let '(reg1, s1, out) :=
    @start LifecycleProps.numbers_only JS.Undefined 5 (new None None)
           LifecycleProps.sample_instance in
  out = JS.Return ()
  ∧ stop reg1 s1 = (new None None, LifecycleProps.sample_instance).
Proof.
  apply (@start_then_stop_restores LifecycleProps.numbers_only
           JS.Undefined 5 (new None None) LifecycleProps.sample_instance);
    vm_compute; reflexivity.
Defined.

Lemma running_instance_expires_witness :
  let '(reg1, s1, _) :=
    @start LifecycleProps.numbers_only JS.Undefined 1000 (new None None)
           LifecycleProps.sample_instance in
  BaseService.isRunning s1 = true
  ∧ ∃ e, BaseService.registryInfo s1 = Some e
         ∧ ∀ now, e ∈ findAll reg1 now (name e)
                  ↔ now - 1000 ≤ timeout (new None None).
Proof.
  destruct (@start LifecycleProps.numbers_only JS.Undefined 1000
              (new None None) LifecycleProps.sample_instance)
    as [[reg1 s1] [[]|x]] eqn:Hstart.
  - destruct (@running_instance_expires LifecycleProps.numbers_only
                JS.Undefined 1000 (new None None) reg1
                LifecycleProps.sample_instance s1
                ltac:(reflexivity) ltac:(reflexivity) Hstart)
      as (Hrun & Hlisted & _).
    by split.
  - vm_compute in Hstart. discriminate Hstart.
Defined.

End LifecycleWitnesses.

Section LifecycleTwins.
Import Registry Props RegistryOps Lifecycle.
Context `{ToNumber}.

(** In a consistent registry the entry a registration returns, new or
    renewed, has the key of the registered name, host and port. *)
Lemma register_entry_key r t n h p md r' e :
  consistent r →
  register r t n h p md = (r', JS.Return e) →
  _generateKey (name e) (host e) (port e) = _generateKey n h p
  ∧ Obj.get (services r') (_generateKey n h p) = Some e
  ∧ consistent r'.
Proof.
  intros Hcons Hreg.
  pose proof (consistent_register r t n h p md Hcons) as Hcons'.
  rewrite Hreg in Hcons'. simpl in Hcons'.
  assert (JS.truthy n && JS.truthy h && JS.truthy p = true) as Hvalid.
  { destruct (JS.truthy n && JS.truthy h && JS.truthy p) eqn:Hv; [done|].
    rewrite register_invalid in Hreg by done. by inversion Hreg. }
  destruct (register_stores r t n h p md Hvalid) as (e' & Heq & _).
  rewrite Heq in Hreg. injection Hreg as <- <-.
  assert (Obj.get (services (with_services r
                     (Obj.set (services r) (_generateKey n h p) e')))
                  (_generateKey n h p) = Some e') as Hget
    by apply obj_get_set_eq.
  split; [|done]. destruct Hcons' as [_ Hok].
  rewrite Forall_forall in Hok.
  destruct (Hok _ (obj_get_Some_elem _ _ _ Hget)) as (Hk1 & Hk2 & _).
  simpl in Hk1, Hk2. congruence.
Qed.

Lemma start_registering SERVICE_HOST now reg s :
  BaseService.isRunning s = false →
  JS.truthy (BaseService.registry s) && gt_zero (BaseService.port s)
  = true →
  JS.truthy (BaseService.name s) = true →
  JS.truthy (BaseService.port s) = true →
  ∃ reg' e,
    register reg now (BaseService.name s)
             (JS.or SERVICE_HOST (JS.Str "localhost")) (BaseService.port s)
             {[ "env" := BaseService.env s ]} = (reg', JS.Return e)
    ∧ start SERVICE_HOST now reg s
      = (reg', set_isRunning (set_registryInfo s (Some e)) true,
         JS.Return ()).
Proof.
  intros Hrun Hcond Hname Hport. unfold start. rewrite Hrun, Hcond.
  unfold registerWithRegistry.
  apply andb_true_iff in Hcond as [Hreg _]. rewrite Hreg. cbn [negb].
  rewrite metadata_of_start.
  assert (JS.truthy (BaseService.name s)
          && JS.truthy (JS.or SERVICE_HOST (JS.Str "localhost"))
          && JS.truthy (BaseService.port s) = true) as Hvalid
    by (by rewrite Hname, Hport, or_truthy).
  destruct (register_stores reg now _ _ _
              {[ "env" := BaseService.env s ]} Hvalid) as (e & Heq & _).
  rewrite Heq. eexists _, e. split; reflexivity.
Qed.

(** X15. Two instances with the same name, host and port share one entry
    of the registry, and the first of them to stop takes it away from
    both: after both have started the registry holds one entry under
    their key; after the first has stopped, the key is free although the
    second is still running; and when the second stops, the registry
    refuses the removal, so its [registryInfo] stays set although it is
    no longer running. *)
Theorem stop_unregisters_twin (SERVICE_HOST : JS.value) (t1 t2 : Z)
    (reg : ServiceRegistry) (s1 s2 : BaseService.t) :
  consistent reg →
  BaseService.isRunning s1 = false → BaseService.isRunning s2 = false →
  BaseService.name s2 = BaseService.name s1 →
  BaseService.port s2 = BaseService.port s1 →
  JS.truthy (BaseService.name s1) = true →
  JS.truthy (BaseService.port s1) = true →
  gt_zero (BaseService.port s1) = true →
  JS.truthy (BaseService.registry s1) = true →
  JS.truthy (BaseService.registry s2) = true →
  let k := _generateKey (BaseService.name s1)
                        (JS.or SERVICE_HOST (JS.Str "localhost"))
                        (BaseService.port s1) in
  let '(reg1, a1, _) := start SERVICE_HOST t1 reg s1 in
  let '(reg2, a2, _) := start SERVICE_HOST t2 reg1 s2 in
  let '(reg3, b1) := stop reg2 a1 in
  let '(reg4, b2) := stop reg3 a2 in
  stored_under k reg2 = 1%nat
  ∧ Obj.get (services reg3) k = None
  ∧ BaseService.isRunning a2 = true
  ∧ reg4 = reg3
  ∧ BaseService.isRunning b2 = false
  ∧ is_Some (BaseService.registryInfo b2).
Proof.
  intros Hcons Hrun1 Hrun2 Hname Hport Hn Hp Hgt Hreg1 Hreg2. cbv zeta.
  destruct (start_registering SERVICE_HOST t1 reg s1)
    as (reg1 & e1 & Hregister1 & ->); [by rewrite ?Hreg1, ?Hgt..|].
  destruct (start_registering SERVICE_HOST t2 reg1 s2)
    as (reg2 & e2 & Hregister2 & ->);
    [by rewrite ?Hreg2, ?Hname, ?Hport, ?Hgt..|].
  rewrite Hname, Hport in Hregister2.
  destruct (register_entry_key _ _ _ _ _ _ _ _ Hcons Hregister1)
    as (Hkey1 & Hget1 & Hcons1).
  destruct (register_entry_key _ _ _ _ _ _ _ _ Hcons1 Hregister2)
    as (Hkey2 & Hget2 & Hcons2).
  set (k := _generateKey (BaseService.name s1)
              (JS.or SERVICE_HOST (JS.Str "localhost"))
              (BaseService.port s1)) in *.
  unfold stop at 1, unregisterFromRegistry. simpl. rewrite Hreg1. simpl.
  unfold unregister at 1. rewrite Hkey1, Hget2.
  unfold stop, unregisterFromRegistry. simpl. rewrite Hreg2. simpl.
  unfold unregister. rewrite Hkey2. simpl.
  rewrite (obj_get_delete_eq _ _ (proj1 Hcons2)). simpl.
  split.
  { apply Nat.le_antisymm.
    - apply stored_under_wf, Hcons2.
    - by eapply stored_under_present. }
  by repeat split.
Qed.

End LifecycleTwins.

Section LifecycleTwinsWitness.
Import Registry Props RegistryOps Lifecycle.

Lemma stop_unregisters_twin_witness :
  let '(reg1, a1, _) :=
    @start LifecycleProps.numbers_only JS.Undefined 10 (new None None)
           LifecycleProps.sample_instance in
  let '(reg2, a2, _) :=
    @start LifecycleProps.numbers_only JS.Undefined 20 reg1
           LifecycleProps.sample_instance in
  let '(reg3, b1) := stop reg2 a1 in
  let '(reg4, b2) := stop reg3 a2 in
  stored_under "api:localhost:3001" reg2 = 1%nat
  ∧ Obj.get (services reg3) "api:localhost:3001" = None
  ∧ BaseService.isRunning a2 = true
  ∧ reg4 = reg3
  ∧ BaseService.isRunning b2 = false
  ∧ is_Some (BaseService.registryInfo b2).
Proof.
  apply (@stop_unregisters_twin LifecycleProps.numbers_only JS.Undefined
           10 20 (new None None) LifecycleProps.sample_instance
           LifecycleProps.sample_instance);
    try (vm_compute; reflexivity).
  split; [apply NoDup_nil_2 | constructor].
Defined.

End LifecycleTwinsWitness.

(** ** Queues declared on first use *)

Section QueueOnFirstUse.
Import Messaging.
Context {json : JSON}.

Lemma ensure_queue_new cw s q :
  JS.truthy (BaseService.channel s) = true →
  assertQueue_raises cw = None →
  BaseService.queues s !! q = None → q ∉ JS.object_prototype_names →
  ensure_queue cw s q
  = (BaseService.set_queue s q queue_info,
     [Chan (AssertQueue q {[ "durable" := JS.Bool true ]})], JS.Return ()).
Proof.
  intros Hchan Hassert Hq Hown.
  unfold ensure_queue, JS.read_literal, registerQueue.
  rewrite Hq, bool_decide_false by done. rewrite Hchan, Hassert. simpl.
  by rewrite (left_id_L ∅ _).
Qed.

Lemma ensure_queue_known cw s q v :
  BaseService.queues s !! q = Some v →
  ensure_queue cw s q = (s, [], JS.Return ()).
Proof. intros Hq. unfold ensure_queue, JS.read_literal. by rewrite Hq. Qed.

Lemma ensure_queue_inherited cw s q :
  q ∈ JS.object_prototype_names →
  ensure_queue cw s q = (s, [], JS.Return ()).
Proof.
  intros Hq. unfold ensure_queue, JS.read_literal.
  destruct (BaseService.queues s !! q); [done|].
  by rewrite bool_decide_true.
Qed.

(** X16. Publishing declares a queue the first time it is used and only
    then: on a working channel the first [publishToQueue] to a queue the
    instance has not registered asserts the queue as durable, records
    it, and sends the message as persistent (the caller's options
    written over that); publishing again to the same queue sends
    only. *)
Theorem publishToQueue_declares_once (cw : channel_world)
    (s : BaseService.t) (q : string) (m : Payload.value)
    (opts : gmap string JS.value) (text : string) :
  JS.truthy (BaseService.channel s) = true →
  assertQueue_raises cw = None →
  serialize m = Some text →
  BaseService.queues s !! q = None → q ∉ JS.object_prototype_names →
  let send := Chan (SendToQueue q (Buffer_from text)
                      (opts ∪ {[ "persistent" := JS.Bool true ]})) in
  let '(s1, evs1, out1) := publishToQueue cw s q m opts in
  evs1 = [Chan (AssertQueue q {[ "durable" := JS.Bool true ]}); send]
  ∧ out1 = JS.Return (sendToQueue_returns cw)
  ∧ BaseService.queues s1 !! q = Some queue_info
  ∧ publishToQueue cw s1 q m opts
    = (s1, [send], JS.Return (sendToQueue_returns cw)).
Proof.
  intros Hchan Hassert Htext Hq Hown. cbv zeta.
  unfold publishToQueue at 1. rewrite Hchan. cbn [negb].
  rewrite ensure_queue_new, Htext by done.
  split; [done|]. split; [done|]. split.
  - simpl. by rewrite lookup_insert_eq.
  - unfold publishToQueue. simpl BaseService.channel. rewrite Hchan.
    cbn [negb].
    rewrite (ensure_queue_known _ _ _ queue_info), Htext;
      [done|simpl; by rewrite lookup_insert_eq].
Qed.

(** X17. A queue whose name is that of a property every object inherits
    (such as [constructor] or [toString]) is never declared on first
    use: the test [!this.queues[queueName]] finds the inherited value,
    so on a working channel [publishToQueue] sends, and
    [consumeFromQueue] subscribes, without any [assertQueue] and without
    recording the queue. *)
Theorem inherited_queue_name_not_declared (cw : channel_world)
    (s : BaseService.t) (q : string) (m : Payload.value)
    (opts : gmap string JS.value) (text : string) :
  q ∈ JS.object_prototype_names →
  JS.truthy (BaseService.channel s) = true →
  serialize m = Some text →
  publishToQueue cw s q m opts
  = (s, [Chan (SendToQueue q (Buffer_from text)
                 (opts ∪ {[ "persistent" := JS.Bool true ]}))],
     JS.Return (sendToQueue_returns cw))
  ∧ consumeFromQueue cw s q opts
    = (s, [Chan (Consume q opts)], JS.Return ()).
Proof.
  intros Hq Hchan Htext. unfold publishToQueue, consumeFromQueue.
  rewrite Hchan. cbn [negb]. rewrite ensure_queue_inherited by done.
  by rewrite Htext.
Qed.

End QueueOnFirstUse.

Section QueueOnFirstUseWitnesses.
Import Messaging.

Lemma publishToQueue_declares_once_witness :
  let cw := {| assertQueue_raises := None; ack_raises := None;
               nack_raises := None; sendToQueue_returns := true |} in
  let s := BaseService.constructor {[ "channel" := JS.Ref 7 ]} in
  let send := Chan (SendToQueue "otp.responses" (Buffer_from "ready") 
                      (∅ ∪ {[ "persistent" := JS.Bool true ]})) in
  let '(s1, evs1, out1) :=
    @publishToQueue JsonText.codec cw s "otp.responses"
      (Payload.String "ready") ∅ in
  evs1 = [Chan (AssertQueue "otp.responses"
                  {[ "durable" := JS.Bool true ]}); send]
  ∧ out1 = JS.Return true
  ∧ BaseService.queues s1 !! "otp.responses" = Some queue_info
  ∧ @publishToQueue JsonText.codec cw s1 "otp.responses"
      (Payload.String "ready") ∅
    = (s1, [send], JS.Return true).
Proof.
  apply (@publishToQueue_declares_once JsonText.codec
           {| assertQueue_raises := None; ack_raises := None;
              nack_raises := None; sendToQueue_returns := true |}
           (BaseService.constructor {[ "channel" := JS.Ref 7 ]})
           "otp.responses" (Payload.String "ready") ∅ "ready");
    try reflexivity.
  intros Hin. by apply (bool_decide_pack _) in Hin.
Defined.

Lemma inherited_queue_name_not_declared_witness :
  let cw := {| assertQueue_raises := None; ack_raises := None;
               nack_raises := None; sendToQueue_returns := true |} in
  let s := BaseService.constructor {[ "channel" := JS.Ref 7 ]} in
  @publishToQueue JsonText.codec cw s "constructor"
    (Payload.String "ready") ∅
  = (s, [Chan (SendToQueue "constructor" (Buffer_from "ready")
                 (∅ ∪ {[ "persistent" := JS.Bool true ]}))],
     JS.Return true)
  ∧ consumeFromQueue cw s "constructor" ∅
    = (s, [Chan (Consume "constructor" ∅)], JS.Return ()).
Proof.
  apply (@inherited_queue_name_not_declared JsonText.codec
           {| assertQueue_raises := None; ack_raises := None;
              nack_raises := None; sendToQueue_returns := true |}
           (BaseService.constructor {[ "channel" := JS.Ref 7 ]})
           "constructor" (Payload.String "ready") ∅ "ready");
    try reflexivity.
  apply list_elem_of_here.
Defined.

End QueueOnFirstUseWitnesses.

(** ** The service classes *)

Section ServiceStart.
Import Registry Lifecycle HttpService Messaging ServiceProps.
Context `{ToNumber}.

Lemma start_constructor_returns o SERVICE_HOST now reg :
  ∃ reg' s',
    Lifecycle.start SERVICE_HOST now reg (BaseService.constructor o)
    = (reg', s', JS.Return ())
    ∧ BaseService.isRunning s' = true
    ∧ BaseService.connection s'
      = BaseService.connection (BaseService.constructor o)
    ∧ BaseService.channel s'
      = BaseService.channel (BaseService.constructor o)
    ∧ BaseService.port s' = BaseService.port (BaseService.constructor o)
    ∧ BaseService.queues s' = ∅.
Proof.
  unfold Lifecycle.start.
  replace (BaseService.isRunning (BaseService.constructor o)) with false
    by reflexivity.
  destruct (JS.truthy (BaseService.registry (BaseService.constructor o))
            && gt_zero (BaseService.port (BaseService.constructor o)))
    eqn:Hcond; [|by eexists _, _].
  unfold registerWithRegistry.
  apply andb_true_iff in Hcond as [-> _]. cbn [negb].
  destruct (register_stores reg now _ _ _
              (BaseService.spread_over
                 {[ "env" := BaseService.env (BaseService.constructor o) ]}
                 ∅)
              (constructor_valid o SERVICE_HOST)) as (e & -> & _).
  by eexists _, _.
Qed.


Lemma setup_queues_working cw requests responses (s : BaseService.t) :
  assertQueue_raises cw = None →
  JS.truthy (BaseService.channel s) = true →
  setup_queues cw requests responses responses s
  = (BaseService.set_queue (BaseService.set_queue s requests queue_info)
                           responses queue_info,
     [Chan (AssertQueue requests {[ "durable" := JS.Bool true ]});
      Chan (AssertQueue responses {[ "durable" := JS.Bool true ]});
      Chan (Consume responses ∅)], JS.Return ()).
Proof.
  intros Hassert Hchan.
  unfold setup_queues, registerQueue, consumeFromQueue.
  rewrite Hchan, Hassert. simpl. rewrite Hchan. simpl. rewrite Hchan.
  simpl.
  rewrite (ensure_queue_known _ _ _ queue_info)
    by (simpl; by rewrite lookup_insert_eq).
  by rewrite !(left_id_L ∅ _).
Qed.

(** X19. [start] of the API service is not guarded by [isRunning] beyond
    the base class: with a broker at hand, a first [start] listens on
    the port, declares the two queues and subscribes to the responses;
    a second [start] on the running instance leaves the registry alone
    but listens, declares and subscribes all over again. *)
Theorem api_service_start_repeats_setup (o : BaseService.options)
    (SERVICE_HOST : JS.value) (t1 t2 : Z) (reg : ServiceRegistry)
    (hw : http_world) (cw : channel_world) (srv : JS.value) :
  let s := APIService.constructor o in
  listen_result hw = JS.Return srv →
  assertQueue_raises cw = None →
  JS.truthy (BaseService.connection (base s)) = true →
  JS.truthy (BaseService.channel (base s)) = true →
  let '(reg1, s1, effects1, out1) :=
    APIService.start SERVICE_HOST t1 hw cw reg s in
  let '(reg2, s2, effects2, out2) :=
    APIService.start SERVICE_HOST t2 hw cw reg1 s1 in
  out1 = JS.Return () ∧ out2 = JS.Return ()
  ∧ effects1 = api_setup_effects (BaseService.port (base s))
  ∧ effects2 = effects1
  ∧ reg2 = reg1.
Proof.
  cbv zeta. intros Hlisten Hassert Hconn Hchan.
  unfold APIService.start, HttpService.start at 1.
  unfold APIService.constructor, ServiceClass.construct in *.
  cbn [base app] in *.
  match goal with
  | |- context [Lifecycle.start _ _ _ (BaseService.constructor ?o')] =>
      destruct (start_constructor_returns o' SERVICE_HOST t1 reg)
        as (reg' & s' & -> & Hrun & Hc & Hch & Hp & Hq)
  end.
  simpl listen. rewrite Hlisten, Hc, Hch, Hconn, Hchan. cbn [andb].
  unfold APIService._setupQueues.
  rewrite setup_queues_working by (done || by rewrite Hch).
  unfold HttpService.start. simpl base. unfold Lifecycle.start.
  simpl BaseService.isRunning. rewrite Hrun. simpl listen.
  simpl BaseService.connection. simpl BaseService.channel.
  rewrite Hlisten, Hc, Hch, Hconn, Hchan. cbn [andb].
  rewrite setup_queues_working by (done || (simpl; by rewrite Hch)).
  simpl. by rewrite Hp.
Qed.

End ServiceStart.

Section ServiceStartWitness.
Import Registry Lifecycle HttpService Messaging ServiceProps.

Lemma api_service_start_repeats_setup_witness :
  let s := APIService.constructor connected_options in
  let '(reg1, s1, effects1, out1) :=
    @APIService.start LifecycleProps.numbers_only JS.Undefined 10
      serving working (new None None) s in
  let '(reg2, s2, effects2, out2) :=
    @APIService.start LifecycleProps.numbers_only JS.Undefined 20
      serving working reg1 s1 in
  out1 = JS.Return () ∧ out2 = JS.Return ()
  ∧ effects1 = api_setup_effects (BaseService.port (base s))
  ∧ effects2 = effects1
  ∧ reg2 = reg1.
Proof.
  apply (@api_service_start_repeats_setup LifecycleProps.numbers_only
           connected_options JS.Undefined 10 20 (new None None)
           serving working (JS.Ref 4));
    vm_compute; reflexivity.
Defined.

End ServiceStartWitness.

(** ** The request handler of the OTP service *)

Section OtpRequests.
Import Messaging MessagingProps PayloadValue OTPService ServiceProps.
Context {json : JSON}.

Lemma publish_object cw s q fields text :
  JS.truthy (BaseService.channel s) = true →
  is_Some (BaseService.queues s !! q) →
  stringify (Payload.Object fields) = Some text →
  publishToQueue cw s q (Payload.Object fields) ∅
  = (s, [Chan (SendToQueue q (Buffer_from text)
                 (∅ ∪ {[ "persistent" := JS.Bool true ]}))],
     JS.Return (sendToQueue_returns cw)).
Proof.
  intros Hchan [v Hq] Htext. unfold publishToQueue.
  rewrite Hchan. cbn [negb]. rewrite (ensure_queue_known _ _ _ v Hq).
  simpl serialize. by rewrite Htext.
Qed.

Lemma known_action_string action :
  known_action action = true →
  ∃ a, action = Payload.String a ∧ to_string action = Some a.
Proof. destruct action; try done. intros _. by eexists. Qed.

Lemma on_request_answers cw s message :
  encodes_objects →
  JS.truthy (BaseService.channel s) = true →
  is_Some (BaseService.queues s !! "otp.responses") →
  nullish message = false →
  ∃ response text,
    stringify response = Some text
    ∧ on_request cw s message
      = (s, [Chan (SendToQueue "otp.responses" (Buffer_from text)
                     (∅ ∪ {[ "persistent" := JS.Bool true ]}))],
         Resolves)
    ∧ read response "correlationId" = read message "correlationId"
    ∧ read response "success"
      = Payload.Bool (known_action (read message "action")).
Proof.
  intros Henc Hchan Hq Hnull. unfold on_request, process. rewrite Hnull.
  destruct (known_action (read message "action")) eqn:Hknown.
  - destruct (known_action_string _ Hknown) as (a & Hact & ->).
    unfold processed.
    destruct (Henc [("correlationId", read message "correlationId");
                    ("success", Payload.Bool true);
                    ("action", read message "action");
                    ("result", Payload.String (a +:+ " processed"))])
      as [text Htext].
    rewrite (publish_object _ _ _ _ text Hchan Hq Htext).
    by eexists _, text.
  - destruct (to_string (read message "action")) as [a|]; unfold failed.
    + destruct (Henc [("correlationId", read message "correlationId");
                      ("success", Payload.Bool false);
                      ("error",
                       Payload.String
                         (message_of
                            (JS.Error ("Unknown action: " +:+ a))))])
        as [text Htext].
      rewrite (publish_object _ _ _ _ text Hchan Hq Htext).
      by eexists _, text.
    + destruct (Henc [("correlationId", read message "correlationId");
                      ("success", Payload.Bool false);
                      ("error",
                       Payload.String (message_of not_primitive))])
        as [text Htext].
      rewrite (publish_object _ _ _ _ text Hchan Hq Htext).
      by eexists _, text.
Qed.

(** X20. Every request that is not [null] is answered exactly once and
    never sent back to the queue. With the responses queue registered
    and a working channel, the handler publishes one message to
    [otp.responses] and resolves, so the delivery is acknowledged. The
    response carries the [correlationId] of the request, and its
    [success] flag tells whether the action was [generate] or [verify];
    an unknown or missing action is reported in a response, not by
    failing the delivery. *)
Theorem otp_request_answered_once (cw : channel_world)
    (s : BaseService.t) (message : Payload.value) :
  encodes_objects →
  JS.truthy (BaseService.channel s) = true →
  is_Some (BaseService.queues s !! "otp.responses") →
  nullish message = false →
  ∃ response text,
    stringify response = Some text
    ∧ on_request cw s message
      = (s, [Chan (SendToQueue "otp.responses" (Buffer_from text)
                     (∅ ∪ {[ "persistent" := JS.Bool true ]}))],
         Resolves)
    ∧ read response "correlationId" = read message "correlationId"
    ∧ read response "success"
      = Payload.Bool (known_action (read message "action"))
    ∧ ∀ m, decode (Buffer_toString (content m)) = message →
           ack_raises cw = None →
           on_message cw (λ parsed _, snd (on_request cw s parsed)) (Some m)
           = ([Handler message m; Chan (Ack m)], JS.Return ()).
Proof.
  intros Henc Hchan Hq Hnull.
  destruct (on_request_answers cw s message Henc Hchan Hq Hnull)
    as (response & text & Htext & Hreq & Hcid & Hsucc).
  exists response, text. do 4 (split; [done|]).
  intros m Hm Hack.
  rewrite on_message_resolves, Hm; [done| |done]. by rewrite Hm, Hreq.
Qed.

Lemma deliveries_poisoned n w callback m rest held :
  (∀ msg, ∃ e, callback (decode (Buffer_toString (content m))) msg
               = Rejects e) →
  nack_raises w = None →
  deliveries (S n) w callback {| ready := m :: rest; unacked := held |}
  = ({| ready := requeued m :: rest;
        unacked := without_tag (deliveryTag m) held |},
     (failed_attempt m
        ++ concat (replicate n (failed_attempt (requeued m))))%list).
Proof.
  intros Hfail Hnack. revert m held Hfail.
  induction n as [|n IH]; intros m held Hfail.
  - cbn [deliveries ready unacked].
    destruct (Hfail m) as [e He].
    rewrite (on_message_rejects _ _ _ _ He Hnack). simpl.
    unfold has_tag, without_tag. simpl. by rewrite Nat.eqb_refl.
  - change (deliveries (S (S n)) w callback
              {| ready := m :: rest; unacked := held |})
      with (let q1 := {| ready := rest; unacked := m :: held |} in
            let evs := fst (on_message w callback (Some m)) in
            let q2 := fold_left settle evs q1 in
            let '(q3, evs') := deliveries (S n) w callback q2 in
            (q3, (evs ++ evs')%list)).
    cbv zeta. destruct (Hfail m) as [e He].
    rewrite (on_message_rejects _ _ _ _ He Hnack). simpl fst.
    replace (fold_left settle (failed_attempt m)
               {| ready := rest; unacked := m :: held |})
      with {| ready := requeued m :: rest;
              unacked := without_tag (deliveryTag m) held |}.
    2:{ simpl. unfold has_tag, without_tag. simpl.
        by rewrite Nat.eqb_refl. }
    rewrite (IH (requeued m)) by exact Hfail.
    simpl deliveryTag. by rewrite without_tag_idemp.
Qed.

(** X21. A request whose text decodes to [null] is never answered and
    never leaves the queue: the handler fails on reading
    [message.action], fails again in its [catch] block on reading
    [message.correlationId], and rejects without publishing; the
    consumer requeues the delivery, and after any number of deliveries
    the message is still at the head of the queue, with no
    acknowledgement among the calls made. *)
Theorem otp_null_request_requeued_forever (cw : channel_world)
    (s : BaseService.t) (m : message) :
  nullish (decode (Buffer_toString (content m))) = true →
  nack_raises cw = None →
  let callback := λ parsed (_ : message), snd (on_request cw s parsed) in
  on_request cw s (decode (Buffer_toString (content m)))
  = (s, [], Rejects (cannot_read (decode (Buffer_toString (content m)))
                                 "correlationId"))
  ∧ ∀ n rest held,
      let '(q, evs) :=
        deliveries (S n) cw callback
                   {| ready := m :: rest; unacked := held |} in
      ready q = requeued m :: rest
      ∧ evs = (failed_attempt m
                ++ concat (replicate n (failed_attempt (requeued m))))%list
      ∧ existsb is_ack evs = false.
Proof.
  intros Hnull Hnack. cbv zeta.
  assert (on_request cw s (decode (Buffer_toString (content m)))
          = (s, [], Rejects (cannot_read
                               (decode (Buffer_toString (content m)))
                               "correlationId"))) as Hreq.
  { unfold on_request, process. by rewrite Hnull. }
  split; [done|]. intros n rest held.
  rewrite deliveries_poisoned; [|by intros msg; rewrite Hreq; eexists|done].
  split; [done|]. split; [done|].
  rewrite existsb_app, failed_attempt_no_ack. simpl.
  induction n as [|n IH]; [done|]. simpl. done.
Qed.

End OtpRequests.

Section OtpRequestsWitnesses.
Import Messaging MessagingProps PayloadValue OTPService ServiceProps.

Lemma codec_encodes_objects : @encodes_objects JsonText.codec.
Proof. intros fields. by eexists. Qed.

Lemma otp_request_answered_once_witness :
  let s := BaseService.set_queue
             (BaseService.constructor connected_options)
             "otp.responses" queue_info in
  ∃ response text,
    @stringify JsonText.codec response = Some text
    ∧ @on_request JsonText.codec working s sample_request
      = (s, [Chan (SendToQueue "otp.responses" (Buffer_from text)
                     (∅ ∪ {[ "persistent" := JS.Bool true ]}))],
         Resolves)
    ∧ read response "correlationId" = Payload.String "c-42"
    ∧ read response "success" = Payload.Bool true.
Proof.
  cbv zeta.
  destruct (@otp_request_answered_once JsonText.codec working
              (BaseService.set_queue
                 (BaseService.constructor connected_options)
                 "otp.responses" queue_info)
              sample_request codec_encodes_objects
              ltac:(reflexivity) ltac:(by eexists) ltac:(reflexivity))
    as (response & text & Htext & Hreq & Hcid & Hsucc & _).
  by exists response, text.
Defined.

Lemma otp_null_request_requeued_forever_witness :
  let m := {| content := Buffer_from "null"; deliveryTag := 7;
              redelivered := false |} in
  let s := BaseService.constructor connected_options in
  let callback :=
    λ parsed (_ : message),
      snd (@on_request JsonText.codec working s parsed) in
  let '(q, evs) :=
    @deliveries JsonText.codec 3 working callback
                {| ready := [m]; unacked := [] |} in
  ready q = [requeued m] ∧ existsb is_ack evs = false.
Proof.
  cbv zeta.
  pose proof (proj2 (@otp_null_request_requeued_forever JsonText.codec
                       working (BaseService.constructor connected_options)
                       {| content := Buffer_from "null"; deliveryTag := 7;
                          redelivered := false |}
                       ltac:(vm_compute; reflexivity) ltac:(reflexivity))
                    2%nat [] []) as Hrun.
  cbv zeta in Hrun.
  destruct (@deliveries JsonText.codec 3 working _ _) as [q evs].
  by destruct Hrun as (? & _ & ?).
Defined.

End OtpRequestsWitnesses.

(** ** The OTP controller *)

Section OtpStore.
Import PayloadValue OtpController.

Lemma same_key_primitive a b :
  same_key a b = true → same_key b b = true ∧ is_Some (to_string b).
Proof.
  destruct a, b; try done; simpl; intros Heq.
  - by destruct b.
  - split; [apply Z.eqb_refl|by eexists].
  - split; [apply String.eqb_refl|by eexists].
Qed.

Lemma get_found st k d :
  get st k = Some d → same_key k k = true ∧ is_Some (to_string k).
Proof.
  unfold get. destruct (List.find _ st) as [kv|] eqn:Hfind; [|done].
  intros _. apply find_some in Hfind as [_ Hkey].
  by apply same_key_primitive in Hkey.
Qed.

Lemma get_set_same st k d :
  same_key k k = true → get (set st k d) k = Some d.
Proof.
  intros Hk. unfold get. induction st as [|[k' d'] st IH]; simpl.
  - by rewrite Hk.
  - destruct (same_key k' k) eqn:Hkey; simpl; by rewrite Hkey.
Qed.

Lemma get_delete st k : get (delete st k) k = None.
Proof.
  unfold get, delete. induction st as [|[k' d'] st IH]; simpl; [done|].
  destruct (same_key k' k) eqn:Hkey; simpl; [done|]. by rewrite Hkey.
Qed.

End OtpStore.

Section OtpVerification.
Import PayloadValue OtpController.
Context `{LocalClock}.

(** X22. When a verification succeeds. [verifyOTP] answers with status
    200 exactly when the body is an object whose identifier and code are
    truthy, the store holds a record for the identifier, the time is not
    past the record's expiry, and the code given is the stored string;
    a code sent as a number never verifies, nor does any request for an
    identifier that is an array or an object. On success the record is
    removed, so a code verifies once. *)
Theorem verifyOTP_succeeds_iff (body : Payload.value) (now : Z)
    (st : store) :
  let identifier := read body "identifier" in
  let '(st', reply) := verifyOTP body now st in
  (Response.statusCode reply = Response.OK
   ↔ nullish body = false
     ∧ truthy identifier = true ∧ truthy (read body "otp") = true
     ∧ ∃ d, get st identifier = Some d ∧ now ≤ expiryTime d
            ∧ read body "otp" = Payload.String (otp d))
  ∧ (Response.statusCode reply = Response.OK →
     get st' identifier = None
     ∧ reply = Response.success
                 Payload.Null (Payload.String "OTP verified successfully")).
Proof.
  cbv zeta. unfold verifyOTP.
  destruct (nullish body) eqn:Hnull.
  { split; [split; [done|naive_solver]|done]. }
  destruct (truthy (read body "identifier")) eqn:Hid; cbn [negb orb].
  2:{ split; [split; [done|naive_solver]|done]. }
  destruct (truthy (read body "otp")) eqn:Hotp; cbn [negb].
  2:{ split; [split; [done|naive_solver]|done]. }
  destruct (get st (read body "identifier")) as [d|] eqn:Hget.
  2:{ unfold logging.
      destruct (to_string (read body "identifier"));
        (split; [split; [done|naive_solver]|done]). }
  destruct (get_found _ _ _ Hget) as [Hkey [txt Htxt]].
  unfold logging. rewrite Htxt.
  destruct (Z.gtb_spec now (expiryTime d)) as [Hexp|Hlive].
  { split; [split; [done|]|done].
    intros (_ & _ & _ & d' & [= <-] & Hle & _). lia. }
  change (otp (attempted d)) with (otp d).
  destruct (matches (otp d) (read body "otp")) eqn:Hmatch.
  - split; [split; [intros _|done]|].
    + do 3 (split; [done|]). exists d. do 2 (split; [done|]).
      unfold matches in Hmatch.
      destruct (read body "otp"); try done.
      by apply String.eqb_eq in Hmatch as ->.
    + intros _. split; [apply get_delete|done].
  - assert (¬ ∃ d', Some d = Some d' ∧ now ≤ expiryTime d'
                     ∧ read body "otp" = Payload.String (otp d')) as Hno.
    { intros (d' & [= <-] & _ & Heq). rewrite Heq in Hmatch.
      simpl in Hmatch. by rewrite String.eqb_refl in Hmatch. }
    destruct (attempts (attempted d) >=? 3);
      (split; [split; [done|naive_solver]|done]).
Qed.

End OtpVerification.

Section OtpAttempts.
Import PayloadValue OtpController OtpProps.

Lemma verifyOTP_wrong_code id d st g t :
  get st id = Some d → PayloadValue.truthy id = true →
  PayloadValue.truthy g = true → matches (otp d) g = false →
  t ≤ expiryTime d →
  verifyOTP (request id g) t st
  = if attempts d + 1 >=? 3
    then (delete (set st id (attempted d)) id,
          Response.badRequest
            (Payload.String "Maximum verification attempts reached")
            Payload.Undefined)
    else (set st id (attempted d), invalid (3 - (attempts d + 1))).
Proof.
  intros Hget Hid Hg Hwrong Hlive. unfold verifyOTP, request.
  replace (read (Payload.Object [("identifier", id); ("otp", g)])
                "identifier") with id by reflexivity.
  replace (read (Payload.Object [("identifier", id); ("otp", g)]) "otp")
    with g by reflexivity.
  cbn [nullish]. rewrite Hid, Hg, Hget. cbn [negb orb].
  destruct (get_found _ _ _ Hget) as [_ [txt Htxt]].
  unfold logging. rewrite Htxt.
  destruct (Z.gtb_spec t (expiryTime d)); [lia|].
  change (otp (attempted d)) with (otp d). rewrite Hwrong.
  change (attempts (attempted d)) with (attempts d + 1).
  by destruct (attempts d + 1 >=? 3).
Qed.

Lemma verifyOTP_unknown id g t st :
  get st id = None → is_Some (to_string id) →
  Response.statusCode (snd (verifyOTP (request id g) t st))
  = Response.BAD_REQUEST
  ∧ fst (verifyOTP (request id g) t st) = st.
Proof.
  intros Hget [txt Htxt]. unfold verifyOTP, request.
  replace (read (Payload.Object [("identifier", id); ("otp", g)])
                "identifier") with id by reflexivity.
  replace (read (Payload.Object [("identifier", id); ("otp", g)]) "otp")
    with g by reflexivity.
  cbn [nullish]. rewrite Hget. unfold logging. rewrite Htxt.
  by destruct (negb (PayloadValue.truthy id) || negb (PayloadValue.truthy g)).
Qed.

(** X23. Three wrong codes use a record up. Starting from a record with
    no attempts, and within its expiry, a first and a second wrong code
    are answered with ['Invalid OTP'] and two, then one attempt left;
    a third is answered with ['Maximum verification attempts reached']
    and removes the record, after which every request for the
    identifier, the right code included, is refused with status 400 and
    changes nothing. *)
Theorem verifyOTP_three_wrong_codes (id : Payload.value) (d : otpData)
    (st : store) (g1 g2 g3 : Payload.value) (t1 t2 t3 : Z) :
  get st id = Some d → attempts d = 0 →
  PayloadValue.truthy id = true →
  Forall (λ g, PayloadValue.truthy g = true ∧ matches (otp d) g = false)
         [g1; g2; g3] →
  Forall (λ t, t ≤ expiryTime d) [t1; t2; t3] →
  let '(st1, r1) := verifyOTP (request id g1) t1 st in
  let '(st2, r2) := verifyOTP (request id g2) t2 st1 in
  let '(st3, r3) := verifyOTP (request id g3) t3 st2 in
  r1 = invalid 2 ∧ r2 = invalid 1
  ∧ r3 = Response.badRequest
           (Payload.String "Maximum verification attempts reached")
           Payload.Undefined
  ∧ get st3 id = None
  ∧ ∀ g t, Response.statusCode (snd (verifyOTP (request id g) t st3))
           = Response.BAD_REQUEST
           ∧ fst (verifyOTP (request id g) t st3) = st3.
Proof.
  intros Hget Hzero Hid Hwrong Hlive.
  apply Forall_cons in Hwrong as [[Hg1 Hw1] Hwrong].
  apply Forall_cons in Hwrong as [[Hg2 Hw2] Hwrong].
  apply Forall_cons in Hwrong as [[Hg3 Hw3] _].
  apply Forall_cons in Hlive as [Ht1 Hlive].
  apply Forall_cons in Hlive as [Ht2 Hlive].
  apply Forall_cons in Hlive as [Ht3 _].
  destruct (get_found _ _ _ Hget) as [Hkey Htxt].
  rewrite (verifyOTP_wrong_code id d st g1 t1) by done.
  rewrite Hzero. change (0 + 1 >=? 3) with false. cbv beta iota.
  rewrite (verifyOTP_wrong_code id (attempted d) _ g2 t2)
    by (done || by apply get_set_same).
  change (attempts (attempted d)) with (attempts d + 1). rewrite Hzero.
  change (0 + 1 + 1 >=? 3) with false. cbv beta iota.
  rewrite (verifyOTP_wrong_code id (attempted (attempted d)) _ g3 t3)
    by (done || by apply get_set_same).
  change (attempts (attempted (attempted d))) with (attempts d + 1 + 1).
  rewrite Hzero. change (0 + 1 + 1 + 1 >=? 3) with true. cbv beta iota.
  split; [done|]. split; [done|]. split; [done|].
  split; [apply get_delete|].
  intros g t. apply verifyOTP_unknown; [apply get_delete|done].
Qed.

Lemma verifyOTP_three_wrong_codes_witness :
  let id := Payload.String "alice" in
  let wrong := Payload.String "000000" in
  let '(st1, r1) := verifyOTP (request id wrong) 1000 sample_store in
  let '(st2, r2) := verifyOTP (request id wrong) 2000 st1 in
  let '(st3, r3) := verifyOTP (request id wrong) 3000 st2 in
  r1 = invalid 2 ∧ r2 = invalid 1
  ∧ r3 = Response.badRequest
           (Payload.String "Maximum verification attempts reached")
           Payload.Undefined
  ∧ get st3 id = None
  ∧ ∀ g t, Response.statusCode (snd (verifyOTP (request id g) t st3))
           = Response.BAD_REQUEST
           ∧ fst (verifyOTP (request id g) t st3) = st3.
Proof.
  apply (verifyOTP_three_wrong_codes
           (Payload.String "alice")
           {| otp := "493817"; expiryTime := 600000; attempts := 0 |}
           sample_store
           (Payload.String "000000") (Payload.String "000000")
           (Payload.String "000000") 1000 2000 3000);
    try reflexivity.
  - repeat apply Forall_cons_2; try apply Forall_nil_2; by split.
  - repeat apply Forall_cons_2; try apply Forall_nil_2; simpl; lia.
Defined.

End OtpAttempts.

Section OtpGeneration.
Import PayloadValue OtpController OtpProps.

Lemma six_digits (x : N) :
  (100000 ≤ x ≤ 999999)%N → String.length (pretty x) = 6%nat.
Proof.
  intros Hx. unfold pretty, pretty_N. rewrite decide_False by lia.
  rewrite pretty_N_go_step by lia.
  rewrite pretty_N_go_step by (apply N.div_str_pos; lia).
  assert (1000 ≤ N.div (N.div x 10) 10)%N
    by (do 2 (apply N.div_le_lower_bound; [lia|]); lia).
  rewrite pretty_N_go_step by lia.
  assert (100 ≤ N.div (N.div (N.div x 10) 10) 10)%N
    by (apply N.div_le_lower_bound; lia).
  rewrite pretty_N_go_step by lia.
  assert (10 ≤ N.div (N.div (N.div (N.div x 10) 10) 10) 10)%N
    by (apply N.div_le_lower_bound; lia).
  rewrite pretty_N_go_step by lia.
  assert (1 ≤ N.div (N.div (N.div (N.div (N.div x 10) 10) 10) 10) 10)%N
    by (apply N.div_le_lower_bound; lia).
  rewrite pretty_N_go_step by lia.
  assert (N.div (N.div (N.div (N.div (N.div (N.div x 10) 10) 10) 10) 10) 10
          = 0)%N as ->.
  { rewrite !N.Div0.div_div. apply N.div_small. lia. }
  by rewrite pretty_N_go_0.
Qed.

Lemma six_digits_Z (n : Z) :
  100000 ≤ n ≤ 999999 → String.length (pretty n) = 6%nat.
Proof.
  intros Hn. destruct n as [|p|p]; [lia| |lia].
  change (pretty (Z.pos p)) with (pretty (N.pos p)).
  apply six_digits. lia.
Qed.

Lemma numeric_otp_range (random : Q) :
  (0 <= random)%Q → (random < 1)%Q →
  ∃ n, numeric_otp random = pretty n ∧ 100000 ≤ n ≤ 999999.
Proof.
  intros H0 H1. eexists. split; [reflexivity|].
  change (10 ^ (length - 1)) with 100000. split.
  - change 100000 with (Qfloor (inject_Z 100000)) at 1.
    apply Qfloor_resp_le. unfold inject_Z. lra.
  - apply Z.lt_succ_r. change (Z.succ 999999) with 1000000.
    rewrite Zlt_Qlt. eapply Qle_lt_trans; [apply Qfloor_le|].
    unfold inject_Z. lra.
Qed.

Lemma get_set_fresh_object st k d :
  same_key k k = false → get (set st k d) k = None.
Proof.
  intros Hk. unfold get.
  assert (∀ x, same_key x k = false) as Hnone.
  { intros x. destruct (same_key x k) eqn:Hx; [|done].
    apply same_key_primitive in Hx as [Hx _]. congruence. }
  induction st as [|[k' d'] st IH]; simpl.
  - by rewrite Hk.
  - rewrite (Hnone k'). simpl. by rewrite (Hnone k').
Qed.

(** X24. A generated code has six digits. For a body with a truthy
    identifier and any draw of [Math.random] in [0, 1), [generateOTP]
    stores the decimal text of a number between 100000 and 999999,
    which has six characters, with no attempts counted and the expiry
    the local clock gives for ten minutes later, in place of whatever
    record the identifier had; it answers with status 200. An
    identifier that is an array or an object gets a record that no
    lookup finds. *)
Theorem generateOTP_stores_six_digits `{LocalClock} (body : Payload.value)
    (random : Q) (now : Z) (st : store) :
  nullish body = false →
  PayloadValue.truthy (read body "identifier") = true →
  (0 <= random)%Q → (random < 1)%Q →
  let identifier := read body "identifier" in
  let '(st', reply) := generateOTP body random now st in
  ∃ n, 100000 ≤ n ≤ 999999
       ∧ String.length (pretty n) = 6%nat
       ∧ (same_key identifier identifier = true →
          get st' identifier
          = Some {| otp := pretty n;
                    expiryTime := minutes_later now 10; attempts := 0 |}
          ∧ reply = Response.success
                      (Payload.Object
                         [("expiryMinutes", Payload.Number 10)])
                      (Payload.String "OTP generated successfully"))
       ∧ (same_key identifier identifier = false →
          get st' identifier = None).
Proof.
  intros Hnull Hid H0 H1. cbv zeta. unfold generateOTP, logging.
  rewrite Hnull, Hid. cbn [negb].
  destruct (numeric_otp_range random H0 H1) as (n & -> & Hn).
  destruct (to_string (read body "identifier")) as [txt|] eqn:Htxt;
    (exists n; split; [done|]; split; [by apply six_digits_Z|]; split;
     [intros Hkey; split; [by apply get_set_same|]
     |intros Hkey; by apply get_set_fresh_object]).
  - done.
  - destruct (same_key_primitive _ _ Hkey) as [_ [txt Htxt']].
    congruence.
Qed.

Lemma generateOTP_stores_six_digits_witness :
  let body := Payload.Object [("identifier", Payload.String "alice")] in
  let '(st', reply) := @generateOTP steady body (1 # 2)%Q 0 sample_store in
  ∃ n, 100000 ≤ n ≤ 999999
       ∧ String.length (pretty n) = 6%nat
       ∧ get st' (Payload.String "alice")
         = Some {| otp := pretty n; expiryTime := 600000; attempts := 0 |}.
Proof.
  cbv zeta.
  pose proof (@generateOTP_stores_six_digits steady
                (Payload.Object [("identifier", Payload.String "alice")])
                (1 # 2)%Q 0 sample_store
                ltac:(reflexivity) ltac:(reflexivity)
                ltac:(discriminate) ltac:(reflexivity)) as Hgen.
  cbv zeta in Hgen.
  destruct (@generateOTP steady _ _ _ _) as [st' reply].
  destruct Hgen as (n & Hn & Hlen & Hprim & _).
  exists n. split; [done|]. split; [done|].
  apply Hprim. reflexivity.
Defined.

End OtpGeneration.

(** ** From the factory to the registry *)

Section FactoryToRegistry.
Import Factory Lifecycle.
Context `{ToNumber}.


End FactoryToRegistry.

Section FactoryToRegistryWitness.
Import Factory Lifecycle.


End FactoryToRegistryWitness.

(** ** Stopping a service *)

Section ServiceStop.
Import Registry Lifecycle HttpService Messaging ServiceProps.
Context `{ToNumber}.

(** Registering a queue and stopping do not interfere. *)
Lemma stop_set_queue reg (x : BaseService.t) q v :
  Lifecycle.stop reg (BaseService.set_queue x q v)
  = (fst (Lifecycle.stop reg x),
     BaseService.set_queue (snd (Lifecycle.stop reg x)) q v).
Proof.
  unfold Lifecycle.stop, unregisterFromRegistry. simpl.
  destruct (BaseService.isRunning x); [|done]. simpl.
  destruct (JS.truthy (BaseService.registry x)); [|done]. simpl.
  destruct (BaseService.registryInfo x) as [e|]; [|done]. simpl.
  destruct (unregister reg (name e) (host e) (port e)) as [reg' []];
    done.
Qed.

Lemma stop_keeps_queues reg (x : BaseService.t) :
  BaseService.queues (snd (Lifecycle.stop reg x)) = BaseService.queues x.
Proof.
  unfold Lifecycle.stop, unregisterFromRegistry.
  destruct (BaseService.isRunning x); [|done]. simpl.
  destruct (JS.truthy (BaseService.registry x)); [|done]. simpl.
  destruct (BaseService.registryInfo x) as [e|]; [|done]. simpl.
  destruct (unregister reg (name e) (host e) (port e)) as [reg' []];
    done.
Qed.

(** X26. Starting the API service and stopping it again. With an HTTP
    library and a channel that work, and the key of the instance free in
    the registry, [start] followed by [stop] returns; [stop] closes the
    server and gives the registry back as it was before the start; the
    instance is no longer running nor registered, but keeps the queues it
    declared. If closing the server fails instead, [stop] throws that
    error before anything else is undone: registry and instance stay
    as they are, the instance still registered and marked as
    running. *)
Theorem api_service_start_then_stop (o : BaseService.options)
    (SERVICE_HOST : JS.value) (now : Z) (reg : ServiceRegistry)
    (hw : http_world) (cw : channel_world) (srv : JS.value) :
  let s := APIService.constructor o in
  listen_result hw = JS.Return srv → JS.truthy srv = true →
  close_error hw = None →
  assertQueue_raises cw = None →
  Obj.get (services reg)
          (_generateKey (BaseService.name (base s))
                        (JS.or SERVICE_HOST (JS.Str "localhost"))
                        (BaseService.port (base s))) = None →
  let '(reg1, s1, _, out1) :=
    APIService.start SERVICE_HOST now hw cw reg s in
  let '(reg2, s2, effects, out2) := HttpService.stop hw reg1 s1 in
  out1 = JS.Return () ∧ out2 = JS.Return ()
  ∧ effects = [CloseServer]
  ∧ reg2 = reg
  ∧ BaseService.isRunning (base s2) = false
  ∧ BaseService.registryInfo (base s2) = None
  ∧ BaseService.queues (base s2) = BaseService.queues (base s1)
  ∧ ∀ hw' err,
      close_error hw' = Some err →
      HttpService.stop hw' reg1 s1
      = (reg1, s1, [CloseServer], JS.Throw err).
Proof.
  cbv zeta. unfold APIService.constructor, ServiceClass.construct.
  cbn [base]. intros Hlisten Hsrv Hclose Hassert Hfree.
  unfold APIService.start, HttpService.start. cbn [base app].
  match goal with
  | |- context [Lifecycle.start _ _ _ (BaseService.constructor ?o')] =>
      set (b0 := BaseService.constructor o') in *
  end.
  pose proof (start_then_stop_base SERVICE_HOST now reg b0
                ltac:(reflexivity) ltac:(reflexivity)
                ltac:(apply or_truthy; reflexivity)
                ltac:(apply or_truthy; reflexivity) Hfree) as Hround.
  destruct (Lifecycle.start SERVICE_HOST now reg b0)
    as [[reg1 b1] out] eqn:Hstart.
  destruct Hround as [-> Hstop]. simpl listen. rewrite Hlisten.
  assert (BaseService.queues b0 = BaseService.queues b1) as Hqueues
    by (by rewrite <- (stop_keeps_queues reg1 b1), Hstop).
  destruct (JS.truthy (BaseService.connection b1)
            && JS.truthy (BaseService.channel b1)) eqn:Hbroker.
  - apply andb_true_iff in Hbroker as [_ Hchan].
    unfold APIService._setupQueues.
    rewrite (setup_queues_working _ _ _ _ Hassert Hchan).
    unfold HttpService.stop. cbn [server base]. rewrite Hsrv, Hclose.
    rewrite !stop_set_queue, Hstop. cbn [fst snd with_base base].
    do 6 (split; [done|]). split.
    + cbn [BaseService.queues BaseService.set_queue]. by rewrite Hqueues.
    + intros hw' err ->. done.
  - unfold HttpService.stop. cbn [server base]. rewrite Hsrv, Hclose.
    rewrite Hstop. cbn [with_base base].
    do 6 (split; [done|]). split; [done|]. intros hw' err ->. done.
Qed.

End ServiceStop.

Section ServiceStopWitness.
Import Registry Lifecycle HttpService Messaging ServiceProps.

Lemma api_service_start_then_stop_witness :
  let s := APIService.constructor connected_options in
  let '(reg1, s1, _, out1) :=
    @APIService.start LifecycleProps.numbers_only JS.Undefined 10
      serving working (new None None) s in
  let '(reg2, s2, effects, out2) := HttpService.stop serving reg1 s1 in
  out1 = JS.Return () ∧ out2 = JS.Return ()
  ∧ effects = [CloseServer]
  ∧ reg2 = new None None
  ∧ BaseService.isRunning (base s2) = false
  ∧ BaseService.registryInfo (base s2) = None
  ∧ BaseService.queues (base s2) = BaseService.queues (base s1)
  ∧ ∀ hw' err,
      close_error hw' = Some err →
      HttpService.stop hw' reg1 s1
      = (reg1, s1, [CloseServer], JS.Throw err).
Proof.
  apply (@api_service_start_then_stop LifecycleProps.numbers_only
           connected_options JS.Undefined 10 (new None None)
           serving working (JS.Ref 4));
    reflexivity.
Defined.

End ServiceStopWitness.

(** ** The envelope of a response *)

Section ResponseEnvelope.
Import PayloadValue Response ResponseProps.

Lemma error_envelope message code errors :
  let r := error message code errors in
  statusCode r = code
  ∧ read (body r) "success" = Payload.Bool false
  ∧ read (body r) "message"
    = defaulting message (Payload.String "Error")
  ∧ read (body r) "data" = Payload.Undefined
  ∧ read (body r) "errors"
    = if PayloadValue.truthy errors then errors else Payload.Undefined.
Proof.
  cbv zeta. unfold error.
  destruct errors as [| |[]|n|e| |]; simpl; try done.
  - by destruct (n =? 0).
  - by destruct (String.eqb e "").
Qed.

(** X27. The body of a response tells its status. Every helper that
    answers through [send] answers with its status below 400, a body
    whose [success] is [true], and a [data] member that is never
    [undefined] ([null] when no data was given); it has no [errors].
    Every helper that answers through [error] answers with its own
    status of 400 or above and a body whose [success] is [false]; it
    never has a [data] member, and it has an [errors] member exactly
    when the errors given are truthy. Both always carry a message. *)
Theorem response_envelope :
  (∀ code h data message,
     (code, h) ∈ sending →
     let r := h data message in
     statusCode r = code ∧ code < 400
     ∧ read (body r) "success" = Payload.Bool true
     ∧ read (body r) "data" ≠ Payload.Undefined
     ∧ read (body r) "message" ≠ Payload.Undefined
     ∧ read (body r) "errors" = Payload.Undefined)
  ∧ (∀ code h message errors,
       (code, h) ∈ failing →
       let r := h message errors in
       statusCode r = code ∧ 400 ≤ code
       ∧ read (body r) "success" = Payload.Bool false
       ∧ read (body r) "data" = Payload.Undefined
       ∧ read (body r) "message" ≠ Payload.Undefined
       ∧ read (body r) "errors"
         = if PayloadValue.truthy errors then errors
           else Payload.Undefined).
Proof.
  split.
  - intros code h data message Hin. cbv zeta. unfold sending in Hin.
    repeat (apply elem_of_cons in Hin as [[= -> ->]|Hin]);
      [..|by apply elem_of_nil in Hin];
      (split; [done|]); (split; [done|]); (split; [done|]);
      (split; [by destruct data|]); (split; [by destruct message|]);
      done.
  - intros code h message errors Hin. cbv zeta. unfold failing in Hin.
    repeat (apply elem_of_cons in Hin as [[= -> ->]|Hin]);
      [..|by apply elem_of_nil in Hin];
      match goal with
      | |- context [statusCode (?f message errors)] => unfold f
      end;
      match goal with
      | |- context [error ?m ?c ?e] =>
          destruct (error_envelope m c e) as (-> & -> & -> & -> & ->)
      end;
      (split; [done|]); (split; [done|]); (split; [done|]);
      (split; [done|]); (split; [by destruct message|]);
      by destruct errors as [| |[]|n|e| |].
Qed.

End ResponseEnvelope.

(** ** A code that is generated and then verified *)

Section OtpRoundTrip.
Import PayloadValue OtpController OtpProps.

Lemma verifyOTP_right_code id d st t :
  get st id = Some d → PayloadValue.truthy id = true →
  otp d ≠ "" → t ≤ expiryTime d →
  verifyOTP (request id (Payload.String (otp d))) t st
  = (delete (set st id (attempted d)) id, verified).
Proof.
  intros Hget Hid Hotp Hlive. unfold verifyOTP, request.
  replace (read (Payload.Object
                   [("identifier", id);
                    ("otp", Payload.String (otp d))]) "identifier")
    with id by reflexivity.
  replace (read (Payload.Object
                   [("identifier", id);
                    ("otp", Payload.String (otp d))]) "otp")
    with (Payload.String (otp d)) by reflexivity.
  cbn [nullish PayloadValue.truthy]. rewrite Hid, Hget.
  apply String.eqb_neq in Hotp. rewrite Hotp. cbn [negb orb].
  destruct (get_found _ _ _ Hget) as [_ [txt Htxt]].
  unfold logging. rewrite Htxt.
  destruct (Z.gtb_spec t (expiryTime d)); [lia|].
  change (otp (attempted d)) with (otp d). unfold matches.
  by rewrite String.eqb_refl.
Qed.

(** X28. A generated code verifies, once. For an identifier that is a
    primitive value, the code [generateOTP] draws is accepted by
    [verifyOTP] at any time up to the expiry the local clock gave it, with
    status 200 and ['OTP verified successfully']; the record is gone
    afterwards, and presenting the same code again is refused with
    status 400. *)
Theorem generated_code_verifies_once `{LocalClock} (body : Payload.value)
    (random : Q) (t0 t t' : Z) (st : store) :
  nullish body = false →
  let identifier := read body "identifier" in
  PayloadValue.truthy identifier = true →
  same_key identifier identifier = true →
  (0 <= random)%Q → (random < 1)%Q →
  t ≤ minutes_later t0 expiryMinutes →
  let code := Payload.String (numeric_otp random) in
  let '(st1, generated) := generateOTP body random t0 st in
  let '(st2, first) := verifyOTP (request identifier code) t st1 in
  let '(st3, second) := verifyOTP (request identifier code) t' st2 in
  Response.statusCode generated = Response.OK
  ∧ first = verified
  ∧ get st2 identifier = None
  ∧ Response.statusCode second = Response.BAD_REQUEST
  ∧ st3 = st2.
Proof.
  intros Hnull identifier Hid Hkey H0 H1 Hlive. cbv zeta.
  destruct (same_key_primitive _ _ Hkey) as [_ [txt Htxt]].
  unfold generateOTP, logging. fold identifier.
  rewrite Hnull, Hid, Htxt. cbn [negb].
  set (d := {| otp := numeric_otp random;
               expiryTime := minutes_later t0 expiryMinutes;
               attempts := 0 |}).
  assert (otp d ≠ "") as Hotp.
  { destruct (numeric_otp_range random H0 H1) as (n & Hn & Hrange).
    simpl. rewrite Hn. intros Hempty.
    pose proof (six_digits_Z n Hrange) as Hlen.
    by rewrite Hempty in Hlen. }
  change (Payload.String (numeric_otp random))
    with (Payload.String (otp d)).
  rewrite (verifyOTP_right_code identifier d (set st identifier d) t)
    by (done || by apply get_set_same).
  pose proof (verifyOTP_unknown identifier
                (Payload.String (otp d)) t'
                (delete (set (set st identifier d) identifier
                             (attempted d)) identifier)
                (get_delete _ _) ltac:(by eexists)) as [Hstatus Hsame].
  destruct (verifyOTP _ t' _) as [st3 second].
  split; [done|]. split; [done|]. split; [apply get_delete|].
  by split.
Qed.

Lemma generated_code_verifies_once_witness :
  let body := Payload.Object [("identifier", Payload.String "alice")] in
  let code := Payload.String (numeric_otp (1 # 2)%Q) in
  let '(st1, generated) :=
    @generateOTP steady body (1 # 2)%Q 0 sample_store in
  let '(st2, first) :=
    verifyOTP (request (Payload.String "alice") code) 600000 st1 in
  let '(st3, second) :=
    verifyOTP (request (Payload.String "alice") code) 600001 st2 in
  Response.statusCode generated = Response.OK
  ∧ first = verified
  ∧ get st2 (Payload.String "alice") = None
  ∧ Response.statusCode second = Response.BAD_REQUEST
  ∧ st3 = st2.
Proof.
  apply (@generated_code_verifies_once steady
           (Payload.Object [("identifier", Payload.String "alice")])
           (1 # 2)%Q 0 600000 600001 sample_store);
    try reflexivity; try discriminate.
Defined.

End OtpRoundTrip.

(** ** A delivery whose acknowledgement fails *)

Section AckFailure.
Import Messaging MessagingProps RedeliveryProps.
Context {json : JSON}.

Lemma deliveries_requeued n w callback m rest held :
  (∀ msg, content msg = content m →
          on_message w callback (Some msg)
          = (failed_attempt msg, JS.Return ())) →
  deliveries (S n) w callback {| ready := m :: rest; unacked := held |}
  = ({| ready := requeued m :: rest;
        unacked := without_tag (deliveryTag m) held |},
     (failed_attempt m
        ++ concat (replicate n (failed_attempt (requeued m))))%list).
Proof.
  revert m held. induction n as [|n IH]; intros m held Hfail.
  - cbn [deliveries ready unacked]. rewrite (Hfail m eq_refl). simpl.
    unfold has_tag, without_tag. simpl. by rewrite Nat.eqb_refl.
  - change (deliveries (S (S n)) w callback
              {| ready := m :: rest; unacked := held |})
      with (let q1 := {| ready := rest; unacked := m :: held |} in
            let evs := fst (on_message w callback (Some m)) in
            let q2 := fold_left settle evs q1 in
            let '(q3, evs') := deliveries (S n) w callback q2 in
            (q3, (evs ++ evs')%list)).
    cbv zeta. rewrite (Hfail m eq_refl). simpl fst.
    replace (fold_left settle (failed_attempt m)
               {| ready := rest; unacked := m :: held |})
      with {| ready := requeued m :: rest;
              unacked := without_tag (deliveryTag m) held |}.
    2:{ simpl. unfold has_tag, without_tag. simpl.
        by rewrite Nat.eqb_refl. }
    rewrite (IH (requeued m)) by exact Hfail.
    simpl deliveryTag. by rewrite without_tag_idemp.
Qed.

Lemma handler_count m n :
  length (List.filter is_handler
            (failed_attempt m
               ++ concat (replicate n (failed_attempt (requeued m)))))
  = S n.
Proof.
  rewrite List.filter_app, length_app. simpl. f_equal.
  induction n as [|n IH]; [done|]. simpl. by rewrite IH.
Qed.

(** X29. A message is processed again when its acknowledgement fails.
    If the handler resolves but [channel.ack] throws, the consumer's
    [catch] block takes the delivery for a failed one and sends it back
    to the queue: one delivery is seen as the handler's call followed by
    a [nack] with requeue, and over any number of deliveries the handler
    runs once per delivery on the same message, which stays at the head
    of the queue, never acknowledged. *)
Theorem ack_failure_processes_again (cw : channel_world)
    (callback : Payload.value → message → settled) (e : JS.exn)
    (m : message) :
  (∀ parsed msg, callback parsed msg = Resolves) →
  ack_raises cw = Some e → nack_raises cw = None →
  on_message cw callback (Some m)
  = ([Handler (decode (Buffer_toString (content m))) m;
      Chan (Nack m false true)], JS.Return ())
  ∧ ∀ n rest held,
      let '(q, evs) :=
        deliveries (S n) cw callback
                   {| ready := m :: rest; unacked := held |} in
      ready q = requeued m :: rest
      ∧ length (List.filter is_handler evs) = S n
      ∧ existsb is_ack evs = false.
Proof.
  intros Hresolves Hack Hnack.
  assert (∀ msg, on_message cw callback (Some msg)
                 = (failed_attempt msg, JS.Return ())) as Hone.
  { intros msg. unfold on_message. by rewrite Hresolves, Hack, Hnack. }
  split; [apply Hone|]. intros n rest held.
  rewrite deliveries_requeued by (intros msg _; apply Hone).
  split; [done|]. split; [apply handler_count|].
  rewrite existsb_app, failed_attempt_no_ack. simpl.
  induction n as [|n IH]; [done|]. simpl. done.
Qed.

End AckFailure.

Section AckFailureWitness.
Import Messaging MessagingProps RedeliveryProps.

Lemma ack_failure_processes_again_witness :
  let cw := {| assertQueue_raises := None;
               ack_raises := Some (JS.Error "Channel closed");
               nack_raises := None; sendToQueue_returns := true |} in
  let m := {| content := Buffer_from "{}"; deliveryTag := 1;
              redelivered := false |} in
  let '(q, evs) :=
    @deliveries JsonText.codec 3 cw (λ _ _, Resolves)
                {| ready := [m]; unacked := [] |} in
  ready q = [requeued m]
  ∧ length (List.filter is_handler evs) = 3%nat
  ∧ existsb is_ack evs = false.
Proof.
  cbv zeta.
  exact (proj2 (@ack_failure_processes_again JsonText.codec
                  {| assertQueue_raises := None;
                     ack_raises := Some (JS.Error "Channel closed");
                     nack_raises := None; sendToQueue_returns := true |}
                  (λ _ _, Resolves) (JS.Error "Channel closed")
                  {| content := Buffer_from "{}"; deliveryTag := 1;
                     redelivered := false |}
                  ltac:(reflexivity) ltac:(reflexivity) ltac:(reflexivity))
               2%nat [] []).
Defined.

End AckFailureWitness.
